(** * fgt: clustering for the Fast Gauss Transform (src/clustering.cpp)

    A shallow embedding of [Clustering::choose_truncation_number],
    [Clustering::compute_C] and the [GonzalezClustering] constructor.

    Numbers.  A [double] is read as an exact number.  The clustering pass
    only adds, subtracts, multiplies, divides by four and compares, so it is
    embedded over the rationals [Q] and runs inside Rocq.  Square roots,
    logarithms and exponentials are taken in the reals [R]; a rational enters
    them through [Q2R].  An [arma::uword] is an [N] below [2^64] with its
    wrap-around written out, an [int] is a [Z].  Where the program would
    produce an infinity or a NaN (a division by zero, the logarithm or the
    square root of a negative number) the functions of [R] and [Q] return
    some number; no statement below depends on which.  Binary64 also
    rounds: a statement whose conclusion depends on how two distances
    compare is made for the inputs of [exact_input], on which the program's
    arithmetic is exact; the other statements about the clustering hold
    whatever the comparisons decide, or concern a value up to its rounding.

    Arrays.  Armadillo's [operator()] checks its index and throws; element
    access is therefore a computation in the [result] monad below. *)

From Stdlib Require Import ZArith NArith QArith Qabs Reals Lra Lqa Lia List Bool.
From Stdlib Require PrimFloat.
From stdpp Require Import base numbers sets list.
Import ListNotations.

Ltac qlra := Lqa.lra.
Ltac qnra := Lqa.nra.
Ltac rlra := Lra.lra.
Ltac rnra := Lra.nra.

(** ** Failures and the result monad *)

Inductive error : Type :=
| BadAlloc          (* an allocation of an absurd size *)
| IndexOutOfBounds  (* a checked element access outside the array *)
| ModuloByZero      (* [rd() % N] with [N = 0] *)
| SizeMismatch      (* element-wise operation on vectors of different lengths *)
| OutOfFuel.        (* the model's loop bound was reached *)

Inductive result (A : Type) : Type :=
| Ok (a : A)
| Err (e : error).
Arguments Ok {A} a.
Arguments Err {A} e.

Global Instance result_bind : MBind result := fun A B f m =>
  match m with
  | Ok a => f a
  | Err e => Err e
  end.

Global Instance result_ret : MRet result := fun A a => Ok a.

Definition is_ok {A} (m : result A) : Prop :=
  match m with Ok _ => True | Err _ => False end.

(** ** Machine integers *)

Definition uword_modulus : N := 2 ^ 64.

Definition uword_add (a b : N) : N := ((a + b) mod uword_modulus)%N.
Definition uword_sub (a b : N) : N :=
  ((a + uword_modulus - b mod uword_modulus) mod uword_modulus)%N.

(** The conversion of an [int] to [arma::uword]. *)
Definition uword_of_int (z : Z) : N := Z.to_N (z mod Z.of_N uword_modulus).

(** ** Checked arrays, indexed by [arma::uword] *)

Definition at_ {A} (v : list A) (i : N) : result A :=
  match v !! N.to_nat i with
  | Some x => Ok x
  | None => Err IndexOutOfBounds
  end.

Definition put {A} (v : list A) (i : N) (x : A) : result (list A) :=
  if (i <? N.of_nat (length v))%N then Ok (<[N.to_nat i := x]> v)
  else Err IndexOutOfBounds.

(** A counted loop: [count] iterations, the index running upwards from [i]. *)
Fixpoint for_N {S} (count : nat) (i : N) (body : N -> S -> result S) (s : S)
  : result S :=
  match count with
  | O => Ok s
  | S c => s' ← body i s; for_N c (i + 1)%N body s'
  end.

(** ** Truncation number (clustering.cpp, lines 39-58) *)

Section TruncationSelector.

(** [Clustering::TruncationNumberUpperLimit] is declared in clustering.hpp,
    which is outside the sources at hand; it is a parameter here. *)
Variable TruncationNumberUpperLimit : Z.

Local Open Scope R_scope.

Record trunc_state : Type := TruncState {
  ts_error : R;
  ts_temp : R;
  ts_p : Z
}.

(** [(error > epsilon) and (p <= TruncationNumberUpperLimit)] *)
Definition trunc_guard (epsilon : R) (st : trunc_state) : bool :=
  (if Rgt_dec (ts_error st) epsilon then true else false)
  && (ts_p st <=? TruncationNumberUpperLimit)%Z.

Definition trunc_body (rx rx2 h2 r : R) (st : trunc_state) : trunc_state :=
  let p := (ts_p st + 1)%Z in
  let b := Rmin ((rx + sqrt (rx2 + IZR (2 * p) * h2)) / 2) (rx + r) in
  let c := rx - b in
  let temp := ts_temp st * (2 * rx * b / h2 / IZR p) in
  let error := temp * exp (- c * c / h2) in
  {| ts_error := error; ts_temp := temp; ts_p := p |}.

Fixpoint trunc_while (fuel : nat) (epsilon rx rx2 h2 r : R) (st : trunc_state)
  : option trunc_state :=
  match fuel with
  | O => None
  | S fuel' =>
      if trunc_guard epsilon st
      then trunc_while fuel' epsilon rx rx2 h2 r (trunc_body rx rx2 h2 r st)
      else Some st
  end.

(** The loop leaves once [p] passes the limit, so [limit + 2] tests of the
    guard are always enough. *)
Definition trunc_fuel : nat := Z.to_nat (TruncationNumberUpperLimit + 2).

Definition choose_truncation_number
    (dimensions : Z) (bandwidth epsilon rx : R) : option Z :=
  let r := Rmin (sqrt (IZR dimensions))
                (bandwidth * sqrt (ln (1 / epsilon))) in
  let rx2 := rx * rx in
  let h2 := bandwidth * bandwidth in
  option_map ts_p
    (trunc_while trunc_fuel epsilon rx rx2 h2 r
       {| ts_error := 1; ts_temp := 1; ts_p := 0 |}).

(** The error bound after [p] passes of the body, as the loop computes it. *)
Fixpoint trunc_after (n : nat) (rx rx2 h2 r : R) : trunc_state :=
  match n with
  | O => {| ts_error := 1; ts_temp := 1; ts_p := 0 |}
  | S n' => trunc_body rx rx2 h2 r (trunc_after n' rx rx2 h2 r)
  end.

Definition error_bound (dimensions : Z) (bandwidth epsilon rx : R) (p : nat) : R :=
  let r := Rmin (sqrt (IZR dimensions))
                (bandwidth * sqrt (ln (1 / epsilon))) in
  ts_error (trunc_after p rx (rx * rx) (bandwidth * bandwidth) r).

End TruncationSelector.

(** ** Matrices and squared distances *)

(** An [arma::rowvec]. *)
Abbreviation rowvec := (list Q).

(** An [arma::mat]: [n_cols] columns, every row of that length. *)
Record mat : Type := Mat {
  n_cols : N;
  rows : list rowvec
}.

Definition n_rows (m : mat) : N := N.of_nat (length (rows m)).

Definition mat_wf (m : mat) : Prop :=
  Forall (fun r => length r = N.to_nat (n_cols m)) (rows m)
  /\ (n_rows m < uword_modulus)%N.

(** [source.row(i)] *)
Definition row (m : mat) (i : N) : result rowvec := at_ (rows m) i.

(** [arma::accu] *)
Definition accu (v : list Q) : Q := fold_right Qplus 0%Q v.

(** [ddist(x, y) = arma::accu(arma::pow(x - y, 2))], lines 15-17. *)
Definition ddist (x y : rowvec) : Q :=
  accu (map (fun d => d * d)%Q (zip_with Qminus x y)).

(** [std::max_element]: the position of the first largest element. *)
Fixpoint max_element_from (best_i : N) (best : Q) (i : N) (l : list Q) : N :=
  match l with
  | [] => best_i
  | x :: l' =>
      if Qlt_le_dec best x
      then max_element_from i x (i + 1)%N l'
      else max_element_from best_i best (i + 1)%N l'
  end.

Definition max_element (l : list Q) : N :=
  match l with
  | [] => 0%N
  | x :: l' => max_element_from 0%N x 1%N l'
  end.

(** Allocation of [n] elements; Armadillo refuses sizes whose byte count
    does not fit a [size_t]. *)
Definition alloc {A} (n : N) (x : A) : result (list A) :=
  if (n <=? (uword_modulus - 1) / 8)%N then Ok (replicate (N.to_nat n) x)
  else Err BadAlloc.

(** ** The [Clustering] object *)

(** [D] is the type of the numbers kept in the radius fields: rationals
    (squared distances) while the pass runs, reals once line 176 has taken
    their square roots. *)
Record Clustering (D : Type) : Type := MkClustering {
  m_source : mat;
  m_indices : list N;
  m_centers : list rowvec;
  m_num_points : list N;
  m_radii : list D;
  m_rx : D;
  m_bandwidth : Q;
  m_epsilon : Q;
  m_p_max : N
}.
Arguments MkClustering {D}.
Arguments m_source {D}.
Arguments m_indices {D}.
Arguments m_centers {D}.
Arguments m_num_points {D}.
Arguments m_radii {D}.
Arguments m_rx {D}.
Arguments m_bandwidth {D}.
Arguments m_epsilon {D}.
Arguments m_p_max {D}.

(** [Clustering::Clustering], lines 21-36.  [m_radii(K)] is allocated
    without initial values; every slot is written before it is read, and the
    model fills it with zeros.  The cached constant series comes from a
    collaborator outside these sources and is left out of the record. *)
Definition Clustering_ctor (limit : Z) (source : mat) (K : Z)
    (bandwidth epsilon : Q) : result (Clustering Q) :=
  let k := uword_of_int K in
  indices ← alloc (n_rows source) 0%N;
  zero_row ← alloc (n_cols source) 0%Q;
  centers ← alloc k zero_row;
  num_points ← alloc k 0%N;
  radii ← alloc k 0%Q;
  p ← match choose_truncation_number limit (Z.of_N (n_cols source))
               (Q2R bandwidth) (Q2R epsilon) 0%R with
      | Some p => Ok p
      | None => Err OutOfFuel
      end;
  Ok {| m_source := source; m_indices := indices; m_centers := centers;
        m_num_points := num_points; m_radii := radii; m_rx := 0%Q;
        m_bandwidth := bandwidth; m_epsilon := epsilon;
        m_p_max := uword_of_int p |}.

(** ** The state of the Gonzalez pass (lines 94-174)

    The five local arrays of the constructor, and the two members the pass
    writes through [set_index] and [set_radius]. *)
Record gstate : Type := GState {
  centers : list N;
  cprev : list N;
  cnext : list N;
  far2c : list N;
  dist : list Q;
  index : list N;
  radius : list Q
}.

Definition with_centers (s : gstate) v := GState v (cprev s) (cnext s) (far2c s) (dist s) (index s) (radius s).
Definition with_cprev (s : gstate) v := GState (centers s) v (cnext s) (far2c s) (dist s) (index s) (radius s).
Definition with_cnext (s : gstate) v := GState (centers s) (cprev s) v (far2c s) (dist s) (index s) (radius s).
Definition with_far2c (s : gstate) v := GState (centers s) (cprev s) (cnext s) v (dist s) (index s) (radius s).
Definition with_dist (s : gstate) v := GState (centers s) (cprev s) (cnext s) (far2c s) v (index s) (radius s).
Definition with_index (s : gstate) v := GState (centers s) (cprev s) (cnext s) (far2c s) (dist s) v (radius s).
Definition with_radius (s : gstate) v := GState (centers s) (cprev s) (cnext s) (far2c s) (dist s) (index s) v.

(** [a(i) = x] on each array. *)
Definition set_center (i x : N) (s : gstate) : result gstate :=
  v ← put (centers s) i x; Ok (with_centers s v).
Definition set_cprev (i x : N) (s : gstate) : result gstate :=
  v ← put (cprev s) i x; Ok (with_cprev s v).
Definition set_cnext (i x : N) (s : gstate) : result gstate :=
  v ← put (cnext s) i x; Ok (with_cnext s v).
Definition set_far2c (i x : N) (s : gstate) : result gstate :=
  v ← put (far2c s) i x; Ok (with_far2c s v).
Definition set_dist (i : N) (x : Q) (s : gstate) : result gstate :=
  v ← put (dist s) i x; Ok (with_dist s v).

(** Modelled from the spec: the accessors [set_index], [get_index],
    [set_radius], [get_radius] and [get_radius_idxmax] are declared in
    clustering.hpp, outside these sources.  They read and write one element
    of [m_indices] and [m_radii]; [get_radius_idxmax(i)] is the cluster of
    maximal radius among the first [i], the first one on a tie. *)
Definition set_index (i x : N) (s : gstate) : result gstate :=
  v ← put (index s) i x; Ok (with_index s v).
Definition get_index (i : N) (s : gstate) : result N := at_ (index s) i.
Definition set_radius (i : N) (x : Q) (s : gstate) : result gstate :=
  v ← put (radius s) i x; Ok (with_radius s v).
Definition get_radius (i : N) (s : gstate) : result Q := at_ (radius s) i.
Definition get_radius_idxmax (i : N) (s : gstate) : result N :=
  if (i <=? N.of_nat (length (radius s)))%N
  then Ok (max_element (take (N.to_nat i) (radius s)))
  else Err IndexOutOfBounds.

(** Lines 110-114, one pass of the loop body. *)
Definition init_point (source : mat) (nc : N) (i : N) (s : gstate)
  : result gstate :=
  d ← (if (i =? nc)%N then Ok 0%Q
       else ri ← row source i; rnc ← row source nc; Ok (ddist ri rnc));
  s ← set_dist i d s;
  s ← set_cnext i (uword_add i 1) s;
  set_cprev i (uword_sub i 1) s.

(** Lines 124-135: the farthest point becomes the centre of cluster [i] and
    leaves the ring it was in. *)
Definition promote (i : N) (s : gstate) : result (N * gstate) :=
  jmax ← get_radius_idxmax i s;
  nc ← at_ (far2c s) jmax;
  s ← set_center i nc s;
  s ← set_radius i 0%Q s;
  s ← set_dist nc 0%Q s;
  s ← set_index nc i s;
  s ← set_far2c i nc s;
  p ← at_ (cprev s) nc;
  n ← at_ (cnext s) nc;
  s ← set_cnext p n s;
  n ← at_ (cnext s) nc;
  p ← at_ (cprev s) nc;
  s ← set_cprev n p s;
  s ← set_cnext nc nc s;
  s ← set_cprev nc nc s;
  Ok (nc, s).

(** Lines 162-165 and 166-169: [k] stays, and may be the new farthest. *)
Definition keep_point (j k : N) (dist2c_k : Q) (s : gstate) : result gstate :=
  rj ← get_radius j s;
  if Qlt_le_dec rj dist2c_k
  then s ← set_radius j dist2c_k s; set_far2c j k s
  else Ok s.

(** Lines 150-161: [k] moves to the head of the ring of the new centre. *)
Definition move_point (i nc k nextk : N) (dd : Q) (s : gstate) : result gstate :=
  s ← set_dist k dd s;
  s ← set_index k i s;
  ri ← get_radius i s;
  s ← (if Qlt_le_dec ri dd
       then s ← set_radius i dd s; set_far2c i k s
       else Ok s);
  p ← at_ (cprev s) k;
  s ← set_cnext p nextk s;
  p ← at_ (cprev s) k;
  s ← set_cprev nextk p s;
  n ← at_ (cnext s) nc;
  s ← set_cnext k n s;
  n ← at_ (cnext s) nc;
  s ← set_cprev n k s;
  s ← set_cnext nc k s;
  set_cprev k nc s.

(** Lines 145-170: the body of the [while] loop; returns [nextk]. *)
Definition walk_step (source : mat) (i j nc : N) (dc2cq : Q) (k : N)
    (s : gstate) : result (N * gstate) :=
  nextk ← at_ (cnext s) k;
  dist2c_k ← at_ (dist s) k;
  s ← (if Qlt_le_dec dc2cq dist2c_k
       then rk ← row source k;
            rnc ← row source nc;
            let dd := ddist rk rnc in
            if Qlt_le_dec dd dist2c_k
            then move_point i nc k nextk dd s
            else keep_point j k dist2c_k s
       else keep_point j k dist2c_k s);
  Ok (nextk, s).

(** Lines 144-171: [while (k != ct_j)]. *)
Fixpoint walk (fuel : nat) (source : mat) (i j nc ct_j : N) (dc2cq : Q)
    (k : N) (s : gstate) : result gstate :=
  if (k =? ct_j)%N then Ok s
  else match fuel with
       | O => Err OutOfFuel
       | S fuel' =>
           '(nextk, s) ← walk_step source i j nc dc2cq k s;
           walk fuel' source i j nc ct_j dc2cq nextk s
       end.

(** Lines 138-172: the body of the loop over the older clusters [j]. *)
Definition scan_cluster (fuel : nat) (source : mat) (i nc : N) (j : N)
    (s : gstate) : result gstate :=
  ct_j ← at_ (centers s) j;
  rc ← row source ct_j;
  rnc ← row source nc;
  let dc2cq := (ddist rc rnc / 4)%Q in
  rj ← get_radius j s;
  if Qlt_le_dec dc2cq rj
  then s ← set_radius j 0%Q s;
       s ← set_far2c j ct_j s;
       k ← at_ (cnext s) ct_j;
       walk fuel source i j nc ct_j dc2cq k s
  else Ok s.

(** Lines 124-173: the body of the loop over the new clusters [i]. *)
Definition iteration (fuel : nat) (source : mat) (i : N) (s : gstate)
  : result gstate :=
  '(nc, s) ← promote i s;
  for_N (N.to_nat i) 0%N (scan_cluster fuel source i nc) s.

(** Lines 94-174.  [starting_index] is the [optional_arma_uword_t] pair,
    [rd] the value drawn from [std::random_device] when it is absent.  A ring
    has at most [N] members, which bounds the [while] loop. *)
Definition gonzalez_pass (source : mat) (K : Z) (starting_index : bool * N)
    (rd : N) (indices : list N) (radii : list Q) : result gstate :=
  let N := n_rows source in
  let k := uword_of_int K in
  centers_ ← alloc k 0%N;
  cprev_ ← alloc N 0%N;
  cnext_ ← alloc N 0%N;
  far2c_ ← alloc k 0%N;
  dist_ ← alloc N 0%Q;
  nc ← (if starting_index.1 then Ok starting_index.2
        else if (N =? 0)%N then Err ModuloByZero else Ok (rd mod N)%N);
  let s := GState centers_ cprev_ cnext_ far2c_ dist_ indices radii in
  s ← set_center 0 nc s;
  s ← for_N (N.to_nat N) 0%N (init_point source nc) s;
  s ← set_cnext (uword_sub N 1) 0%N s;
  s ← set_cprev 0%N (uword_sub N 1) s;
  let nc := max_element (dist s) in
  s ← set_far2c 0 nc s;
  d ← at_ (dist s) nc;
  s ← set_radius 0 d s;
  for_N (Z.to_nat (K - 1)) 1%N (iteration (N.to_nat N) source) s.

(** ** Finalisation (lines 176-185) *)

(** Lines 181-182, for one point. *)
Definition count_point (source : mat) (g : gstate) (i : N)
    (acc : list N * list rowvec) : result (list N * list rowvec) :=
  k ← get_index i g;
  n ← at_ acc.1 k;
  num_points ← put acc.1 k (uword_add n 1);
  c ← at_ acc.2 k;
  r ← row source i;
  center_coordinates ← put acc.2 k (zip_with Qplus c r);
  Ok (num_points, center_coordinates).

(** The element-wise quotient of line 184.  A count of zero makes it [0/0],
    a NaN in the program; the rationals have no such value and [Qdiv] yields
    [0] there, which no statement below relies on. *)
Definition divide_rows (center_coordinates : list rowvec) (num_points : list N)
  : list rowvec :=
  zip_with (fun c n => map (fun x => x / inject_Z (Z.of_N n))%Q c)
           center_coordinates num_points.

(** Modelled from the spec: [get_max_radius], declared in clustering.hpp,
    is the largest entry of [m_radii]. *)
Definition get_max_radius (radii : list R) : R :=
  match radii with
  | [] => 0%R
  | x :: l => fold_left Rmax l x
  end.

Definition finalize (base : Clustering Q) (g : gstate)
  : result (Clustering R) :=
  let source := m_source base in
  let radii := map (fun q => sqrt (Q2R q)) (radius g) in
  '(num_points, center_coordinates) ←
     for_N (N.to_nat (n_rows source)) 0%N (count_point source g)
           (m_num_points base, m_centers base);
  Ok {| m_source := source; m_indices := index g;
        m_centers := divide_rows center_coordinates num_points;
        m_num_points := num_points;
        m_radii := radii; m_rx := get_max_radius radii;
        m_bandwidth := m_bandwidth base; m_epsilon := m_epsilon base;
        m_p_max := m_p_max base |}.

(** [GonzalezClustering::GonzalezClustering], lines 90-186. *)
Definition GonzalezClustering (limit : Z) (source : mat) (K : Z)
    (bandwidth epsilon : Q) (starting_index : bool * N) (rd : N)
  : result (Clustering R) :=
  base ← Clustering_ctor limit source K bandwidth epsilon;
  g ← gonzalez_pass source K starting_index rd (m_indices base) (m_radii base);
  finalize base g.

(** ** Coefficient aggregation (lines 61-83) *)

Section Coefficients.

(** The collaborators of monomials.hpp, constant_series.hpp and
    p_max_total.hpp, none of which is among the sources. *)
Variable compute_monomials : list R -> N -> list R.
Variable compute_constant_series : N -> N -> list R.
Variable get_p_max_total : N -> N -> N.

Context {D : Type}.

(** Element-wise operations of Armadillo check that the sizes agree. *)
Definition vec_add (x y : list R) : result (list R) :=
  if (length x =? length y)%nat then Ok (zip_with Rplus x y)
  else Err SizeMismatch.

Definition vec_schur (x y : list R) : result (list R) :=
  if (length x =? length y)%nat then Ok (zip_with Rmult x y)
  else Err SizeMismatch.

Definition vec_sub (x y : rowvec) : result rowvec :=
  if (length x =? length y)%nat then Ok (zip_with Qminus x y)
  else Err SizeMismatch.

(** [f * center_monomials] of lines 68-73 for the point [i] seen from the
    centre [center]. *)
Definition weighted_monomials (c : Clustering D) (q_i : Q) (dx : rowvec)
  : list R :=
  let h := Q2R (m_bandwidth c) in
  let h2 := (h * h)%R in
  let dxr := map Q2R dx in
  let distance2 := fold_right Rplus 0%R (map (fun d => d * d)%R dxr) in
  let center_monomials :=
    compute_monomials (map (fun x => x / h)%R dxr) (m_p_max c) in
  let f := (Q2R q_i * exp (- distance2 / h2))%R in
  map (fun m => f * m)%R center_monomials.

(** Lines 66-74, one pass of the loop body. *)
Definition accumulate_point (c : Clustering D) (q : list Q) (i : N)
    (C : list (list R)) : result (list (list R)) :=
  k ← at_ (m_indices c) i;
  ri ← row (m_source c) i;
  ck ← at_ (m_centers c) k;
  dx ← vec_sub ri ck;
  q_i ← at_ q i;
  Ck ← at_ C k;
  Ck' ← vec_add Ck (weighted_monomials c q_i dx);
  put C k Ck'.

(** Lines 78-80, one pass of the loop body. *)
Definition scale_row (constant_series : list R) (i : N) (C : list (list R))
  : result (list (list R)) :=
  Ci ← at_ C i;
  Ci' ← vec_schur Ci constant_series;
  put C i Ci'.

Definition compute_C (c : Clustering D) (q : list Q)
  : result (list (list R)) :=
  let d := n_cols (m_source c) in
  let K := N.of_nat (length (m_centers c)) in
  zero_row ← alloc (get_p_max_total d (m_p_max c)) 0%R;
  C ← alloc K zero_row;
  C ← for_N (N.to_nat (n_rows (m_source c))) 0%N (accumulate_point c q) C;
  let constant_series := compute_constant_series d (m_p_max c) in
  for_N (length C) 0%N (scale_row constant_series) C.

(** What the claim about [compute_C] says, written as a sum: the terms of
    the points assigned to cluster [k], added up in the order of the
    points, starting from the zero row. *)
Definition point_term (c : Clustering D) (q : list Q) (k : N) (i : nat)
  : list R :=
  let ri := default [] (rows (m_source c) !! i) in
  let ck := default [] (m_centers c !! N.to_nat k) in
  weighted_monomials c (default 0%Q (q !! i)) (zip_with Qminus ri ck).

Definition members (c : Clustering D) (k : N) : list nat :=
  filter (fun i => m_indices c !! i = Some k)
         (seq 0 (length (rows (m_source c)))).

Definition cluster_sum (c : Clustering D) (q : list Q) (k : N) : list R :=
  fold_left (zip_with Rplus) (map (point_term c q k) (members c k))
    (replicate (N.to_nat (get_p_max_total (n_cols (m_source c)) (m_p_max c)))
               0%R).

(** The sum of [cluster_sum] over the first [m] points only. *)
Definition sum_upto (c : Clustering D) (q : list Q) (m : nat) (k : N) : list R :=
  fold_left (zip_with Rplus)
    (map (point_term c q k)
         (filter (fun i => m_indices c !! i = Some k) (seq 0 m)))
    (replicate (N.to_nat (get_p_max_total (n_cols (m_source c)) (m_p_max c)))
               0%R).

(** The accumulation loop: after [m] points, row [k] holds the sum of the
    terms of the points of cluster [k] among them. *)
Definition accumulated (c : Clustering D) (q : list Q) (m : nat)
    (C : list (list R)) : Prop :=
  length C = length (m_centers c) /\
  forall k, (k < length (m_centers c))%nat ->
    C !! k = Some (sum_upto c q m (N.of_nat k)).

(** The scaling loop: after [m] rows, those rows are scaled. *)
Definition scaled (c : Clustering D) (q : list Q) (m : nat)
    (C : list (list R)) : Prop :=
  length C = length (m_centers c) /\
  forall k, (k < length (m_centers c))%nat ->
    C !! k = Some (if decide (k < m)%nat
                   then zip_with Rmult
                          (sum_upto c q (length (rows (m_source c))) (N.of_nat k))
                          (compute_constant_series (n_cols (m_source c)) (m_p_max c))
                   else sum_upto c q (length (rows (m_source c))) (N.of_nat k)).

End Coefficients.

(** ** The coefficient matrix as the claim words it

    Written on the reals and without the loop of [compute_C]: the offset of
    a point from a centre, its squared norm, the Gaussian weight times the
    monomials of the scaled offset, and the sum of these over the points of
    a cluster, multiplied entry by entry with the constant series. *)

Definition offset {D} (c : Clustering D) (k : N) (i : nat) : list R :=
  zip_with Rminus (map Q2R (default [] (rows (m_source c) !! i)))
                  (map Q2R (default [] (m_centers c !! N.to_nat k))).

Definition norm2 (x : list R) : R := fold_right Rplus 0%R (map Rsqr x).

Definition vector_sum (M : nat) (terms : list (list R)) : list R :=
  fold_right (zip_with Rplus) (replicate M 0%R) terms.

Section ClaimedCoefficients.

Variable compute_monomials : list R -> N -> list R.
Variable compute_constant_series : N -> N -> list R.
Variable get_p_max_total : N -> N -> N.

Context {D : Type}.

Definition gaussian_term (c : Clustering D) (q : list Q) (k : N) (i : nat)
  : list R :=
  let h := Q2R (m_bandwidth c) in
  let weight :=
    (Q2R (default 0%Q (q !! i)) * exp (- norm2 (offset c k i) / h ^ 2))%R in
  map (Rmult weight)
      (compute_monomials (map (fun x => x / h)%R (offset c k i)) (m_p_max c)).

Definition claimed_row (c : Clustering D) (q : list Q) (k : N) : list R :=
  let M := N.to_nat (get_p_max_total (n_cols (m_source c)) (m_p_max c)) in
  zip_with Rmult
    (vector_sum M (map (gaussian_term c q k) (members c k)))
    (compute_constant_series (n_cols (m_source c)) (m_p_max c)).

End ClaimedCoefficients.

(** A small object for the examples: three points on a line, two clusters. *)
Definition example_clustering : Clustering Q :=
  {| m_source := Mat 1 [[0]; [2]; [7]]%Q;
     m_indices := [0; 0; 1]%N;
     m_centers := [[1]; [7]]%Q;
     m_num_points := [2; 1]%N;
     m_radii := [4; 0]%Q;
     m_rx := 4%Q;
     m_bandwidth := 1%Q;
     m_epsilon := (1 # 10)%Q;
     m_p_max := 1%N |}.

(** ** Brute-force farthest-point clustering

    The reference of the cross-check: no rings, no pruning; every distance
    from every point to every chosen centre is computed afresh. *)

Definition points (source : mat) : list N :=
  map N.of_nat (seq 0 (length (rows source))).

Definition point (source : mat) (p : N) : rowvec :=
  default [] (rows source !! N.to_nat p).

(** The position of the first smallest element. *)
Fixpoint min_element_from (best_i : N) (best : Q) (i : N) (l : list Q) : N :=
  match l with
  | [] => best_i
  | x :: l' =>
      if Qlt_le_dec x best
      then min_element_from i x (i + 1)%N l'
      else min_element_from best_i best (i + 1)%N l'
  end.

Definition min_element (l : list Q) : N :=
  match l with
  | [] => 0%N
  | x :: l' => min_element_from 0%N x 1%N l'
  end.

(** The position of the last largest element. *)
Fixpoint max_element_last_from (best_i : N) (best : Q) (i : N) (l : list Q) : N :=
  match l with
  | [] => best_i
  | x :: l' =>
      if Qlt_le_dec x best
      then max_element_last_from best_i best (i + 1)%N l'
      else max_element_last_from i x (i + 1)%N l'
  end.

Definition max_element_last (l : list Q) : N :=
  match l with
  | [] => 0%N
  | x :: l' => max_element_last_from 0%N x 1%N l'
  end.

(** Squared distances from [p] to each chosen centre, in the order chosen. *)
Definition dists_to (source : mat) (cs : list N) (p : N) : list Q :=
  map (fun c => ddist (point source p) (point source c)) cs.

(** The cluster of [p]: the nearest centre, the earliest one on a tie. *)
Definition bf_assign (source : mat) (cs : list N) (p : N) : N :=
  min_element (dists_to source cs p).

(** Squared distance from [p] to its nearest centre. *)
Definition bf_dist (source : mat) (cs : list N) (p : N) : Q :=
  default 0%Q (dists_to source cs p !! N.to_nat (bf_assign source cs p)).

(** The farthest point from the chosen centres; [last] selects which one of
    several equally far points is taken. *)
Definition bf_next (last : bool) (source : mat) (cs : list N) : N :=
  let ds := map (bf_dist source cs) (points source) in
  if last then max_element_last ds else max_element ds.

Fixpoint bf_centers (last : bool) (source : mat) (n : nat) (cs : list N)
  : list N :=
  match n with
  | O => cs
  | S n' => bf_centers last source n' (cs ++ [bf_next last source cs])
  end.

Definition brute_force (last : bool) (source : mat) (K : Z) (start : N)
  : list N :=
  let cs := bf_centers last source (Z.to_nat (K - 1)) [start] in
  map (bf_assign source cs) (points source).

(** At each of the [n] selections exactly one point is farthest. *)
Definition farthest_unique (source : mat) (cs : list N) : Prop :=
  let far := bf_next false source cs in
  Forall (fun p => p <> far ->
                   (bf_dist source cs p < bf_dist source cs far)%Q)
         (points source).

Fixpoint farthest_unique_for (source : mat) (n : nat) (cs : list N) : Prop :=
  match n with
  | O => True
  | S n' =>
      farthest_unique source cs
      /\ farthest_unique_for source n' (cs ++ [bf_next false source cs])
  end.

(** ** Reading the state of the pass

    Total readers for the statements about the pass; inside the arrays they
    agree with the checked access [at_]. *)

Definition sel {A} (d : A) (v : list A) (k : N) : A :=
  default d (v !! N.to_nat k).

Definition ctr (s : gstate) (j : N) : N := sel 0%N (centers s) j.
Definition prv (s : gstate) (k : N) : N := sel 0%N (cprev s) k.
Definition nxt (s : gstate) (k : N) : N := sel 0%N (cnext s) k.
Definition far (s : gstate) (j : N) : N := sel 0%N (far2c s) j.
Definition dst (s : gstate) (k : N) : Q := sel 0%Q (dist s) k.
Definition idx (s : gstate) (k : N) : N := sel 0%N (index s) k.
Definition rad (s : gstate) (j : N) : Q := sel 0%Q (radius s) j.

(** The links of a doubly linked list: [a], then the elements of [l], then
    [b], each the [cnext] of the one before and the [cprev] of the one
    after.  A ring with head [c] and members [l] is [chain c l c]. *)
Fixpoint chain (nx pv : list N) (a : N) (l : list N) (b : N) : Prop :=
  match l with
  | [] => sel 0%N nx a = b /\ sel 0%N pv b = a
  | x :: l' => sel 0%N nx a = x /\ sel 0%N pv x = a /\ chain nx pv x l' b
  end.

(** Every element of [l] indexes an array of [n] entries. *)
Definition all_below (n : nat) (l : list N) : Prop :=
  Forall (fun u => (N.to_nat u < n)%nat) l.

(** ** The steps of the pass as functions on the state

    What [promote], [keep_point], [move_point] and [walk_step] leave in the
    state when none of their accesses is out of bounds. *)

Definition promote_state (i nc : N) (s : gstate) : gstate :=
  let p := prv s nc in
  let q := nxt s nc in
  GState (<[N.to_nat i := nc]> (centers s))
         (<[N.to_nat nc := nc]> (<[N.to_nat q := p]> (cprev s)))
         (<[N.to_nat nc := nc]> (<[N.to_nat p := q]> (cnext s)))
         (<[N.to_nat i := nc]> (far2c s))
         (<[N.to_nat nc := 0%Q]> (dist s))
         (<[N.to_nat nc := i]> (index s))
         (<[N.to_nat i := 0%Q]> (radius s)).

(** Lines 141-142: the radius of cluster [j] is computed afresh. *)
Definition reset_state (j ct_j : N) (s : gstate) : gstate :=
  GState (centers s) (cprev s) (cnext s)
         (<[N.to_nat j := ct_j]> (far2c s)) (dist s) (index s)
         (<[N.to_nat j := 0%Q]> (radius s)).

Definition keep_state (j k : N) (s : gstate) : gstate :=
  if Qlt_le_dec (rad s j) (dst s k)
  then GState (centers s) (cprev s) (cnext s)
              (<[N.to_nat j := k]> (far2c s)) (dist s) (index s)
              (<[N.to_nat j := dst s k]> (radius s))
  else s.

Definition move_state (i nc k : N) (dd : Q) (s : gstate) : gstate :=
  let nextk := nxt s k in
  let p := prv s k in
  let cn1 := <[N.to_nat p := nextk]> (cnext s) in
  let cp1 := <[N.to_nat nextk := p]> (cprev s) in
  let h := sel 0%N cn1 nc in
  let cn2 := <[N.to_nat k := h]> cn1 in
  let cp2 := <[N.to_nat (sel 0%N cn2 nc) := k]> cp1 in
  let far_rad :=
    if Qlt_le_dec (rad s i) dd
    then (<[N.to_nat i := k]> (far2c s), <[N.to_nat i := dd]> (radius s))
    else (far2c s, radius s) in
  GState (centers s)
         (<[N.to_nat k := nc]> cp2)
         (<[N.to_nat nc := k]> cn2)
         far_rad.1
         (<[N.to_nat k := dd]> (dist s))
         (<[N.to_nat k := i]> (index s))
         far_rad.2.

Definition step_state (source : mat) (i j nc : N) (dc2cq : Q) (k : N)
    (s : gstate) : gstate :=
  if Qlt_le_dec dc2cq (dst s k)
  then let dd := ddist (point source k) (point source nc) in
       if Qlt_le_dec dd (dst s k)
       then move_state i nc k dd s
       else keep_state j k s
  else keep_state j k s.

(** ** Invariants of the pass *)

Section PassInvariants.

Variable source : mat.
Variable K : nat.

(** [k] is the index of a point. *)
Definition in_range (k : N) : Prop := (N.to_nat k < length (rows source))%nat.

Definition sqdist (k c : N) : Q := ddist (point source k) (point source c).

Definition lengths_ok (s : gstate) : Prop :=
  length (centers s) = K /\ length (far2c s) = K /\ length (radius s) = K
  /\ length (cprev s) = length (rows source)
  /\ length (cnext s) = length (rows source)
  /\ length (dist s) = length (rows source)
  /\ length (index s) = length (rows source).

(** Every index kept in the arrays is in range; [i] clusters exist. *)
Definition weak (i : N) (s : gstate) : Prop :=
  lengths_ok s /\ (N.to_nat i <= K)%nat
  /\ (forall j, (j < i)%N -> in_range (ctr s j) /\ in_range (far s j))
  /\ (forall k, in_range k ->
        in_range (nxt s k) /\ in_range (prv s k) /\ (idx s k < i)%N).

(** No cluster has a point away from its centre: nothing is left to split. *)
Definition flat (i : N) (s : gstate) : Prop :=
  forall j, (j < i)%N -> (rad s j <= 0)%Q.

(** The ring of the centre [c] holds exactly the points of cluster [j]. *)
Definition ring_of (s : gstate) (j c : N) (l : list N) : Prop :=
  chain (cnext s) (cprev s) c l c /\ NoDup (c :: l)
  /\ forall k, k ∈ c :: l <-> in_range k /\ idx s k = j.

(** [dist] is the squared distance to the centre of the own cluster. *)
Definition dist_ok (s : gstate) : Prop :=
  forall k, in_range k -> (dst s k == sqdist k (ctr s (idx s k)))%Q.

(** Among the first [i] centres the own one is nearest, and the earliest
    such. *)
Definition nearest (i : N) (s : gstate) : Prop :=
  forall k j, in_range k -> (j < i)%N ->
    (dst s k <= sqdist k (ctr s j))%Q
    /\ ((j < idx s k)%N -> (dst s k < sqdist k (ctr s j))%Q).

Definition radius_bounds (s : gstate) (j : N) : Prop :=
  forall k, in_range k -> idx s k = j -> (dst s k <= rad s j)%Q.

(** [radius(j)] is the largest [dist] in cluster [j], attained at
    [far2c(j)]. *)
Definition radius_ok (s : gstate) (j : N) : Prop :=
  idx s (far s j) = j /\ in_range (far s j)
  /\ (dst s (far s j) == rad s j)%Q /\ radius_bounds s j.

Definition strong (i : N) (s : gstate) : Prop :=
  dist_ok s /\ nearest i s
  /\ (forall j, (j < i)%N -> idx s (ctr s j) = j)
  /\ (forall j, (j < i)%N -> exists l, ring_of s j (ctr s j) l)
  /\ (forall j, (j < i)%N -> radius_ok s j).

(** Between two passes of the loop over [j], in the pass of the outer loop
    that creates cluster [i] around [nc]: the clusters before [j] are
    settled, those from [j] on are as [promote] left them. *)
Definition radius_pending (nc : N) (s : gstate) (j : N) : Prop :=
  radius_bounds s j
  /\ (radius_ok s j \/ (sqdist (ctr s j) nc / 4 < rad s j)%Q).

Definition mid (i nc j : N) (s : gstate) : Prop :=
  weak (i + 1) s /\ dist_ok s /\ nearest i s
  /\ ctr s i = nc
  /\ (forall j', (j' <= i)%N -> idx s (ctr s j') = j')
  /\ (forall k, in_range k -> (idx s k < j)%N -> (dst s k <= sqdist k nc)%Q)
  /\ (forall j', (j' <= i)%N -> j' <> j \/ j' = i ->
        exists l, ring_of s j' (ctr s j') l)
  /\ (forall j', (j' < j)%N \/ j' = i -> radius_ok s j')
  /\ (forall j', (j < j' < i)%N -> radius_pending nc s j').

Definition between (i nc j : N) (s : gstate) : Prop :=
  mid i nc j s
  /\ ((j < i)%N ->
      (exists l, ring_of s j (ctr s j) l) /\ radius_pending nc s j).

(** Inside the [while] loop over the ring of cluster [j]: [kept] are the
    members seen that stay, [todo] those still to come. *)
Definition walking (i nc j : N) (kept todo : list N) (s : gstate) : Prop :=
  mid i nc j s /\ (j < i)%N
  /\ ring_of s j (ctr s j) (kept ++ todo)
  /\ (forall k, k ∈ ctr s j :: kept -> (dst s k <= sqdist k nc)%Q)
  /\ far s j ∈ ctr s j :: kept
  /\ (dst s (far s j) == rad s j)%Q
  /\ (forall k, k ∈ ctr s j :: kept -> (dst s k <= rad s j)%Q).

(** The invariant of the outer loop. *)
Definition pass_inv (i : N) (s : gstate) : Prop :=
  weak i s /\ (strong i s \/ flat i s).

End PassInvariants.

(** ** Inputs of the constructor *)

(** The first centre: the given index, or the random draw. *)
Definition first_center (source : mat) (starting_index : bool * N) (rd : N)
  : N :=
  if starting_index.1 then starting_index.2 else (rd mod n_rows source)%N.

(** What the specification calls a valid input: a well-formed matrix whose
    arrays can be allocated, [1 <= K <= N], and a starting index, when one
    is given, that is the index of a point. *)
Definition valid_input (source : mat) (K : Z) (starting_index : bool * N)
  : Prop :=
  mat_wf source /\ (n_rows source < 2 ^ 61)%N /\ (n_cols source < 2 ^ 61)%N
  /\ (1 <= K <= Z.of_N (n_rows source))%Z
  /\ (starting_index.1 = true -> (starting_index.2 < n_rows source)%N).

(** The inputs on which the constructor runs to its end: as [valid_input],
    but [K] may exceed the number of points. *)
Definition runnable_input (source : mat) (K : Z) (starting_index : bool * N)
  : Prop :=
  mat_wf source /\ (n_rows source < 2 ^ 61)%N /\ (n_cols source < 2 ^ 61)%N
  /\ (1 <= K < 2 ^ 61 /\ 0 < Z.of_N (n_rows source))%Z
  /\ (starting_index.1 = true -> (starting_index.2 < n_rows source)%N).

(** The state when the loop over [i] begins (line 123): one cluster around
    [nc0], all points on its ring in the order of their indices. *)
Definition initial (source : mat) (K : nat) (nc0 : N) (s : gstate) : Prop :=
  let n := n_rows source in
  lengths_ok source K s
  /\ centers s = <[0%nat := nc0]> (replicate K 0%N)
  /\ index s = replicate (N.to_nat n) 0%N
  /\ (forall k, (k < n)%N ->
        dst s k = (if (k =? nc0)%N then 0%Q else sqdist source k nc0)
        /\ nxt s k = (if decide (k = n - 1)%N then 0%N else k + 1)%N
        /\ prv s k = (if decide (k = 0)%N then n - 1 else k - 1)%N)
  /\ far s 0 = max_element (dist s)
  /\ rad s 0 = dst s (max_element (dist s)).

(** ** The finished object, as the claims describe it *)

(** The points among the first [m] that are assigned to cluster [k], in the
    order of the points. *)
Definition assigned (indices : list N) (m : nat) (k : N) : list nat :=
  filter (fun i => indices !! i = Some k) (seq 0 m).

(** The coordinate-wise sum of those points, added up from the zero row. *)
Definition coordinate_sum (source : mat) (indices : list N) (m : nat) (k : N)
  : rowvec :=
  fold_left (zip_with Qplus)
    (map (fun i => point source (N.of_nat i)) (assigned indices m k))
    (replicate (N.to_nat (n_cols source)) 0%Q).

(** The arithmetic mean of the points assigned to cluster [k]. *)
Definition centroid (source : mat) (indices : list N) (k : N) : rowvec :=
  let n := length (rows source) in
  map (fun x => x / inject_Z (Z.of_nat (length (assigned indices n k))))%Q
      (coordinate_sum source indices n k).

(** The arithmetic mean of all points. *)
Definition mean_point (source : mat) : rowvec :=
  map (fun x => x / inject_Z (Z.of_nat (length (rows source))))%Q
      (fold_left (zip_with Qplus) (rows source)
                 (replicate (N.to_nat (n_cols source)) 0%Q)).

(** The sum of the per-cluster counts. *)
Definition total (counts : list N) : N := fold_right N.add 0%N counts.

(** The loop of lines 180-183 after [m] points: cluster [k] has counted its
    points among them and added up their coordinates. *)
Definition counted (source : mat) (K : nat) (indices : list N) (m : nat)
    (acc : list N * list rowvec) : Prop :=
  length acc.1 = K /\ length acc.2 = K
  /\ total acc.1 = N.of_nat m
  /\ forall k, (k < K)%nat ->
       acc.1 !! k = Some (N.of_nat (length (assigned indices m (N.of_nat k))))
       /\ acc.2 !! k = Some (coordinate_sum source indices m (N.of_nat k)).

(** The invariant of the outer loop for the comparison with brute force:
    the centres chosen so far are those brute force chooses from [start],
    and a single point is farthest at each selection still to come. *)
Definition chosen_as_brute_force (source : mat) (K : nat) (start : N)
    (m : nat) (s : gstate) : Prop :=
  weak source K (N.of_nat m) s /\ strong source (N.of_nat m) s
  /\ bf_centers false source (K - m) (take m (centers s))
     = bf_centers false source (K - 1) [start]
  /\ farthest_unique_for source (K - m) (take m (centers s)).

(** ** The pass without pruning

    The body of the [while] loop as it would be without the test
    [dc2cq < dist2c_k] of line 147: the distance to the new centre is
    computed for every point of the ring. *)
Definition walk_step_unpruned (source : mat) (i j nc : N) (k : N)
    (s : gstate) : result (N * gstate) :=
  nextk ← at_ (cnext s) k;
  dist2c_k ← at_ (dist s) k;
  rk ← row source k;
  rnc ← row source nc;
  let dd := ddist rk rnc in
  s ← (if Qlt_le_dec dd dist2c_k
       then move_point i nc k nextk dd s
       else keep_point j k dist2c_k s);
  Ok (nextk, s).

(** ** Inputs with enough different points *)

(** [l] lists points of the input no two of which coincide. *)
Definition separated (source : mat) (l : list N) : Prop :=
  NoDup l /\ (forall a, a ∈ l -> in_range source a)
  /\ forall a b, a ∈ l -> b ∈ l -> a <> b -> (0 < sqdist source a b)%Q.

(** Farthest-first order: each of the centres [1 .. m-1] of [cs] is, among
    all points, one of those farthest from the centres before it. *)
Definition farthest_first (source : mat) (m : nat) (cs : list N) : Prop :=
  forall i, (1 <= i < m)%nat ->
    forall k, in_range source k ->
      (bf_dist source (take i cs) k
       <= bf_dist source (take i cs) (sel 0%N cs (N.of_nat i)))%Q.

(** The invariant of the outer loop on such inputs. *)
Definition regular (source : mat) (K : nat) (nc0 : N) (m : nat) (s : gstate)
  : Prop :=
  weak source K (N.of_nat m) s /\ strong source (N.of_nat m) s
  /\ ctr s 0 = nc0 /\ farthest_first source m (centers s).

(** ** Inputs on which the arithmetic of the pass is exact

    The pass is embedded over the rationals; the program computes in
    binary64, where a square can round, underflow or overflow, and where the
    comparisons of lines 140, 147 and 149 can then come out differently.  On
    an input whose coordinates are integers of absolute value at most [B]
    with [d * (2 B)^2 <= 2^53], every difference, square, partial sum and
    quarter the pass forms is a multiple of 1/4 below [2^53] in absolute
    value, hence a binary64 number, and the program's arithmetic is the
    arithmetic of the rationals.  The statements whose conclusion depends on
    the outcome of such a comparison are made for these inputs. *)
Definition exact_coordinate (B : Z) (x : Q) : Prop :=
  Qden x = 1%positive /\ (Z.abs (Qnum x) <= B)%Z.

Definition exact_input (source : mat) : Prop :=
  exists B : Z,
    (Z.of_N (n_cols source) * (4 * B * B) <= 2 ^ 53)%Z
    /\ Forall (Forall (exact_coordinate B)) (rows source).

(** ** Binary64, for comparison

    Lines 139, 147 and 149 on rows of one column, in the
    program's own arithmetic: Rocq's primitive floats are the binary64
    numbers of a C++ [double], with the same rounding to nearest. *)
Module Binary64.
Import PrimFloat.

(** Lines 15-17 on one coordinate: [accu(pow(x - y, 2))]. *)
Definition ddist (x y : float) : float := ((x - y) * (x - y))%float.

(** Line 139, [dc2cq], for the centre [c] and the new centre [nc]. *)
Definition dc2cq (c nc : float) : float := (ddist c nc / 4)%float.

(** Line 147: the point [k] of the ring of [c] is examined. *)
Definition examined (c nc k : float) : bool :=
  (dc2cq c nc <? ddist k c)%float.

(** Line 149: the point [k] is nearer to [nc] than to [c]. *)
Definition nearer (c nc k : float) : bool :=
  (ddist k nc <? ddist k c)%float.

(** The doubles nearest to 0.56, -0.3, 0.13 and 1e-200. *)
Definition p056 : float := 0x1.1eb851eb851ecp-1%float.
Definition m03 : float := (-0x1.3333333333333p-2)%float.
Definition p013 : float := 0x1.0a3d70a3d70a4p-3%float.
Definition tiny : float := 0x1.87e92154ef7acp-665%float.

End Binary64.

(** * Properties *)

(** ** The truncation number *)

Section TruncationFacts.

Variable limit : Z.
Hypothesis limit_nonneg : (0 <= limit)%Z.

Local Open Scope R_scope.

Lemma trunc_guard_true epsilon st :
  trunc_guard limit epsilon st = true <->
  ts_error st > epsilon /\ (ts_p st <= limit)%Z.
Proof.
  unfold trunc_guard. destruct (Rgt_dec (ts_error st) epsilon) as [Hgt | Hgt];
    cbn [andb]; rewrite ?Z.leb_le; intuition (try discriminate; auto).
Qed.

Lemma trunc_guard_false epsilon st :
  trunc_guard limit epsilon st = false <->
  ts_error st <= epsilon \/ (limit < ts_p st)%Z.
Proof.
  destruct (trunc_guard limit epsilon st) eqn:Hg.
  - apply trunc_guard_true in Hg as [He Hp]. split; [discriminate |].
    intros [H | H]; [rlra | lia].
  - split; [intros _ | reflexivity].
    destruct (Rle_dec (ts_error st) epsilon) as [Hle | Hle]; [by left | right].
    destruct (Z_lt_le_dec limit (ts_p st)) as [Hlt | Hlt]; [done |].
    assert (trunc_guard limit epsilon st = true) as E
      by (apply trunc_guard_true; split; [rlra | lia]).
    congruence.
Qed.

Lemma trunc_after_p n rx rx2 h2 r :
  ts_p (trunc_after n rx rx2 h2 r) = Z.of_nat n.
Proof. induction n as [| n IH]; cbn; [done | rewrite IH; lia]. Qed.

(** The loop started after [n] passes stops after some [m] passes, the
    first count at which the guard fails; [g] bounds what is left. *)
Lemma trunc_while_runs epsilon rx rx2 h2 r g : forall n fuel,
  (Z.of_nat n + Z.of_nat g = limit + 1)%Z ->
  (g < fuel)%nat ->
  exists m, (n <= m <= n + g)%nat
    /\ trunc_while limit fuel epsilon rx rx2 h2 r (trunc_after n rx rx2 h2 r)
       = Some (trunc_after m rx rx2 h2 r)
    /\ trunc_guard limit epsilon (trunc_after m rx rx2 h2 r) = false
    /\ forall k, (n <= k < m)%nat ->
         trunc_guard limit epsilon (trunc_after k rx rx2 h2 r) = true.
Proof.
  induction g as [| g IH]; intros n fuel Hn Hfuel.
  - exists n. destruct fuel as [| fuel]; [lia |].
    assert (trunc_guard limit epsilon (trunc_after n rx rx2 h2 r) = false) as Hg.
    { apply trunc_guard_false. right. rewrite trunc_after_p. lia. }
    cbn [trunc_while]. rewrite Hg.
    split; [lia |]. split; [done |]. split; [done | intros; lia].
  - destruct fuel as [| fuel]; [lia |]. cbn [trunc_while].
    destruct (trunc_guard limit epsilon (trunc_after n rx rx2 h2 r)) eqn:Hg.
    + destruct (IH (S n) fuel) as (m & Hm & Hrun & Hstop & Hbefore); [lia | lia |].
      exists m. split; [lia |]. split; [exact Hrun |]. split; [exact Hstop |].
      intros k Hk. destruct (decide (k = n)) as [-> | Hne]; [done |].
      apply Hbefore. lia.
    + exists n. split; [lia |]. split; [done |]. split; [done | intros; lia].
Qed.

(** [choose_truncation_number] always returns: the first count of passes at
    which the guard of the loop fails, never more than [limit + 1]. *)
Lemma choose_truncation_number_spec dimensions bandwidth epsilon rx :
  exists m : nat,
    choose_truncation_number limit dimensions bandwidth epsilon rx
      = Some (Z.of_nat m)
    /\ (Z.of_nat m <= limit + 1)%Z
    /\ (error_bound dimensions bandwidth epsilon rx m <= epsilon
        \/ Z.of_nat m = (limit + 1)%Z)
    /\ forall k, (k < m)%nat ->
         error_bound dimensions bandwidth epsilon rx k > epsilon.
Proof.
  unfold choose_truncation_number, error_bound.
  set (r := Rmin _ _).
  destruct (trunc_while_runs epsilon rx (rx * rx) (bandwidth * bandwidth) r
              (Z.to_nat (limit + 1)) 0 (trunc_fuel limit))
    as (m & Hm & Hrun & Hstop & Hbefore); [lia | unfold trunc_fuel; lia |].
  exists m. cbn [trunc_after] in Hrun. rewrite Hrun. cbn [option_map].
  rewrite trunc_after_p. split; [done |]. split; [lia |]. split.
  - apply trunc_guard_false in Hstop as [H | H]; [by left | right].
    rewrite trunc_after_p in H. lia.
  - intros k Hk. specialize (Hbefore k ltac:(lia)).
    by apply trunc_guard_true in Hbefore as [H _].
Qed.

Lemma error_bound_0 dimensions bandwidth epsilon rx :
  error_bound dimensions bandwidth epsilon rx 0 = 1.
Proof. reflexivity. Qed.

(** With a radius estimate of zero the running product vanishes in the
    first pass. *)
Lemma error_bound_rx0 dimensions bandwidth epsilon :
  error_bound dimensions bandwidth epsilon 0 1 = 0.
Proof.
  unfold error_bound. cbn [trunc_after trunc_body ts_error ts_temp ts_p].
  unfold Rdiv. rewrite !Rmult_0_r, !Rmult_0_l, Rmult_0_r. apply Rmult_0_l.
Qed.

End TruncationFacts.

(** *** The first pass with a zero radius estimate *)

Lemma choose_truncation_number_rx0 limit dimensions bandwidth epsilon :
  (0 <= limit)%Z -> (0 < epsilon < 1)%R ->
  choose_truncation_number limit dimensions bandwidth epsilon 0 = Some 1%Z.
Proof.
  intros Hlimit Heps.
  destruct (choose_truncation_number_spec limit Hlimit dimensions bandwidth epsilon 0)
    as (m & Hrun & Hle & Hstop & Hbefore).
  rewrite Hrun. do 2 f_equal.
  destruct m as [| [| m]]; [| done |].
  - rewrite error_bound_0 in Hstop. destruct Hstop as [H | H]; [rlra | lia].
  - specialize (Hbefore 1%nat ltac:(lia)). rewrite error_bound_rx0 in Hbefore. rlra.
Qed.

(** *** When the loop is never entered *)

Lemma choose_truncation_number_zero limit dimensions bandwidth epsilon rx :
  (0 <= limit)%Z ->
  choose_truncation_number limit dimensions bandwidth epsilon rx = Some 0%Z
  <-> (1 <= epsilon)%R.
Proof.
  intros Hlimit.
  destruct (choose_truncation_number_spec limit Hlimit dimensions bandwidth epsilon rx)
    as (m & Hrun & Hle & Hstop & Hbefore).
  rewrite Hrun. split.
  - intros [= Hm]. assert (m = 0%nat) as -> by lia.
    rewrite error_bound_0 in Hstop. destruct Hstop as [H | H]; [done | lia].
  - intros Heps. destruct m as [| m]; [done |].
    specialize (Hbefore 0%nat ltac:(lia)). rewrite error_bound_0 in Hbefore. rlra.
Qed.

(** *** A search that runs into the cap *)

Section Saturation.

Local Open Scope R_scope.

Variables (rx r : R).
Hypothesis rx_ge_1 : 1 <= rx.
Hypothesis r_range : 0 <= r <= 1.

Lemma saturation_b (p : Z) :
  (1 <= p)%Z ->
  let b := Rmin ((rx + sqrt (rx * rx + IZR (2 * p) * (1 * 1))) / 2) (rx + r) in
  rx <= b <= rx + 1.
Proof.
  intros Hp b. subst b.
  assert (rx <= sqrt (rx * rx + IZR (2 * p) * (1 * 1))) as Hs.
  { rewrite <- (sqrt_square rx) at 1 by rlra.
    apply sqrt_le_1_alt. assert (0 <= IZR (2 * p)) by (apply IZR_le; lia). rlra. }
  split.
  - apply Rmin_glb; rlra.
  - etransitivity; [apply Rmin_r | rlra].
Qed.

Lemma saturation_after (n : nat) :
  INR n <= rx ->
  let st := trunc_after n rx (rx * rx) (1 * 1) r in
  1 <= ts_temp st /\ / 3 <= ts_error st.
Proof.
  induction n as [| n IH]; intros Hn st; subst st.
  - cbn. split; rlra.
  - rewrite S_INR in Hn. destruct IH as [IHt _]; [rlra |].
    cbn [trunc_after trunc_body ts_temp ts_error ts_p].
    rewrite trunc_after_p.
    set (p := (Z.of_nat n + 1)%Z).
    assert (IZR p = INR n + 1) as Hp.
    { subst p. rewrite plus_IZR, <- INR_IZR_INZ. done. }
    assert (0 <= INR n) as Hn0 by apply pos_INR.
    destruct (saturation_b p ltac:(lia)) as [Hb1 Hb2].
    set (b := Rmin _ _) in *.
    set (t := ts_temp _) in *.
    assert (1 <= 2 * rx * b / (1 * 1) / IZR p) as Hfac.
    { rewrite Hp. apply (Rmult_le_reg_r (INR n + 1)); [rlra |].
      replace (2 * rx * b / (1 * 1) / (INR n + 1) * (INR n + 1))
        with (2 * rx * b) by (field; rlra).
      rnra. }
    assert (1 <= t * (2 * rx * b / (1 * 1) / IZR p)) as Ht by rnra.
    split; [exact Ht |].
    assert (/ 3 <= exp (- (rx - b) * (rx - b) / (1 * 1))) as He.
    { apply Rle_trans with (exp (Ropp 1)).
      - rewrite exp_Ropp. apply Rinv_le_contravar; [apply exp_pos | apply exp_le_3].
      - assert (Ropp 1 <= - (rx - b) * (rx - b) / (1 * 1)) as Hc.
        { replace (- (rx - b) * (rx - b) / (1 * 1)) with (- ((b - rx) * (b - rx)))
            by (field; rlra). rnra. }
        destruct Hc as [Hc | Hc]; [left; by apply exp_increasing | rewrite Hc; rlra]. }
    assert (0 < exp (- (rx - b) * (rx - b) / (1 * 1))) by apply exp_pos.
    rnra.
Qed.

End Saturation.

Lemma choose_truncation_number_saturates limit :
  (0 <= limit)%Z ->
  choose_truncation_number limit 1 1 (1 / 10) (IZR (limit + 1))
  = Some (limit + 1)%Z.
Proof.
  intros Hlimit.
  destruct (choose_truncation_number_spec limit Hlimit 1 1 (1 / 10) (IZR (limit + 1)))
    as (m & Hrun & Hle & Hstop & Hbefore).
  rewrite Hrun. f_equal.
  destruct Hstop as [Hstop | Hstop]; [| done].
  exfalso. unfold error_bound in Hstop.
  set (r := Rmin _ _) in Hstop.
  assert (0 <= r <= 1)%R as Hr.
  { subst r. rewrite sqrt_1. split.
    - apply Rmin_glb; [rlra |]. rewrite Rmult_1_l. apply sqrt_pos.
    - apply Rmin_l. }
  assert (1 <= IZR (limit + 1))%R as Hrx by (apply IZR_le; lia).
  destruct (saturation_after (IZR (limit + 1)) r Hrx Hr m) as [_ He].
  { rewrite INR_IZR_INZ. apply IZR_le. lia. }
  cbn zeta in He. rlra.
Qed.

(** ** Allocation and checked access *)

Lemma alloc_ok {A} (n : N) (x : A) :
  (n < 2 ^ 61)%N -> alloc n x = Ok (replicate (N.to_nat n) x).
Proof.
  intros Hn. unfold alloc.
  destruct (N.leb_spec n ((uword_modulus - 1) / 8)) as [_ | Hgt]; [done |].
  exfalso. revert Hgt. unfold uword_modulus.
  change ((2 ^ 64 - 1) / 8)%N with (2 ^ 61 - 1)%N. lia.
Qed.

Lemma uword_of_int_small (z : Z) :
  (0 <= z < 2 ^ 64)%Z -> uword_of_int z = Z.to_N z.
Proof.
  intros Hz. unfold uword_of_int, uword_modulus.
  change (Z.of_N (2 ^ 64)) with (2 ^ 64)%Z. by rewrite Z.mod_small.
Qed.

Lemma Q2R_unit_interval (q : Q) :
  (0 < q)%Q -> (q < 1)%Q -> (0 < Q2R q < 1)%R.
Proof.
  intros H0 H1. split.
  - rewrite <- RMicromega.Q2R_0. by apply Qreals.Qlt_Rlt.
  - rewrite <- RMicromega.Q2R_1. by apply Qreals.Qlt_Rlt.
Qed.

(** C9. For every valid construction the truncation order stored by the
    [Clustering] constructor is 1: the selector is called while the radius
    estimate [m_rx] is still zero, so the error product vanishes in the first
    pass of the loop, whatever the dimension, the bandwidth and epsilon. *)
Theorem Clustering_ctor_p_max_is_1 limit source K bandwidth epsilon :
  (0 <= limit)%Z ->
  (0 < n_cols source < 2 ^ 61)%N -> (n_rows source < 2 ^ 61)%N ->
  (0 <= K < 2 ^ 61)%Z ->
  (0 < bandwidth)%Q -> (0 < epsilon)%Q -> (epsilon < 1)%Q ->
  exists c, Clustering_ctor limit source K bandwidth epsilon = Ok c
            /\ m_p_max c = 1%N.
Proof.
  intros Hlimit Hd Hn HK Hh He0 He1. unfold Clustering_ctor.
  assert (Z.to_N K < 2 ^ 61)%N as HK'
    by (change (2 ^ 61)%N with (Z.to_N (2 ^ 61)); lia).
  rewrite uword_of_int_small by lia.
  repeat (rewrite alloc_ok by (done || lia); cbn [mbind result_bind]).
  rewrite choose_truncation_number_rx0
    by (try apply Q2R_unit_interval; done).
  eexists. split; [reflexivity | done].
Qed.

Lemma Clustering_ctor_p_max_is_1_witness :
  exists c, Clustering_ctor 200 (Mat 2 [[0; 0]; [10; 10]]%Q) 1 (1 # 2) (1 # 10) = Ok c
            /\ m_p_max c = 1%N.
Proof.
  apply Clustering_ctor_p_max_is_1; try done; cbn; lia.
Defined.

(** C7, as the code has it. The loop starts from an error of 1 and tests
    [error > epsilon] first, so the returned order is 0 exactly when
    epsilon is at least 1; for every epsilon below 1 at least one pass runs. *)
Theorem choose_truncation_number_zero_iff limit dimensions bandwidth epsilon rx :
  (0 <= limit)%Z ->
  choose_truncation_number limit dimensions bandwidth epsilon rx = Some 0%Z
  <-> (1 <= epsilon)%R.
Proof. apply choose_truncation_number_zero. Qed.

Lemma choose_truncation_number_zero_iff_witness :
  choose_truncation_number 200 2 1 2 1 = Some 0%Z <-> (1 <= 2)%R.
Proof. apply (choose_truncation_number_zero_iff 200 2 1 2 1). lia. Defined.

(** C7 as stated fails: no valid input makes the selector return 0. *)
Lemma choose_truncation_number_never_zero :
  ~ exists limit dimensions bandwidth epsilon rx,
      (0 <= limit)%Z /\ (0 < dimensions)%Z /\ (0 < bandwidth)%R
      /\ (0 < epsilon < 1)%R /\ (0 <= rx)%R
      /\ choose_truncation_number limit dimensions bandwidth epsilon rx
         = Some 0%Z.
Proof.
  intros (limit & d & h & eps & rx & Hl & _ & _ & Heps & _ & H).
  apply choose_truncation_number_zero in H; [rlra | done].
Qed.

(** C2, at an input that runs into the cap: the guard tests
    [p <= TruncationNumberUpperLimit] before the increment, so the search
    returns one more than the limit. *)
Theorem choose_truncation_number_exceeds_limit limit :
  (0 <= limit)%Z ->
  exists p, choose_truncation_number limit 1 1 (1 / 10) (IZR (limit + 1)) = Some p
            /\ (limit < p)%Z.
Proof.
  intros Hlimit. exists (limit + 1)%Z.
  split; [by apply choose_truncation_number_saturates | lia].
Qed.

Lemma choose_truncation_number_exceeds_limit_witness :
  exists p, choose_truncation_number 200 1 1 (1 / 10) (IZR (200 + 1)) = Some p
            /\ (200 < p)%Z.
Proof. apply (choose_truncation_number_exceeds_limit 200). lia. Defined.

(** ** Loops and arrays *)

Lemma bind_Ok {A B} (a : A) (f : A -> result B) : (Ok a ≫= f) = f a.
Proof. reflexivity. Qed.

Lemma at_Some {A} (v : list A) (i : N) (x : A) :
  v !! N.to_nat i = Some x -> at_ v i = Ok x.
Proof. intros H. unfold at_. by rewrite H. Qed.

Lemma at_nat {A} (v : list A) (n : nat) (x : A) :
  v !! n = Some x -> at_ v (N.of_nat n) = Ok x.
Proof. intros H. apply at_Some. by rewrite Nat2N.id. Qed.

Lemma at_inv {A} (v : list A) (i : N) (x : A) :
  at_ v i = Ok x -> v !! N.to_nat i = Some x.
Proof. unfold at_. destruct (v !! N.to_nat i); congruence. Qed.

Lemma put_ok {A} (v : list A) (i : N) (x : A) :
  (N.to_nat i < length v)%nat -> put v i x = Ok (<[N.to_nat i := x]> v).
Proof.
  intros H. unfold put.
  destruct (N.ltb_spec i (N.of_nat (length v))); [done | lia].
Qed.

Lemma put_inv {A} (v v' : list A) (i : N) (x : A) :
  put v i x = Ok v' ->
  (N.to_nat i < length v)%nat /\ v' = <[N.to_nat i := x]> v.
Proof.
  unfold put. destruct (N.ltb_spec i (N.of_nat (length v))); [| done].
  intros [= <-]. split; [lia | done].
Qed.

(** A counted loop keeps an invariant that each pass of its body keeps. *)
Lemma for_N_inv {S} (P : nat -> S -> Prop) (body : N -> S -> result S) count :
  forall (i0 : nat) (s0 : S),
    P i0 s0 ->
    (forall n s, (i0 <= n < i0 + count)%nat -> P n s ->
                 exists s', body (N.of_nat n) s = Ok s' /\ P (Datatypes.S n) s') ->
    exists s', for_N count (N.of_nat i0) body s0 = Ok s' /\ P (i0 + count)%nat s'.
Proof.
  induction count as [| count IH]; intros i0 s0 H0 Hstep.
  - exists s0. rewrite Nat.add_0_r. done.
  - destruct (Hstep i0 s0 ltac:(lia) H0) as (s1 & Hbody & H1).
    cbn [for_N]. rewrite Hbody, bind_Ok.
    replace (N.of_nat i0 + 1)%N with (N.of_nat (Datatypes.S i0)) by lia.
    destruct (IH (Datatypes.S i0) s1 H1) as (s' & Hrun & H').
    { intros n s Hn. apply Hstep. lia. }
    exists s'. split; [done |]. by replace (i0 + Datatypes.S count)%nat
      with (Datatypes.S i0 + count)%nat by lia.
Qed.

(** ** [compute_C] *)

Section CoefficientFacts.

Variable compute_monomials : list R -> N -> list R.
Variable compute_constant_series : N -> N -> list R.
Variable get_p_max_total : N -> N -> N.
Context {D : Type}.
Variable c : Clustering D.
Variable q : list Q.

Let d : N := n_cols (m_source c).
Let M : nat := N.to_nat (get_p_max_total d (m_p_max c)).
Let K : nat := length (m_centers c).
Let n : nat := length (rows (m_source c)).

(** The collaborators return vectors of [M] entries. *)
Hypothesis monomials_length :
  forall x, length x = N.to_nat d -> length (compute_monomials x (m_p_max c)) = M.
Hypothesis constant_series_length :
  length (compute_constant_series d (m_p_max c)) = M.

(** The object is well formed: [K] centres and [n] points of [d]
    coordinates, every point assigned to one of the [K] clusters. *)
Hypothesis source_wf : Forall (fun r => length r = N.to_nat d) (rows (m_source c)).
Hypothesis centers_wf : Forall (fun r => length r = N.to_nat d) (m_centers c).
Hypothesis indices_length : length (m_indices c) = n.
Hypothesis indices_range :
  Forall (fun k => (N.to_nat k < K)%nat) (m_indices c).
Hypothesis q_length : length q = n.
Hypothesis sizes : (get_p_max_total d (m_p_max c) < 2 ^ 61)%N /\ (N.of_nat K < 2 ^ 61)%N.

Let zero_row : list R := replicate M 0%R.
Local Abbreviation partial_sum := (sum_upto compute_monomials get_p_max_total c q).
Local Abbreviation accumulated := (accumulated compute_monomials get_p_max_total c q).
Local Abbreviation scaled :=
  (scaled compute_monomials compute_constant_series get_p_max_total c q).

Lemma weighted_monomials_length q_i dx :
  length dx = N.to_nat d ->
  length (weighted_monomials compute_monomials c q_i dx) = M.
Proof.
  intros Hdx. unfold weighted_monomials.
  rewrite length_map, monomials_length; [done |]. by rewrite !length_map.
Qed.

Lemma point_term_length k i :
  (N.to_nat k < K)%nat -> (i < n)%nat ->
  length (point_term compute_monomials c q k i) = M.
Proof.
  intros Hk Hi. unfold point_term.
  destruct (lookup_lt_is_Some_2 (rows (m_source c)) i) as [ri Hri]; [done |].
  destruct (lookup_lt_is_Some_2 (m_centers c) (N.to_nat k)) as [ck Hck]; [done |].
  rewrite Hri, Hck. cbn [from_option Datatypes.id].
  pose proof (proj1 (Forall_lookup _ _) source_wf _ _ Hri) as Lri.
  pose proof (proj1 (Forall_lookup _ _) centers_wf _ _ Hck) as Lck.
  cbn beta in Lri, Lck.
  apply weighted_monomials_length. rewrite length_zip_with. lia.
Qed.

Lemma partial_sum_length m k :
  (N.to_nat k < K)%nat -> (m <= n)%nat -> length (partial_sum m k) = M.
Proof.
  intros Hk Hm. unfold sum_upto. fold d M zero_row.
  assert (Forall (fun i => i < n)%nat
            (filter (fun i => m_indices c !! i = Some k) (seq 0 m))) as Hl.
  { apply Forall_forall. intros i Hi.
    apply list_elem_of_filter in Hi as [_ Hi].
    apply list_elem_of_In, in_seq in Hi. lia. }
  revert Hl. generalize (filter (fun i => m_indices c !! i = Some k) (seq 0 m)).
  assert (length zero_row = M) as Hz by apply length_replicate.
  revert Hz. generalize zero_row.
  intros z Hz l. revert z Hz. induction l as [| i l IH]; intros z Hz Hl; [done |].
  inversion_clear Hl as [| ? ? Hi Hl'].
  cbn. apply IH; [| done]. rewrite length_zip_with, Hz.
  rewrite point_term_length by done. lia.
Qed.

Lemma partial_sum_S m k k' :
  m_indices c !! m = Some k' ->
  partial_sum (Datatypes.S m) k =
    if decide (k' = k)
    then zip_with Rplus (partial_sum m k) (point_term compute_monomials c q k m)
    else partial_sum m k.
Proof.
  intros Hk. unfold sum_upto.
  rewrite seq_S, list.filter_app, map_app, fold_left_app. cbn [Nat.add].
  rewrite filter_cons, filter_nil.
  destruct (decide (k' = k)) as [-> | Hne].
  - by rewrite decide_True by done.
  - by rewrite decide_False by congruence.
Qed.

Lemma accumulate_point_step m C :
  (m < n)%nat -> accumulated m C ->
  exists C', accumulate_point compute_monomials c q (N.of_nat m) C = Ok C'
             /\ accumulated (Datatypes.S m) C'.
Proof.
  intros Hm [HlenC Hrows]. unfold accumulate_point.
  destruct (lookup_lt_is_Some_2 (m_indices c) m) as [k Hk]; [lia |].
  assert (N.to_nat k < K)%nat as HkK
    by (eapply (proj1 (Forall_lookup _ _) indices_range); eauto).
  destruct (lookup_lt_is_Some_2 (rows (m_source c)) m) as [ri Hri]; [done |].
  destruct (lookup_lt_is_Some_2 (m_centers c) (N.to_nat k)) as [ck Hck]; [done |].
  destruct (lookup_lt_is_Some_2 q m) as [q_m Hq]; [lia |].
  assert (length ri = N.to_nat d) as Lri
    by (eapply (proj1 (Forall_lookup _ _) source_wf); eauto).
  assert (length ck = N.to_nat d) as Lck
    by (eapply (proj1 (Forall_lookup _ _) centers_wf); eauto).
  rewrite (at_nat _ _ _ Hk), bind_Ok. unfold row.
  rewrite (at_nat _ _ _ Hri), bind_Ok, (at_Some _ _ _ Hck), bind_Ok.
  unfold vec_sub. rewrite Lri, Lck, Nat.eqb_refl, bind_Ok.
  rewrite (at_nat _ _ _ Hq), bind_Ok.
  pose proof (Hrows (N.to_nat k) HkK) as HCk. rewrite N2Nat.id in HCk.
  rewrite (at_Some _ _ _ HCk), bind_Ok.
  unfold vec_add.
  rewrite partial_sum_length, weighted_monomials_length, Nat.eqb_refl, bind_Ok;
    [| rewrite length_zip_with; lia | lia | lia].
  rewrite put_ok by lia. eexists. split; [reflexivity |].
  split; [by rewrite length_insert |].
  intros k' Hk'. rewrite (partial_sum_S m (N.of_nat k') k Hk).
  destruct (decide (k = N.of_nat k')) as [-> | Hne].
  - rewrite Nat2N.id. rewrite list_lookup_insert_eq by lia.
    do 2 f_equal. unfold point_term. rewrite Hri. rewrite Hck, Hq. done.
  - rewrite list_lookup_insert_ne by lia. by apply Hrows.
Qed.

Lemma scale_row_step m C :
  (m < K)%nat -> scaled m C ->
  exists C', scale_row (compute_constant_series d (m_p_max c)) (N.of_nat m) C = Ok C'
             /\ scaled (Datatypes.S m) C'.
Proof.
  intros Hm [HlenC Hrows]. unfold scale_row.
  pose proof (Hrows m Hm) as HCm. rewrite decide_False in HCm by lia.
  rewrite (at_nat _ _ _ HCm), bind_Ok.
  unfold vec_schur.
  rewrite partial_sum_length, constant_series_length, Nat.eqb_refl, bind_Ok;
    [| lia | lia].
  rewrite put_ok by (rewrite Nat2N.id; lia). eexists. split; [reflexivity |].
  rewrite Nat2N.id. split; [by rewrite length_insert |].
  intros k Hk. destruct (decide (k = m)) as [-> | Hne].
  - rewrite list_lookup_insert_eq by lia. by rewrite decide_True by lia.
  - rewrite list_lookup_insert_ne by lia. rewrite (Hrows k Hk).
    f_equal. destruct (decide (k < m)%nat), (decide (k < Datatypes.S m)%nat);
      (done || lia).
Qed.

Lemma compute_C_rows :
  exists C, compute_C compute_monomials compute_constant_series get_p_max_total c q = Ok C
    /\ length C = K
    /\ Forall (fun r => length r = M) C
    /\ (forall k, (k < K)%nat ->
          C !! k = Some (zip_with Rmult
                           (cluster_sum compute_monomials get_p_max_total c q (N.of_nat k))
                           (compute_constant_series d (m_p_max c))))
    /\ (forall k, members c k = [] ->
          cluster_sum compute_monomials get_p_max_total c q k = zero_row).
Proof.
  unfold compute_C. destruct sizes as [HM HK].
  rewrite alloc_ok, bind_Ok by done. rewrite alloc_ok, bind_Ok by done.
  destruct (for_N_inv accumulated (accumulate_point compute_monomials c q) n 0
              (replicate K (replicate M 0%R))) as (C1 & Hrun1 & Hacc).
  { split; [apply length_replicate |]. intros k Hk.
    by rewrite lookup_replicate_2. }
  { intros m C Hm. apply accumulate_point_step. lia. }
  fold d M. unfold n_rows. fold n K. rewrite !Nat2N.id.
  change (N.of_nat 0) with 0%N in Hrun1. rewrite Hrun1, bind_Ok.
  change (0 + n)%nat with n in Hacc. destruct Hacc as [HlenC1 Hrows1].
  destruct (for_N_inv scaled (scale_row (compute_constant_series d (m_p_max c))) K 0
              C1) as (C2 & Hrun2 & Hsc).
  { split; [done |]. intros k Hk. rewrite decide_False by lia. by apply Hrows1. }
  { intros m C Hm. apply scale_row_step. lia. }
  rewrite HlenC1. fold K. change (N.of_nat 0) with 0%N in Hrun2. rewrite Hrun2.
  exists C2. change (0 + K)%nat with K in Hsc. destruct Hsc as [HlenC2 Hrows2].
  split; [done |]. split; [done |]. split; [| split].
  - apply Forall_lookup. intros k r Hr.
    assert (k < K)%nat as Hk
      by (unfold K; rewrite <- HlenC2; eapply lookup_lt_Some; eauto).
    rewrite (Hrows2 k Hk), decide_True in Hr by done. injection Hr as <-.
    rewrite length_zip_with, partial_sum_length by lia. fold d.
    rewrite constant_series_length. lia.
  - intros k Hk. rewrite (Hrows2 k Hk), decide_True by done. done.
  - intros k Hk. unfold cluster_sum. by rewrite Hk.
Qed.

(** The two loops of [compute_C], with the matrix between them. *)
Lemma compute_C_stages :
  exists A C,
    for_N n 0%N (accumulate_point compute_monomials c q)
          (replicate K (replicate M 0%R)) = Ok A
    /\ accumulated n A
    /\ compute_C compute_monomials compute_constant_series get_p_max_total c q
       = Ok C
    /\ length C = K
    /\ Forall (fun r => length r = M) C
    /\ forall k, (k < K)%nat ->
         C !! k = Some (zip_with Rmult
                          (cluster_sum compute_monomials get_p_max_total c q
                                       (N.of_nat k))
                          (compute_constant_series d (m_p_max c))).
Proof.
  unfold compute_C. destruct sizes as [HM HK].
  rewrite alloc_ok, bind_Ok by done. rewrite alloc_ok, bind_Ok by done.
  destruct (for_N_inv accumulated (accumulate_point compute_monomials c q) n 0
              (replicate K (replicate M 0%R))) as (C1 & Hrun1 & Hacc).
  { split; [apply length_replicate |]. intros k Hk.
    by rewrite lookup_replicate_2. }
  { intros m C Hm. apply accumulate_point_step. lia. }
  fold d M. unfold n_rows. fold n K. rewrite !Nat2N.id.
  change (N.of_nat 0) with 0%N in Hrun1. rewrite Hrun1, bind_Ok.
  change (0 + n)%nat with n in Hacc. pose proof Hacc as [HlenC1 Hrows1].
  destruct (for_N_inv scaled (scale_row (compute_constant_series d (m_p_max c))) K 0
              C1) as (C2 & Hrun2 & Hsc).
  { split; [done |]. intros k Hk. rewrite decide_False by lia. by apply Hrows1. }
  { intros m C Hm. apply scale_row_step. lia. }
  rewrite HlenC1. fold K. change (N.of_nat 0) with 0%N in Hrun2. rewrite Hrun2.
  exists C1, C2. change (0 + K)%nat with K in Hsc. destruct Hsc as [HlenC2 Hrows2].
  split; [done |]. split; [done |]. split; [done |]. split; [done |]. split.
  - apply Forall_lookup. intros k r Hr.
    assert (k < K)%nat as Hk
      by (unfold K; rewrite <- HlenC2; eapply lookup_lt_Some; eauto).
    rewrite (Hrows2 k Hk), decide_True in Hr by done. injection Hr as <-.
    rewrite length_zip_with, partial_sum_length by lia. fold d.
    rewrite constant_series_length. lia.
  - intros k Hk. rewrite (Hrows2 k Hk), decide_True by done. done.
Qed.

End CoefficientFacts.

(** The code's term is the term of the claim. *)
Lemma map_Q2R_minus (x : list Q) : forall y,
  map Q2R (zip_with Qminus x y) = zip_with Rminus (map Q2R x) (map Q2R y).
Proof.
  induction x as [| a x IH]; intros [| b y]; try done.
  cbn. by rewrite IH, Qreals.Q2R_minus.
Qed.

Lemma point_term_gaussian
    (compute_monomials : list R -> N -> list R)
    {D : Type} (c : Clustering D) (q : list Q) (k : N) (i : nat) :
  point_term compute_monomials c q k i = gaussian_term compute_monomials c q k i.
Proof.
  unfold point_term, weighted_monomials, gaussian_term, offset, norm2.
  cbv zeta. rewrite map_Q2R_minus.
  set (dx := zip_with Rminus _ _).
  assert (map (fun d => d * d)%R dx = map Rsqr dx) as -> by done.
  replace (Q2R (m_bandwidth c) ^ 2)%R
    with (Q2R (m_bandwidth c) * Q2R (m_bandwidth c))%R by ring.
  done.
Qed.

Lemma zip_with_Rplus_comm (x : list R) : forall y,
  zip_with Rplus x y = zip_with Rplus y x.
Proof.
  induction x as [| a x IH]; intros [| b y]; try done.
  cbn. rewrite IH. f_equal. ring.
Qed.

Lemma zip_with_Rplus_assoc (x : list R) : forall y z,
  zip_with Rplus x (zip_with Rplus y z) = zip_with Rplus (zip_with Rplus x y) z.
Proof.
  induction x as [| a x IH]; intros [| b y] [| e z]; try done.
  cbn. rewrite IH. f_equal. ring.
Qed.

Lemma cluster_sum_claimed
    (compute_monomials : list R -> N -> list R)
    (get_p_max_total : N -> N -> N)
    {D : Type} (c : Clustering D) (q : list Q) (k : N) :
  cluster_sum compute_monomials get_p_max_total c q k
  = vector_sum (N.to_nat (get_p_max_total (n_cols (m_source c)) (m_p_max c)))
               (map (gaussian_term compute_monomials c q k) (members c k)).
Proof.
  unfold cluster_sum, vector_sum.
  rewrite (map_ext _ _ (point_term_gaussian compute_monomials c q k)).
  apply fold_symmetric.
  - apply zip_with_Rplus_assoc.
  - intros y. apply zip_with_Rplus_comm.
Qed.

(** C6. For a weight vector [q] of length N, [compute_C] returns a K x M
    matrix whose row [k] is the sum, over the points [i] assigned to cluster
    [k], of [q(i) * exp(-|p_i - c_k|^2 / h^2)] times the monomials of
    [(p_i - c_k) / h], multiplied element-wise by the constant series; in
    the matrix the first loop leaves, before that multiplication, the row
    of a cluster without points is zero. *)
Theorem compute_C_is_cluster_sum
    (compute_monomials : list R -> N -> list R)
    (compute_constant_series : N -> N -> list R)
    (get_p_max_total : N -> N -> N)
    {D : Type} (c : Clustering D) (q : list Q) :
  let d := n_cols (m_source c) in
  let M := N.to_nat (get_p_max_total d (m_p_max c)) in
  let K := length (m_centers c) in
  (forall x, length x = N.to_nat d -> length (compute_monomials x (m_p_max c)) = M) ->
  length (compute_constant_series d (m_p_max c)) = M ->
  Forall (fun r => length r = N.to_nat d) (rows (m_source c)) ->
  Forall (fun r => length r = N.to_nat d) (m_centers c) ->
  length (m_indices c) = length (rows (m_source c)) ->
  Forall (fun k => (N.to_nat k < K)%nat) (m_indices c) ->
  length q = length (rows (m_source c)) ->
  (get_p_max_total d (m_p_max c) < 2 ^ 61)%N /\ (N.of_nat K < 2 ^ 61)%N ->
  exists A C,
    for_N (length (rows (m_source c))) 0%N
          (accumulate_point compute_monomials c q)
          (replicate K (replicate M 0%R)) = Ok A
    /\ compute_C compute_monomials compute_constant_series get_p_max_total c q
       = Ok C
    /\ length C = K
    /\ Forall (fun r => length r = M) C
    /\ (forall k, (k < K)%nat ->
          C !! k = Some (claimed_row compute_monomials compute_constant_series
                                     get_p_max_total c q (N.of_nat k)))
    /\ (forall k, (k < K)%nat -> N.of_nat k ∉ m_indices c ->
          A !! k = Some (replicate M 0%R)).
Proof.
  intros d M K Hmono Hseries Hrows Hcenters Hidx Hrange Hq Hsizes.
  destruct (compute_C_stages compute_monomials compute_constant_series
              get_p_max_total c q Hmono Hseries Hrows Hcenters Hidx Hrange Hq
              Hsizes) as (A & C & HA & [_ Hacc] & Hrun & HlenC & HM & HC).
  exists A, C. split; [done |]. split; [done |]. split; [done |].
  split; [done |]. split.
  - intros k Hk. rewrite (HC k Hk). unfold claimed_row. cbv zeta.
    by rewrite cluster_sum_claimed.
  - intros k Hk Hnot. rewrite (Hacc k Hk). f_equal.
    unfold sum_upto.
    destruct (filter _ _) as [| i rest] eqn:E; [done | exfalso].
    assert (i ∈ filter (fun i => m_indices c !! i = Some (N.of_nat k))
                       (seq 0 (length (rows (m_source c))))) as Hi
      by (rewrite E; left).
    apply list_elem_of_filter in Hi as [Hi _].
    apply Hnot. by eapply list_elem_of_lookup_2.
Qed.

Lemma compute_C_is_cluster_sum_witness :
  exists A C,
    for_N 3 0%N
          (accumulate_point (fun (x : list R) (p : N) => 1%R :: x)
                            example_clustering [1; 1; 1]%Q)
          (replicate 2 (replicate 2 0%R)) = Ok A
    /\ compute_C (fun (x : list R) (p : N) => 1%R :: x)
                 (fun (d p : N) => [1%R; 2%R]) (fun (d p : N) => 2%N)
                 example_clustering [1; 1; 1]%Q = Ok C
    /\ length C = 2%nat
    /\ Forall (fun r => length r = 2%nat) C
    /\ (forall k, (k < 2)%nat ->
          C !! k = Some (claimed_row (fun (x : list R) (p : N) => 1%R :: x)
                                     (fun (d p : N) => [1%R; 2%R])
                                     (fun (d p : N) => 2%N)
                                     example_clustering [1; 1; 1]%Q (N.of_nat k)))
    /\ (forall k, (k < 2)%nat -> N.of_nat k ∉ [0; 0; 1]%N ->
          A !! k = Some (replicate 2 0%R)).
Proof.
  apply (compute_C_is_cluster_sum (fun (x : list R) (p : N) => 1%R :: x)
           (fun (d p : N) => [1%R; 2%R]) (fun (d p : N) => 2%N)
           example_clustering [1; 1; 1]%Q).
  - intros x Hx. cbn [length]. rewrite Hx. reflexivity.
  - reflexivity.
  - repeat constructor.
  - repeat constructor.
  - reflexivity.
  - repeat constructor; cbn; lia.
  - reflexivity.
  - split; reflexivity.
Defined.

(** ** Reading and writing arrays *)

Section ArrayFacts.

Context {A : Type}.
Implicit Types (v : list A) (d x : A) (a b k : N).

Lemma sel_insert d v a x b :
  (N.to_nat a < length v)%nat ->
  sel d (<[N.to_nat a := x]> v) b = if decide (a = b) then x else sel d v b.
Proof.
  intros Ha. unfold sel. destruct (decide (a = b)) as [-> | Hne].
  - by rewrite list_lookup_insert_eq.
  - rewrite list_lookup_insert_ne; [done | lia].
Qed.

Lemma sel_insert_eq d v a x :
  (N.to_nat a < length v)%nat -> sel d (<[N.to_nat a := x]> v) a = x.
Proof. intros Ha. rewrite sel_insert by done. by rewrite decide_True. Qed.

Lemma sel_insert_ne d v a x b :
  a <> b -> sel d (<[N.to_nat a := x]> v) b = sel d v b.
Proof.
  intros Hne. unfold sel. rewrite list_lookup_insert_ne; [done | lia].
Qed.

Lemma at_sel d v k :
  (N.to_nat k < length v)%nat -> at_ v k = Ok (sel d v k).
Proof.
  intros Hk. unfold at_, sel.
  destruct (lookup_lt_is_Some_2 v (N.to_nat k) Hk) as [x ->]. done.
Qed.

Lemma sel_lookup d v k x : v !! N.to_nat k = Some x -> sel d v k = x.
Proof. intros H. unfold sel. by rewrite H. Qed.

Lemma lookup_sel d v k :
  (N.to_nat k < length v)%nat -> v !! N.to_nat k = Some (sel d v k).
Proof.
  intros Hk. unfold sel.
  destruct (lookup_lt_is_Some_2 v (N.to_nat k) Hk) as [x ->]. done.
Qed.

End ArrayFacts.

(** ** Doubly linked chains *)

Section ChainFacts.

Implicit Types (nx pv l : list N) (a b k p q u w : N).

Lemma chain_app nx pv a l1 x l2 b :
  chain nx pv a (l1 ++ x :: l2) b <-> chain nx pv a l1 x /\ chain nx pv x l2 b.
Proof.
  revert a. induction l1 as [| y l1 IH]; intros a; cbn [chain app].
  - tauto.
  - rewrite IH. tauto.
Qed.

Lemma chain_next nx pv a l b :
  chain nx pv a l b -> sel 0%N nx a = hd b l.
Proof. destruct l; cbn; tauto. Qed.

Lemma last_cons_indep (x : N) l d d' : List.last (x :: l) d = List.last (x :: l) d'.
Proof. revert x. induction l as [| y l IH]; intros x; [done | apply IH]. Qed.

Lemma last_cons_elem (x : N) l d : List.last (x :: l) d ∈ x :: l.
Proof.
  revert x. induction l as [| y l IH]; intros x.
  - apply list_elem_of_here.
  - apply list_elem_of_further, IH.
Qed.

Lemma chain_prev nx pv a l b :
  chain nx pv a l b -> sel 0%N pv b = List.last (a :: l) a.
Proof.
  revert a. induction l as [| x l IH]; intros a; cbn [chain].
  - tauto.
  - intros (_ & _ & H). rewrite (IH x H).
    change (List.last (a :: x :: l) a) with (List.last (x :: l) a). apply last_cons_indep.
Qed.

(** Writes outside the chain do not disturb it. *)
Lemma chain_frame_nx nx pv a l b u w :
  chain nx pv a l b -> u ∉ a :: l ->
  chain (<[N.to_nat u := w]> nx) pv a l b.
Proof.
  revert a. induction l as [| x l IH]; intros a; cbn [chain];
    rewrite ?not_elem_of_cons.
  - intros [H1 H2] [Hu _]. by rewrite sel_insert_ne.
  - intros (H1 & H2 & H3) (Hu & Hx & Hl). rewrite sel_insert_ne by done.
    split; [done |]. split; [done |]. apply IH; [done |].
    rewrite not_elem_of_cons. done.
Qed.

Lemma chain_frame_pv nx pv a l b u w :
  chain nx pv a l b -> u ∉ l ++ [b] ->
  chain nx (<[N.to_nat u := w]> pv) a l b.
Proof.
  revert a. induction l as [| x l IH]; intros a; cbn [chain app];
    rewrite ?not_elem_of_cons.
  - intros [H1 H2] [Hu _]. by rewrite sel_insert_ne.
  - intros (H1 & H2 & H3) (Hx & Hl). rewrite sel_insert_ne by done.
    split; [done |]. split; [done |]. by apply IH.
Qed.

(** The end of a chain is moved from [k] to [q]. *)
Lemma chain_retarget nx pv a l k q :
  (N.to_nat q < length pv)%nat ->
  Forall (fun u => (N.to_nat u < length nx)%nat) (a :: l) ->
  chain nx pv a l k -> NoDup (a :: l) -> q ∉ l ->
  chain (<[N.to_nat (List.last (a :: l) a) := q]> nx)
        (<[N.to_nat q := List.last (a :: l) a]> pv) a l q.
Proof.
  intros Hq. revert a. induction l as [| x l IH]; intros a Hr Hc Hnd Hql.
  - cbn [List.last chain]. inversion_clear Hr. by rewrite !sel_insert_eq.
  - cbn [chain] in Hc |- *. destruct Hc as (H1 & H2 & H3).
    apply NoDup_cons in Hnd as [Ha Hnd]. apply not_elem_of_cons in Hql as [Hqx Hql].
    inversion_clear Hr as [| ? ? _ Hr'].
    assert (List.last (a :: x :: l) a = List.last (x :: l) x) as ->
      by apply (last_cons_indep x l a x).
    pose proof (last_cons_elem x l x) as Hin.
    rewrite sel_insert_ne by (intros E; apply Ha; rewrite <- E; exact Hin).
    rewrite sel_insert_ne by (intros E; apply Hqx; by rewrite E).
    split; [done |]. split; [done |]. by apply IH.
Qed.

(** [k] leaves the chain: its neighbours are linked to each other. *)
Lemma chain_unlink nx pv a l1 k l2 b :
  length nx = length pv ->
  Forall (fun u => (N.to_nat u < length nx)%nat) (a :: l1 ++ k :: l2 ++ [b]) ->
  chain nx pv a (l1 ++ k :: l2) b ->
  NoDup (a :: l1 ++ k :: l2) -> NoDup (l1 ++ k :: l2 ++ [b]) ->
  chain (<[N.to_nat (sel 0%N pv k) := sel 0%N nx k]> nx)
        (<[N.to_nat (sel 0%N nx k) := sel 0%N pv k]> pv) a (l1 ++ l2) b.
Proof.
  intros Hlen Hr Hc Hs Ht. apply chain_app in Hc as [Hc1 Hc2].
  rewrite (chain_prev _ _ _ _ _ Hc1), (chain_next _ _ _ _ _ Hc2).
  assert (NoDup (a :: l1) /\ (k ∉ a :: l1)
          /\ (forall u, u ∈ l2 -> (u ∉ a :: l1))) as (Hs1 & Hk1 & Hs2).
  { rewrite app_comm_cons in Hs. apply NoDup_app in Hs as (H1 & H2 & H3).
    split; [done |]. split.
    - intros Hin. apply (H2 _ Hin). apply list_elem_of_here.
    - intros u Hu Hin. apply (H2 _ Hin). by apply list_elem_of_further. }
  pose proof (last_cons_elem a l1 a) as Hp.
  apply Forall_cons in Hr as [Ha Hr]. apply Forall_app in Hr as [Hr1 Hr2].
  assert (forall q l2', l2 ++ [b] = q :: l2' ->
            (N.to_nat q < length pv)%nat /\ q ∉ l1) as Hq.
  { intros q l2' E. rewrite E in Hr2, Ht. split.
    - rewrite <- Hlen. apply Forall_cons in Hr2 as [_ Hr2].
      by apply Forall_cons in Hr2 as [Hb _].
    - apply NoDup_app in Ht as (_ & H2 & _). intros Hin. apply (H2 _ Hin).
      apply list_elem_of_further, list_elem_of_here. }
  destruct l2 as [| q l2]; cbn [hd app] in *.
  - rewrite app_nil_r. destruct (Hq b [] eq_refl) as [Hqr Hql].
    apply (chain_retarget nx pv a l1 k b); [done | by apply Forall_cons | done..].
  - destruct Hc2 as (Hkq & Hqk & Hc2).
    destruct (Hq q (l2 ++ [b]) eq_refl) as [Hqr Hql].
    apply chain_app. split.
    + apply (chain_retarget nx pv a l1 k q); [done | by apply Forall_cons | done..].
    + apply chain_frame_nx; [apply chain_frame_pv; [done |] |].
      * apply NoDup_app in Ht as (_ & _ & H3).
        apply NoDup_cons in H3 as [_ H3]. by apply NoDup_cons in H3 as [H3 _].
      * intros Hin. apply (Hs2 _ Hin Hp).
Qed.

(** [k] enters a ring right after its head [c]. *)
Lemma chain_push nx pv c m k :
  length nx = length pv ->
  Forall (fun u => (N.to_nat u < length nx)%nat) (k :: c :: m) ->
  chain nx pv c m c -> NoDup (c :: m) -> k ∉ c :: m ->
  let h := sel 0%N nx c in
  chain (<[N.to_nat c := k]> (<[N.to_nat k := h]> nx))
        (<[N.to_nat k := c]> (<[N.to_nat h := k]> pv)) c (k :: m) c.
Proof.
  intros Hlen Hr Hc Hnd Hk h.
  apply Forall_cons in Hr as [Hrk Hr]. apply Forall_cons in Hr as [Hrc Hrm].
  apply not_elem_of_cons in Hk as [Hkc Hkm].
  apply NoDup_cons in Hnd as [Hcm Hnd].
  cbn [chain]. rewrite sel_insert_eq by (by rewrite length_insert).
  rewrite sel_insert_eq by (rewrite length_insert; lia).
  split; [done |]. split; [done |].
  subst h. destruct m as [| h m]; cbn [chain] in Hc |- *.
  - destruct Hc as [Hc1 Hc2]. rewrite Hc1.
    rewrite sel_insert_ne, sel_insert_eq by done.
    rewrite sel_insert_ne, sel_insert_eq by (done || lia). done.
  - destruct Hc as (Hc1 & Hc2 & Hc3). rewrite Hc1.
    apply not_elem_of_cons in Hkm as [Hkh Hkm].
    apply not_elem_of_cons in Hcm as [Hch Hcm].
    apply Forall_cons in Hrm as [Hrh Hrm].
    rewrite sel_insert_ne, sel_insert_eq by done.
    rewrite sel_insert_ne, sel_insert_eq by (done || lia).
    split; [done |]. split; [done |].
    apply NoDup_cons in Hnd as [Hhm Hnd].
    apply chain_frame_nx; [apply chain_frame_nx; [apply chain_frame_pv; [apply chain_frame_pv |] |] |].
    + done.
    + rewrite not_elem_of_app, list_elem_of_singleton. done.
    + rewrite not_elem_of_app, list_elem_of_singleton. done.
    + rewrite not_elem_of_cons. done.
    + rewrite not_elem_of_cons. done.
Qed.

End ChainFacts.

(** ** Squared distances *)

Lemma ddist_cons a x b y :
  ddist (a :: x) (b :: y) = ((a - b) * (a - b) + ddist x y)%Q.
Proof. reflexivity. Qed.

Lemma Qsquare_nonneg (a : Q) : (0 <= a * a)%Q.
Proof. qnra. Qed.

Lemma ddist_nonneg x y : (0 <= ddist x y)%Q.
Proof.
  revert y. induction x as [| a x IH]; intros [| b y]; try (cbn; qlra).
  rewrite ddist_cons. specialize (IH y). pose proof (Qsquare_nonneg (a - b)). qlra.
Qed.

Lemma ddist_self x : (ddist x x == 0)%Q.
Proof.
  induction x as [| a x IH]; [reflexivity |].
  rewrite ddist_cons, IH. ring.
Qed.

Lemma ddist_sym x y : (ddist x y == ddist y x)%Q.
Proof.
  revert y. induction x as [| a x IH]; intros [| b y]; try reflexivity.
  rewrite !ddist_cons, (IH y). ring.
Qed.

(** The triangle inequality behind the pruning, on squared distances: a
    point within half the distance between two centres of the first one is
    not nearer to the second. *)
Lemma ddist_prune x c y :
  length x = length c -> length y = length c ->
  (2 * (ddist x y - ddist x c) >= ddist c y - 4 * ddist x c)%Q.
Proof.
  revert c y. induction x as [| a x IH]; intros [| b c] [| e y] Hx Hy;
    try discriminate; try (cbn; qlra).
  rewrite !ddist_cons. injection Hx as Hx. injection Hy as Hy.
  specialize (IH c y Hx Hy).
  pose proof (Qsquare_nonneg (2 * (a - b) - (e - b))) as Hsq.
  qnra.
Qed.

Lemma ddist_pruned x c y :
  length x = length c -> length y = length c ->
  (ddist x c <= ddist c y / 4)%Q -> (ddist x c <= ddist x y)%Q.
Proof.
  intros Hx Hy H. pose proof (ddist_prune x c y Hx Hy).
  assert (ddist c y / 4 == ddist c y * (1 # 4))%Q as E by (field).
  rewrite E in H. qlra.
Qed.

(** ** The steps of the pass, run *)

Ltac sproj :=
  cbn [centers cprev cnext far2c dist index radius
       with_centers with_cprev with_cnext with_far2c with_dist with_index
       with_radius fst snd] in *.

Ltac mrun :=
  repeat (first [ rewrite bind_Ok
                | rewrite put_ok by (sproj; rewrite ?length_insert; lia)
                | rewrite (at_sel 0%N) by (sproj; rewrite ?length_insert; lia)
                | rewrite (at_sel 0%Q) by (sproj; rewrite ?length_insert; lia)
                | progress sproj ]).

Section StepFacts.

Variable source : mat.
Variable K : nat.

Local Abbreviation inr := (in_range source).
Local Abbreviation lens := (lengths_ok source K).

Lemma row_point k : inr k -> row source k = Ok (point source k).
Proof. intros Hk. unfold row, point. by rewrite (at_sel []). Qed.

Lemma sel_insert_self (v : list N) p q k :
  sel 0%N v k = q -> sel 0%N (<[N.to_nat p := q]> v) k = q.
Proof.
  intros H. destruct (decide (N.to_nat p < length v)%nat) as [Hp | Hp].
  - rewrite sel_insert by done. by destruct (decide (p = k)).
  - rewrite list_insert_ge by lia. done.
Qed.

Lemma promote_ok i nc s :
  lens s -> (N.to_nat i < K)%nat ->
  (N.to_nat (max_element (take (N.to_nat i) (radius s))) < K)%nat ->
  far s (max_element (take (N.to_nat i) (radius s))) = nc ->
  inr nc -> inr (prv s nc) -> inr (nxt s nc) ->
  promote i s = Ok (nc, promote_state i nc s).
Proof.
  intros (Hc & Hf & Hr & Hp & Hn & Hd & Hi) HiK Hj Hfar Hnc Hpv Hnx.
  unfold promote_state. unfold in_range, far, prv, nxt in *.
  unfold promote, get_radius_idxmax.
  destruct (N.leb_spec i (N.of_nat (length (radius s)))) as [_ | Hbad]; [| lia].
  rewrite bind_Ok. rewrite (at_sel 0%N) by lia. rewrite bind_Ok, Hfar.
  unfold set_center, set_radius, set_dist, set_index, set_far2c, set_cnext,
    set_cprev.
  mrun. rewrite (sel_insert_self (cnext s) _ _ nc) by done. mrun.
  reflexivity.
Qed.

Lemma keep_point_ok j k s :
  lens s -> (N.to_nat j < K)%nat ->
  keep_point j k (dst s k) s = Ok (keep_state j k s).
Proof.
  intros (Hc & Hf & Hr & Hp & Hn & Hd & Hi) Hj.
  unfold keep_point, keep_state, get_radius, set_radius, set_far2c.
  rewrite (at_sel 0%Q) by lia. rewrite bind_Ok. fold (rad s j).
  destruct (Qlt_le_dec (rad s j) (dst s k)); [| done].
  mrun. reflexivity.
Qed.

Lemma move_point_ok i nc k dd s :
  lens s -> (N.to_nat i < K)%nat ->
  inr k -> inr nc -> inr (prv s k) -> inr (nxt s k) ->
  inr (nxt s nc) ->
  move_point i nc k (nxt s k) dd s = Ok (move_state i nc k dd s).
Proof.
  intros (Hc & Hf & Hr & Hp & Hn & Hd & Hi) HiK Hk Hnc Hpk Hnk Hnn.
  unfold move_state. unfold in_range, prv, nxt, rad in *.
  assert (N.to_nat (sel 0%N (<[N.to_nat (sel 0%N (cprev s) k) :=
                                sel 0%N (cnext s) k]> (cnext s)) nc)
          < length (rows source))%nat as Hh.
  { rewrite sel_insert by lia. by destruct (decide (sel 0%N (cprev s) k = nc)). }
  assert (N.to_nat (sel 0%N (<[N.to_nat k :=
             sel 0%N (<[N.to_nat (sel 0%N (cprev s) k) :=
                          sel 0%N (cnext s) k]> (cnext s)) nc]>
             (<[N.to_nat (sel 0%N (cprev s) k) := sel 0%N (cnext s) k]>
                (cnext s))) nc)
          < length (rows source))%nat as Hh'.
  { rewrite (sel_insert _ _ k) by (rewrite length_insert; lia).
    destruct (decide (k = nc)); done. }
  unfold move_point, get_radius, set_radius, set_dist, set_index,
    set_far2c, set_cnext, set_cprev.
  mrun. destruct (Qlt_le_dec (sel 0%Q (radius s) i) dd); mrun; reflexivity.
Qed.

Lemma walk_step_ok i j nc dc2cq k s :
  lens s -> (N.to_nat i < K)%nat -> (N.to_nat j < K)%nat ->
  inr k -> inr nc -> inr (prv s k) -> inr (nxt s k) ->
  inr (nxt s nc) ->
  walk_step source i j nc dc2cq k s
  = Ok (nxt s k, step_state source i j nc dc2cq k s).
Proof.
  intros Hlen HiK HjK Hk Hnc Hpk Hnk Hnn.
  pose proof Hlen as (Hc & Hf & Hr & Hp & Hn & Hd & Hi).
  unfold walk_step, step_state.
  rewrite (at_sel 0%N) by (unfold in_range in *; lia). rewrite bind_Ok.
  rewrite (at_sel 0%Q) by (unfold in_range in *; lia). rewrite bind_Ok.
  fold (nxt s k) (dst s k).
  destruct (Qlt_le_dec dc2cq (dst s k)).
  - rewrite !row_point by done. rewrite !bind_Ok. cbn zeta.
    destruct (Qlt_le_dec (ddist (point source k) (point source nc)) (dst s k)).
    + by rewrite move_point_ok.
    + by rewrite keep_point_ok.
  - by rewrite keep_point_ok.
Qed.

End StepFacts.

(** ** Reading the state after a step *)

Section StateReaders.

Variable source : mat.
Variable K : nat.

Local Abbreviation inr := (in_range source).
Local Abbreviation lens := (lengths_ok source K).

Ltac readers :=
  unfold ctr, far, rad, dst, idx, nxt, prv, in_range; sproj;
  repeat (rewrite sel_insert by (rewrite ?length_insert; lia)).

Section Promote.

Variables (i nc : N) (s : gstate).
Hypothesis Hlen : lens s.
Hypothesis HiK : (N.to_nat i < K)%nat.
Hypothesis Hnc : inr nc.

Local Abbreviation s' := (promote_state i nc s).

Lemma promote_lengths : lens s'.
Proof.
  destruct Hlen as (Hc & Hf & Hr & Hp & Hn & Hd & Hi).
  unfold lengths_ok, promote_state; sproj. by rewrite !length_insert.
Qed.

Lemma promote_ctr j : ctr s' j = if decide (i = j) then nc else ctr s j.
Proof. destruct Hlen as (Hc & Hf & Hr & Hp & Hn & Hd & Hi). unfold promote_state. by readers. Qed.

Lemma promote_far j : far s' j = if decide (i = j) then nc else far s j.
Proof. destruct Hlen as (Hc & Hf & Hr & Hp & Hn & Hd & Hi). unfold promote_state. by readers. Qed.

Lemma promote_rad j : rad s' j = if decide (i = j) then 0%Q else rad s j.
Proof. destruct Hlen as (Hc & Hf & Hr & Hp & Hn & Hd & Hi). unfold promote_state. by readers. Qed.

Lemma promote_dst k : dst s' k = if decide (nc = k) then 0%Q else dst s k.
Proof.
  destruct Hlen as (Hc & Hf & Hr & Hp & Hn & Hd & Hi). unfold promote_state.
  unfold in_range in Hnc. by readers.
Qed.

Lemma promote_idx k : idx s' k = if decide (nc = k) then i else idx s k.
Proof.
  destruct Hlen as (Hc & Hf & Hr & Hp & Hn & Hd & Hi). unfold promote_state.
  unfold in_range in Hnc. by readers.
Qed.

End Promote.

Section Keep.

Variables (j k : N) (s : gstate).
Hypothesis Hlen : lens s.
Hypothesis HjK : (N.to_nat j < K)%nat.

Local Abbreviation s' := (keep_state j k s).

Lemma keep_lengths : lens s'.
Proof.
  destruct Hlen as (Hc & Hf & Hr & Hp & Hn & Hd & Hi).
  unfold lengths_ok, keep_state.
  destruct (Qlt_le_dec (rad s j) (dst s k)); sproj; by rewrite ?length_insert.
Qed.

Lemma keep_ctr j' : ctr s' j' = ctr s j'.
Proof. unfold keep_state. by destruct (Qlt_le_dec (rad s j) (dst s k)). Qed.

Lemma keep_dst k' : dst s' k' = dst s k'.
Proof. unfold keep_state. by destruct (Qlt_le_dec (rad s j) (dst s k)). Qed.

Lemma keep_idx k' : idx s' k' = idx s k'.
Proof. unfold keep_state. by destruct (Qlt_le_dec (rad s j) (dst s k)). Qed.

Lemma keep_nxt k' : nxt s' k' = nxt s k'.
Proof. unfold keep_state. by destruct (Qlt_le_dec (rad s j) (dst s k)). Qed.

Lemma keep_prv k' : prv s' k' = prv s k'.
Proof. unfold keep_state. by destruct (Qlt_le_dec (rad s j) (dst s k)). Qed.

Lemma keep_cnext : cnext s' = cnext s.
Proof. unfold keep_state. by destruct (Qlt_le_dec (rad s j) (dst s k)). Qed.

Lemma keep_cprev : cprev s' = cprev s.
Proof. unfold keep_state. by destruct (Qlt_le_dec (rad s j) (dst s k)). Qed.

Lemma keep_far j' :
  far s' j' = if Qlt_le_dec (rad s j) (dst s k)
              then (if decide (j = j') then k else far s j')
              else far s j'.
Proof.
  destruct Hlen as (Hc & Hf & Hr & Hp & Hn & Hd & Hi). unfold keep_state.
  destruct (Qlt_le_dec (rad s j) (dst s k)) as [Hlt | Hle]; [| done].
  by readers.
Qed.

Lemma keep_rad j' :
  rad s' j' = if Qlt_le_dec (rad s j) (dst s k)
              then (if decide (j = j') then dst s k else rad s j')
              else rad s j'.
Proof.
  destruct Hlen as (Hc & Hf & Hr & Hp & Hn & Hd & Hi). unfold keep_state.
  destruct (Qlt_le_dec (rad s j) (dst s k)) as [Hlt | Hle]; [| done].
  by readers.
Qed.

End Keep.

Section Move.

Variables (i nc k : N) (dd : Q) (s : gstate).
Hypothesis Hlen : lens s.
Hypothesis HiK : (N.to_nat i < K)%nat.
Hypothesis Hk : inr k.

Local Abbreviation s' := (move_state i nc k dd s).

Lemma move_lengths : lens s'.
Proof.
  destruct Hlen as (Hc & Hf & Hr & Hp & Hn & Hd & Hi).
  unfold lengths_ok, move_state.
  destruct (Qlt_le_dec (rad s i) dd); sproj; by rewrite ?length_insert.
Qed.

Lemma move_ctr j' : ctr s' j' = ctr s j'.
Proof. reflexivity. Qed.

Lemma move_dst k' : dst s' k' = if decide (k = k') then dd else dst s k'.
Proof.
  destruct Hlen as (Hc & Hf & Hr & Hp & Hn & Hd & Hi). unfold move_state.
  unfold in_range in Hk. by readers.
Qed.

Lemma move_idx k' : idx s' k' = if decide (k = k') then i else idx s k'.
Proof.
  destruct Hlen as (Hc & Hf & Hr & Hp & Hn & Hd & Hi). unfold move_state.
  unfold in_range in Hk. by readers.
Qed.

Lemma move_far j' :
  far s' j' = if Qlt_le_dec (rad s i) (dd)
              then (if decide (i = j') then k else far s j')
              else far s j'.
Proof.
  destruct Hlen as (Hc & Hf & Hr & Hp & Hn & Hd & Hi). unfold move_state.
  destruct (Qlt_le_dec (rad s i) (dd)) as [Hlt | Hle]; [| done].
  by readers.
Qed.

Lemma move_rad j' :
  rad s' j' = if Qlt_le_dec (rad s i) (dd)
              then (if decide (i = j') then dd else rad s j')
              else rad s j'.
Proof.
  destruct Hlen as (Hc & Hf & Hr & Hp & Hn & Hd & Hi). unfold move_state.
  destruct (Qlt_le_dec (rad s i) (dd)) as [Hlt | Hle]; [| done].
  by readers.
Qed.

End Move.

End StateReaders.

(** ** Moving a point between rings *)

Section RingMoves.

Implicit Types (nx pv l m : list N) (a c e k : N).

Lemma NoDup_rotate a l : NoDup (a :: l) -> NoDup (l ++ [a]).
Proof.
  intros H. apply NoDup_app. apply NoDup_cons in H as [Ha Hl].
  split; [done |]. split; [| apply NoDup_singleton].
  intros x Hx Hxa. apply list_elem_of_singleton in Hxa as ->. done.
Qed.

Lemma chain_elem_range n nx pv a l b :
  all_below n (a :: l) -> chain nx pv a l b -> all_below n [b] ->
  (N.to_nat (hd b l) < n)%nat /\ (N.to_nat (List.last (a :: l) a) < n)%nat.
Proof.
  intros Hr _ Hb. split.
  - destruct l as [| x l]; cbn [hd].
    + by apply Forall_cons in Hb as [Hb _].
    + apply Forall_cons in Hr as [_ Hr]. by apply Forall_cons in Hr as [Hx _].
  - eapply (proj1 (Forall_forall _ _) Hr). apply last_cons_elem.
Qed.

(** [k] is taken out of the ring of [a] and becomes a ring of its own. *)
Lemma chain_isolate n nx pv a l1 k l2 :
  length nx = n -> length pv = n ->
  all_below n (a :: l1 ++ k :: l2) ->
  chain nx pv a (l1 ++ k :: l2) a -> NoDup (a :: l1 ++ k :: l2) ->
  let p := sel 0%N pv k in
  let q := sel 0%N nx k in
  let nx' := <[N.to_nat k := k]> (<[N.to_nat p := q]> nx) in
  let pv' := <[N.to_nat k := k]> (<[N.to_nat q := p]> pv) in
  chain nx' pv' a (l1 ++ l2) a /\ chain nx' pv' k [] k
  /\ (N.to_nat p < n)%nat /\ (N.to_nat q < n)%nat
  /\ forall e l, chain nx pv e l e ->
       (forall x, x ∈ e :: l -> x ∉ a :: l1 ++ k :: l2) ->
       chain nx' pv' e l e.
Proof.
  intros Hnx Hpv Hr Hc Hnd p q nx' pv'.
  assert (NoDup (l1 ++ k :: l2 ++ [a])) as Hnd'.
  { replace (l1 ++ k :: l2 ++ [a]) with ((l1 ++ k :: l2) ++ [a])
      by (by rewrite <- app_assoc).
    by apply NoDup_rotate. }
  assert (all_below n (a :: l1 ++ k :: l2 ++ [a])) as Hr'.
  { unfold all_below in *.
    replace (a :: l1 ++ k :: l2 ++ [a]) with ((a :: l1 ++ k :: l2) ++ [a])
      by (cbn; by rewrite <- app_assoc).
    apply Forall_app. split; [done |].
    apply Forall_cons in Hr as [Ha _]. by apply Forall_singleton. }
  pose proof (chain_unlink nx pv a l1 k l2 a ltac:(congruence)
                ltac:(by rewrite Hnx) Hc Hnd Hnd') as Hu.
  fold p q in Hu.
  pose proof Hc as Hc'. apply chain_app in Hc' as [Hc1 Hc2].
  assert (p ∈ a :: l1) as Hp.
  { subst p. rewrite (chain_prev _ _ _ _ _ Hc1). apply last_cons_elem. }
  assert (q ∈ l2 ++ [a]) as Hq.
  { subst q. rewrite (chain_next _ _ _ _ _ Hc2).
    destruct l2; cbn; apply list_elem_of_here. }
  assert ((k ∉ a :: l1) /\ (k ∉ l2)) as [Hk1 Hk2].
  { rewrite app_comm_cons in Hnd. apply NoDup_app in Hnd as (_ & H2 & H3).
    split.
    - intros Hin. apply (H2 _ Hin). apply list_elem_of_here.
    - by apply NoDup_cons in H3 as [H3 _]. }
  assert (N.to_nat p < n /\ N.to_nat q < n)%nat as [Hpn Hqn].
  { split.
    - eapply (proj1 (Forall_forall _ _) Hr). rewrite app_comm_cons.
      apply elem_of_app. by left.
    - apply elem_of_app in Hq as [Hq | Hq].
      + eapply (proj1 (Forall_forall _ _) Hr). rewrite app_comm_cons.
        apply elem_of_app. right. by apply list_elem_of_further.
      + apply list_elem_of_singleton in Hq as ->. by apply Forall_cons in Hr as [Ha _]. }
  assert (N.to_nat k < n)%nat as Hkn.
  { eapply (proj1 (Forall_forall _ _) Hr). rewrite app_comm_cons.
    apply elem_of_app. right. apply list_elem_of_here. }
  split; [| split; [| split; [done | split; [done |]]]].
  - subst nx' pv'. apply chain_frame_nx; [apply chain_frame_pv; [done |] |].
    + rewrite <- app_assoc. intros Hin.
      apply elem_of_app in Hin as [Hin | Hin].
      * apply Hk1. by apply list_elem_of_further.
      * apply elem_of_app in Hin as [Hin | Hin]; [done |].
        apply list_elem_of_singleton in Hin as ->. apply Hk1, list_elem_of_here.
    + rewrite app_comm_cons. intros Hin.
      apply elem_of_app in Hin as [Hin | Hin]; done.
  - subst nx' pv'. cbn [chain].
    rewrite !sel_insert_eq by (rewrite length_insert; lia). done.
  - intros e l He Hdis. subst nx' pv'.
    assert (forall x, x ∈ a :: l1 ++ k :: l2 -> x ∉ e :: l) as Hdis'.
    { intros x Hx Hxe. by apply (Hdis x Hxe). }
    assert (forall x, x ∈ a :: l1 ++ k :: l2 -> x ∉ l ++ [e]) as Hdis''.
    { intros x Hx Hxe. apply (Hdis' x Hx).
      apply elem_of_app in Hxe as [Hxe | Hxe].
      - by apply list_elem_of_further.
      - apply list_elem_of_singleton in Hxe as ->. apply list_elem_of_here. }
    assert (k ∈ a :: l1 ++ k :: l2) as Hkin.
    { rewrite app_comm_cons. apply elem_of_app. right. apply list_elem_of_here. }
    assert (p ∈ a :: l1 ++ k :: l2) as Hpin.
    { rewrite app_comm_cons. apply elem_of_app. by left. }
    assert (q ∈ a :: l1 ++ k :: l2) as Hqin.
    { apply elem_of_app in Hq as [Hq | Hq].
      - rewrite app_comm_cons. apply elem_of_app. right.
        by apply list_elem_of_further.
      - apply list_elem_of_singleton in Hq as ->. apply list_elem_of_here. }
    apply chain_frame_nx; [apply chain_frame_nx; [apply chain_frame_pv;
      [apply chain_frame_pv |] |] |]; auto.
Qed.

(** [k] is taken out of the ring of [a] and put at the head of that of
    [c]. *)
Lemma chain_move n nx pv a l1 k l2 c m :
  length nx = n -> length pv = n ->
  all_below n (a :: l1 ++ k :: l2) -> all_below n (c :: m) ->
  chain nx pv a (l1 ++ k :: l2) a -> NoDup (a :: l1 ++ k :: l2) ->
  chain nx pv c m c -> NoDup (c :: m) ->
  (forall x, x ∈ a :: l1 ++ k :: l2 -> x ∉ c :: m) ->
  let p := sel 0%N pv k in
  let q := sel 0%N nx k in
  let cn1 := <[N.to_nat p := q]> nx in
  let cp1 := <[N.to_nat q := p]> pv in
  let h := sel 0%N cn1 c in
  let cn2 := <[N.to_nat k := h]> cn1 in
  let cp2 := <[N.to_nat (sel 0%N cn2 c) := k]> cp1 in
  let nx' := <[N.to_nat c := k]> cn2 in
  let pv' := <[N.to_nat k := c]> cp2 in
  chain nx' pv' a (l1 ++ l2) a /\ chain nx' pv' c (k :: m) c
  /\ (N.to_nat p < n)%nat /\ (N.to_nat q < n)%nat /\ (N.to_nat h < n)%nat
  /\ q = hd a l2
  /\ forall e l, chain nx pv e l e ->
       (forall x, x ∈ e :: l -> x ∉ a :: l1 ++ k :: l2) ->
       (forall x, x ∈ e :: l -> x ∉ c :: m) ->
       chain nx' pv' e l e.
Proof.
  intros Hnx Hpv Hr Hrc Hc Hnd Hcc Hndc Hdis p q cn1 cp1 h cn2 cp2 nx' pv'.
  assert (NoDup (l1 ++ k :: l2 ++ [a])) as Hnd'.
  { replace (l1 ++ k :: l2 ++ [a]) with ((l1 ++ k :: l2) ++ [a])
      by (by rewrite <- app_assoc).
    by apply NoDup_rotate. }
  assert (all_below n (a :: l1 ++ k :: l2 ++ [a])) as Hr'.
  { unfold all_below in *.
    replace (a :: l1 ++ k :: l2 ++ [a]) with ((a :: l1 ++ k :: l2) ++ [a])
      by (cbn; by rewrite <- app_assoc).
    apply Forall_app. split; [done |].
    apply Forall_cons in Hr as [Ha _]. by apply Forall_singleton. }
  pose proof (chain_unlink nx pv a l1 k l2 a ltac:(congruence)
                ltac:(by rewrite Hnx) Hc Hnd Hnd') as Hu.
  fold p q cn1 cp1 in Hu.
  pose proof Hc as Hc'. apply chain_app in Hc' as [Hc1 Hc2].
  assert (p ∈ a :: l1) as Hp.
  { subst p. rewrite (chain_prev _ _ _ _ _ Hc1). apply last_cons_elem. }
  assert (q = hd a l2) as Hqhd by (subst q; apply (chain_next _ _ _ _ _ Hc2)).
  assert (q ∈ l2 ++ [a]) as Hq.
  { rewrite Hqhd. destruct l2; cbn; apply list_elem_of_here. }
  assert ((k ∉ a :: l1) /\ (k ∉ l2)) as [Hk1 Hk2].
  { rewrite app_comm_cons in Hnd. apply NoDup_app in Hnd as (_ & H2 & H3).
    split.
    - intros Hin. apply (H2 _ Hin). apply list_elem_of_here.
    - by apply NoDup_cons in H3 as [H3 _]. }
  assert (k ∈ a :: l1 ++ k :: l2) as Hkin.
  { rewrite app_comm_cons. apply elem_of_app. right. apply list_elem_of_here. }
  assert (p ∈ a :: l1 ++ k :: l2) as Hpin.
  { rewrite app_comm_cons. apply elem_of_app. by left. }
  assert (q ∈ a :: l1 ++ k :: l2) as Hqin.
  { apply elem_of_app in Hq as [Hq | Hq].
    - rewrite app_comm_cons. apply elem_of_app. right.
      by apply list_elem_of_further.
    - apply list_elem_of_singleton in Hq as ->. apply list_elem_of_here. }
  assert (forall x, x ∈ a :: l1 ++ k :: l2 -> (N.to_nat x < n)%nat) as Hrange
    by (intros x Hx; by eapply (proj1 (Forall_forall _ _) Hr)).
  assert (forall x, x ∈ c :: m -> (N.to_nat x < n)%nat) as Hrangec
    by (intros x Hx; by eapply (proj1 (Forall_forall _ _) Hrc)).
  assert (c ∈ c :: m) as Hcin by apply list_elem_of_here.
  assert (p <> c) as Hpc by (intros ->; by apply (Hdis c)).
  assert (k <> c) as Hkc by (intros ->; by apply (Hdis c)).
  assert (h = sel 0%N nx c) as Hh.
  { subst h cn1. by rewrite sel_insert_ne. }
  assert (h = hd c m) as Hhd by (rewrite Hh; apply (chain_next _ _ _ _ _ Hcc)).
  assert (h ∈ c :: m) as Hhin.
  { rewrite Hhd. destruct m; cbn; [apply list_elem_of_here |].
    apply list_elem_of_further, list_elem_of_here. }
  assert (sel 0%N cn2 c = h) as Hh2.
  { subst cn2. by rewrite sel_insert_ne. }
  assert (forall x, x ∈ c :: m -> x ∉ a :: l1 ++ k :: l2) as Hdisc.
  { intros x Hx Hxa. by apply (Hdis x Hxa). }
  assert (forall x, x ∈ m ++ [c] -> x ∈ c :: m) as Hrot.
  { intros x Hx. apply elem_of_app in Hx as [Hx | Hx].
    - by apply list_elem_of_further.
    - apply list_elem_of_singleton in Hx as ->. apply list_elem_of_here. }
  split; [| split; [| split; [by apply Hrange | split; [by apply Hrange |
    split; [by apply Hrangec | split; [done |]]]]]].
  - subst nx' pv' cp2 cn2. rewrite Hh2.
    apply chain_frame_nx; [apply chain_frame_nx; [apply chain_frame_pv;
      [apply chain_frame_pv; [done |] |] |] |].
    + intros Hin. apply (Hdisc h Hhin).
      rewrite <- app_assoc in Hin.
      apply elem_of_app in Hin as [Hin | Hin].
      * rewrite app_comm_cons. apply elem_of_app. left.
        by apply list_elem_of_further.
      * apply elem_of_app in Hin as [Hin | Hin].
        -- rewrite app_comm_cons. apply elem_of_app. right.
           by apply list_elem_of_further.
        -- apply list_elem_of_singleton in Hin as ->. apply list_elem_of_here.
    + rewrite <- app_assoc. intros Hin.
      apply elem_of_app in Hin as [Hin | Hin].
      * apply Hk1. by apply list_elem_of_further.
      * apply elem_of_app in Hin as [Hin | Hin]; [done |].
        apply list_elem_of_singleton in Hin as ->. apply Hk1, list_elem_of_here.
    + rewrite app_comm_cons. intros Hin.
      apply elem_of_app in Hin as [Hin | Hin]; done.
    + intros Hin. apply (Hdisc c Hcin).
      rewrite app_comm_cons in Hin |- *.
      apply elem_of_app in Hin as [Hin | Hin]; apply elem_of_app;
        [by left | right; by apply list_elem_of_further].
  - assert (chain cn1 cp1 c m c) as Hcc1.
    { subst cn1 cp1. apply chain_frame_nx; [apply chain_frame_pv; [done |] |].
      - intros Hin. apply (Hdisc q (Hrot _ Hin) Hqin).
      - intros Hin. by apply (Hdisc p Hin). }
    pose proof (chain_push cn1 cp1 c m k) as Hpush.
    cbn zeta in Hpush. fold h in Hpush.
    subst nx' pv' cp2 cn2. rewrite Hh2. apply Hpush.
    + subst cn1 cp1. rewrite !length_insert. congruence.
    + subst cn1. apply Forall_cons. rewrite length_insert, Hnx.
      split; [by apply Hrange |]. done.
    + done.
    + done.
    + by apply Hdis.
  - intros e l He Hd1 Hd2. subst nx' pv' cp2 cn2 cn1 cp1. rewrite Hh2.
    assert (forall x, x ∈ l ++ [e] -> x ∈ e :: l) as Hrote.
    { intros x Hx. apply elem_of_app in Hx as [Hx | Hx].
      - by apply list_elem_of_further.
      - apply list_elem_of_singleton in Hx as ->. apply list_elem_of_here. }
    apply chain_frame_nx; [apply chain_frame_nx; [apply chain_frame_nx;
      [apply chain_frame_pv; [apply chain_frame_pv; [apply chain_frame_pv;
        [done |] |] |] |] |] |].
    + intros Hin. by apply (Hd1 q (Hrote _ Hin)).
    + intros Hin. by apply (Hd2 h (Hrote _ Hin)).
    + intros Hin. by apply (Hd1 k (Hrote _ Hin)).
    + intros Hin. by apply (Hd1 p).
    + intros Hin. by apply (Hd1 k).
    + intros Hin. by apply (Hd2 c).
Qed.

End RingMoves.

(** ** The walk along a ring *)

Section WalkFacts.

Variable source : mat.
Variable K : nat.
Variables (i nc j : N).

Local Abbreviation inr := (in_range source).
Local Abbreviation sq := (sqdist source).
Local Abbreviation walking := (walking source K i nc j).

Lemma ring_of_in_range s j' c l k :
  ring_of source s j' c l -> k ∈ c :: l -> inr k /\ idx s k = j'.
Proof. intros (_ & _ & Hm) Hk. by apply Hm. Qed.

Lemma elem_of_middle (k : N) l1 l2 : k ∈ l1 ++ k :: l2.
Proof. apply elem_of_app. right. apply list_elem_of_here. Qed.

(** [radius_ok] reads the state at [far2c(j')], [radius(j')] and the points
    only. *)
Lemma radius_ok_ext s s' j' :
  far s' j' = far s j' -> rad s' j' = rad s j' ->
  (forall k, idx s' k = idx s k) -> (forall k, dst s' k = dst s k) ->
  radius_ok source s j' -> radius_ok source s' j'.
Proof.
  intros Hf Hr Hi Hd (H1 & H2 & H3 & H4). unfold radius_ok, radius_bounds.
  rewrite Hf, Hr, Hi, Hd. split; [done |]. split; [done |]. split; [done |].
  intros k Hk. rewrite Hi, Hd. by apply H4.
Qed.

Lemma radius_pending_ext s s' j' :
  far s' j' = far s j' -> rad s' j' = rad s j' -> ctr s' j' = ctr s j' ->
  (forall k, idx s' k = idx s k) -> (forall k, dst s' k = dst s k) ->
  radius_pending source nc s j' -> radius_pending source nc s' j'.
Proof.
  intros Hf Hr Hc Hi Hd [H1 H2]. unfold radius_pending, radius_bounds.
  rewrite Hr, Hc. split.
  - intros k Hk. rewrite Hi, Hd. by apply H1.
  - destruct H2 as [H2 | H2]; [left | by right].
    by apply (radius_ok_ext s s').
Qed.

(** The member [k] is looked at and stays in cluster [j]. *)
Lemma walking_keep kept k todo s :
  walking kept (k :: todo) s ->
  (dst s k <= sq k nc)%Q ->
  walking (kept ++ [k]) todo (keep_state j k s).
Proof.
  intros (Hmid & Hji & Hring & Hnew & Hfarin & Hfarrad & Hbound) Hk.
  destruct Hmid as (Hweak & Hdist & Hnear & Hctri & Hcidx & Hdone & Hrings
                    & Hrok & Hpend).
  destruct Hweak as (Hlen & HiK & Hcf & Hpts).
  assert (N.to_nat j < K)%nat as HjK by lia.
  assert (inr k /\ idx s k = j) as [Hkr Hkj].
  { apply (ring_of_in_range _ _ _ _ _ Hring).
    apply list_elem_of_further, elem_of_middle. }
  pose proof (keep_lengths source K j k s Hlen) as Hlen'.
  pose proof (keep_far source K j k s Hlen HjK) as Hfar.
  pose proof (keep_rad source K j k s Hlen HjK) as Hrad.
  assert (forall k', idx (keep_state j k s) k' = idx s k') as Hidx
    by apply keep_idx.
  assert (forall k', dst (keep_state j k s) k' = dst s k') as Hdst
    by apply keep_dst.
  assert (forall j', ctr (keep_state j k s) j' = ctr s j') as Hctr
    by apply keep_ctr.
  assert (forall k', nxt (keep_state j k s) k' = nxt s k') as Hnxt
    by apply keep_nxt.
  assert (forall k', prv (keep_state j k s) k' = prv s k') as Hprv
    by apply keep_prv.
  pose proof (keep_cnext j k s) as Hcn. pose proof (keep_cprev j k s) as Hcp.
  assert (forall j' c l, ring_of source s j' c l ->
            ring_of source (keep_state j k s) j' c l) as Hring'.
  { intros j' c l (H1 & H2 & H3). unfold ring_of. rewrite Hcn, Hcp.
    split; [done |]. split; [done |]. intros k'. rewrite Hidx. apply H3. }
  assert (forall j', j' <> j -> far (keep_state j k s) j' = far s j') as Hfar'.
  { intros j' Hne. rewrite Hfar.
    destruct (Qlt_le_dec _ _); [| done]. by rewrite decide_False. }
  assert (forall j', j' <> j -> rad (keep_state j k s) j' = rad s j') as Hrad'.
  { intros j' Hne. rewrite Hrad.
    destruct (Qlt_le_dec _ _); [| done]. by rewrite decide_False. }
  generalize dependent (keep_state j k s). intros s' Hlen' Hfar Hrad Hidx Hdst
    Hctr Hnxt Hprv Hcn Hcp Hring' Hfar' Hrad'.
  split; [| split; [done | split; [| split; [| split; [| split]]]]].
  - (* mid *)
    split; [| split; [| split; [| split; [| split; [| split; [| split;
      [| split]]]]]]].
    + split; [done |]. split; [done |]. split.
      * intros j' Hj'. rewrite Hctr. split; [by apply Hcf |].
        rewrite Hfar. destruct (Qlt_le_dec _ _); [| by apply Hcf].
        destruct (decide (j = j')); [done | by apply Hcf].
      * intros k' Hk'. rewrite Hnxt, Hprv, Hidx. by apply Hpts.
    + intros k' Hk'. rewrite Hdst, Hidx, Hctr. by apply Hdist.
    + intros k' j' Hk' Hj'. rewrite Hdst, Hidx, Hctr. by apply Hnear.
    + by rewrite Hctr.
    + intros j' Hj'. rewrite Hctr, Hidx. by apply Hcidx.
    + intros k' Hk'. rewrite Hidx, Hdst. by apply Hdone.
    + intros j' Hj' Hne. destruct (Hrings j' Hj' Hne) as [l Hl]. exists l.
      rewrite Hctr. by apply Hring'.
    + intros j' Hj'. apply (radius_ok_ext s); [apply Hfar' | apply Hrad' |
        done | done | by apply Hrok]; lia.
    + intros j' Hj'. apply (radius_pending_ext s); [apply Hfar' | apply Hrad' |
        done | done | done | by apply Hpend]; lia.
  - (* the ring of [j] *)
    rewrite Hctr, <- app_assoc. by apply Hring'.
  - intros k' Hk'. rewrite Hdst. rewrite Hctr in Hk'.
    rewrite app_comm_cons in Hk'. apply elem_of_app in Hk' as [Hk' | Hk'].
    + by apply Hnew.
    + apply list_elem_of_singleton in Hk' as ->. done.
  - rewrite Hctr, Hfar, app_comm_cons.
    destruct (Qlt_le_dec _ _); [rewrite decide_True by done |].
    + apply elem_of_app. right. apply list_elem_of_here.
    + apply elem_of_app. by left.
  - rewrite Hdst, Hfar, Hrad.
    destruct (Qlt_le_dec _ _); [by rewrite !decide_True by done | done].
  - intros k' Hk'. rewrite Hdst, Hrad. rewrite Hctr in Hk'.
    rewrite app_comm_cons in Hk'. apply elem_of_app in Hk' as [Hk' | Hk'].
    + specialize (Hbound k' Hk').
      destruct (Qlt_le_dec _ _); [rewrite decide_True by done; qlra | done].
    + apply list_elem_of_singleton in Hk' as ->.
      destruct (Qlt_le_dec _ _); [rewrite decide_True by done; qlra | done].
Qed.


Lemma sel_insert_below n (v : list N) a x :
  (forall k', (N.to_nat k' < n)%nat -> (N.to_nat (sel 0%N v k') < n)%nat) ->
  (N.to_nat x < n)%nat ->
  forall k', (N.to_nat k' < n)%nat ->
    (N.to_nat (sel 0%N (<[N.to_nat a := x]> v) k') < n)%nat.
Proof.
  intros Hv Hx k' Hk'. destruct (decide (N.to_nat a < length v)%nat) as [Ha | Ha].
  - rewrite sel_insert by done. destruct (decide (a = k')); [done | by apply Hv].
  - rewrite list_insert_ge by lia. by apply Hv.
Qed.

Lemma ring_of_all_below s j' c l :
  ring_of source s j' c l -> all_below (length (rows source)) (c :: l).
Proof.
  intros (_ & _ & Hm). apply Forall_forall. intros x Hx. by apply Hm.
Qed.

(** What the [while] loop reads before its body: the next member and the
    neighbours of [k] and of the new centre are points. *)
Lemma walking_next kept k todo s :
  walking kept (k :: todo) s ->
  nxt s k = hd (ctr s j) todo /\ k <> ctr s j
  /\ inr k /\ inr nc /\ inr (prv s k) /\ inr (nxt s k) /\ inr (nxt s nc)
  /\ idx s k = j.
Proof.
  intros (Hmid & Hji & Hring & _).
  destruct Hmid as (Hweak & _ & _ & Hctri & _).
  destruct Hweak as (Hlen & HiK & Hcf & Hpts).
  pose proof Hring as (Hc & Hnd & Hm).
  assert (inr k /\ idx s k = j) as [Hkr Hkj].
  { apply Hm. apply list_elem_of_further, elem_of_middle. }
  assert (inr nc) as Hnc.
  { rewrite <- Hctri. apply Hcf. lia. }
  apply chain_app in Hc as [_ Hc2].
  split; [apply (chain_next _ _ _ _ _ Hc2) |].
  split.
  { intros ->. apply NoDup_cons in Hnd as [Hnd _]. apply Hnd, elem_of_middle. }
  destruct (Hpts k Hkr) as (H1 & H2 & _). destruct (Hpts nc Hnc) as (H3 & _).
  done.
Qed.

(** The member [k] is nearer to the new centre and moves to cluster [i]. *)
Lemma walking_move kept k todo s :
  walking kept (k :: todo) s ->
  (sq k nc < dst s k)%Q ->
  walking kept todo (move_state i nc k (sq k nc) s).
Proof.
  intros Hw Hdd. pose proof (walking_next _ _ _ _ Hw) as
    (Hnext & Hkct & Hkr & Hncr & Hpkr & Hnkr & Hnnr & Hkj).
  destruct Hw as (Hmid & Hji & Hring & Hnew & Hfarin & Hfarrad & Hbound).
  destruct Hmid as (Hweak & Hdist & Hnear & Hctri & Hcidx & Hdone & Hrings
                    & Hrok & Hpend).
  destruct Hweak as (Hlen & HiK & Hcf & Hpts).
  assert (N.to_nat i < K)%nat as HiK' by lia.
  assert (i <> j) as Hij by lia.
  destruct (Hrings i ltac:(lia) (or_intror eq_refl)) as [m Hringi].
  rewrite Hctri in Hringi.
  set (dd := sq k nc) in *.
  (* the state after the move, read *)
  pose proof (move_lengths source K i nc k dd s Hlen) as Hlen'.
  pose proof (move_far source K i nc k dd s Hlen HiK') as Hfar.
  pose proof (move_rad source K i nc k dd s Hlen HiK') as Hrad.
  pose proof (move_idx source K i nc k dd s Hlen HiK' Hkr) as Hidx.
  pose proof (move_dst source K i nc k dd s Hlen HiK' Hkr) as Hdst.
  pose proof (move_ctr i nc k dd s) as Hctr.
  (* the rings after the move *)
  pose proof Hring as (Hc & Hnd & Hm).
  pose proof Hringi as (Hci & Hndi & Hmi).
  pose proof Hlen as (_ & _ & _ & Lp & Ln & _ & _).
  assert (forall x, x ∈ ctr s j :: kept ++ k :: todo -> x ∉ nc :: m) as Hdis.
  { intros x Hx Hxi. apply Hm in Hx as [_ Hx]. apply Hmi in Hxi as [_ Hxi].
    congruence. }
  pose proof (chain_move (length (rows source)) (cnext s) (cprev s)
                (ctr s j) kept k todo nc m Ln Lp
                (ring_of_all_below _ _ _ _ Hring)
                (ring_of_all_below _ _ _ _ Hringi) Hc Hnd Hci Hndi Hdis)
    as (Hcj' & Hci' & _ & _ & _ & _ & Hframe).
  cbn zeta in Hcj', Hci', Hframe.
  change (sel 0%N (cprev s) k) with (prv s k) in Hcj', Hci', Hframe.
  change (sel 0%N (cnext s) k) with (nxt s k) in Hcj', Hci', Hframe.
  assert (forall k', inr k' ->
            inr (nxt (move_state i nc k dd s) k')
            /\ inr (prv (move_state i nc k dd s) k')) as Hpts'.
  { intros k' Hk'. unfold nxt, prv, move_state, in_range in *. sproj.
    assert (N.to_nat (sel 0%N (<[N.to_nat (sel 0%N (cprev s) k) :=
              sel 0%N (cnext s) k]> (cnext s)) nc) < length (rows source))%nat
      as Hh.
    { apply sel_insert_below; [| done..]. intros x Hx. by apply Hpts. }
    split.
    - repeat (apply sel_insert_below; [| done..]). intros x Hx. by apply Hpts.
    - apply sel_insert_below; [| done..].
      apply sel_insert_below; [| done..].
      apply sel_insert_below; [| done..]. intros x Hx. by apply Hpts. }
  assert (chain (cnext (move_state i nc k dd s)) (cprev (move_state i nc k dd s))
                (ctr s j) (kept ++ todo) (ctr s j)) as Hcj'' by exact Hcj'.
  assert (chain (cnext (move_state i nc k dd s)) (cprev (move_state i nc k dd s))
                nc (k :: m) nc) as Hci'' by exact Hci'.
  assert (forall e l, chain (cnext s) (cprev s) e l e ->
            (forall x, x ∈ e :: l -> x ∉ ctr s j :: kept ++ k :: todo) ->
            (forall x, x ∈ e :: l -> x ∉ nc :: m) ->
            chain (cnext (move_state i nc k dd s))
                  (cprev (move_state i nc k dd s)) e l e) as Hframe'
    by exact Hframe.
  clear Hcj' Hci' Hframe.
  generalize dependent (move_state i nc k dd s).
  intros s' Hlen' Hfar Hrad Hidx Hdst Hctr Hpts' Hcj' Hci' Hframe.
  assert (idx s' k = i) as Hidxk by (by rewrite Hidx, decide_True).
  assert (forall k', k' <> k -> idx s' k' = idx s k') as Hidxn
    by (intros k' Hne; by rewrite Hidx, decide_False).
  assert (dst s' k = dd) as Hdstk by (by rewrite Hdst, decide_True).
  assert (forall k', k' <> k -> dst s' k' = dst s k') as Hdstn
    by (intros k' Hne; by rewrite Hdst, decide_False).
  assert (forall j', j' <> i -> far s' j' = far s j') as Hfarn.
  { intros j' Hne. rewrite Hfar. destruct (Qlt_le_dec _ _); [| done].
    by rewrite decide_False. }
  assert (forall j', j' <> i -> rad s' j' = rad s j') as Hradn.
  { intros j' Hne. rewrite Hrad. destruct (Qlt_le_dec _ _); [| done].
    by rewrite decide_False. }
  assert (forall j', j' <> j -> (j' <= i)%N -> ctr s j' <> k) as Hctrk.
  { intros j' Hne Hle E. apply Hne. rewrite <- (Hcidx j' Hle), E. done. }
  assert (forall j', j' <> i -> j' <> j -> radius_ok source s j' ->
            radius_ok source s' j') as Hrok'.
  { intros j' Hni Hnj (H1 & H2 & H3 & H4). unfold radius_ok, radius_bounds.
    assert (far s j' <> k) as Hfk by (intros E; rewrite E in H1; congruence).
    rewrite Hfarn, Hradn, Hidxn, Hdstn by done.
    split; [done |]. split; [done |]. split; [done |].
    intros k' Hk' Hk'j. destruct (decide (k' = k)) as [-> | Hne].
    - rewrite Hidxk in Hk'j. congruence.
    - rewrite Hidxn in Hk'j by done. rewrite Hdstn by done. by apply H4. }
  assert ((k ∉ ctr s j :: kept) /\ (k ∉ todo)) as [Hkk Hkt].
  { rewrite app_comm_cons in Hnd. apply NoDup_app in Hnd as (_ & H2 & H3).
    split.
    - intros Hin. apply (H2 _ Hin). apply list_elem_of_here.
    - by apply NoDup_cons in H3 as [H3 _]. }
  split; [| split; [done | split; [| split; [| split; [| split]]]]].
  - (* mid *)
    split; [| split; [| split; [| split; [| split; [| split; [| split;
      [| split]]]]]]].
    + split; [done |]. split; [done |]. split.
      * intros j' Hj'. rewrite Hctr. split; [by apply Hcf |].
        rewrite Hfar. destruct (Qlt_le_dec _ _); [| by apply Hcf].
        destruct (decide (i = j')); [done | by apply Hcf].
      * intros k' Hk'. split; [by apply Hpts' |]. split; [by apply Hpts' |].
        rewrite Hidx. destruct (decide (k = k')); [lia | by apply Hpts].
    + intros k' Hk'. rewrite Hctr. destruct (decide (k' = k)) as [-> | Hne].
      * rewrite Hdstk, Hidxk, Hctri. done.
      * rewrite Hdstn, Hidxn by done. by apply Hdist.
    + intros k' j' Hk' Hj'. rewrite Hctr. destruct (decide (k' = k)) as [-> | Hne].
      * rewrite Hdstk, Hidxk. destruct (Hnear k j' Hkr Hj') as [H1 _].
        split; [| intros _]; qlra.
      * rewrite Hdstn, Hidxn by done. by apply Hnear.
    + by rewrite Hctr.
    + intros j' Hj'. rewrite Hctr. destruct (decide (j' = j)) as [-> | Hne].
      * rewrite Hidxn; [by apply Hcidx |]. intros E. apply Hkk. rewrite <- E.
        apply list_elem_of_here.
      * rewrite Hidxn; [by apply Hcidx |]. by apply Hctrk.
    + intros k' Hk' Hlt. destruct (decide (k' = k)) as [-> | Hne].
      * rewrite Hidxk in Hlt. lia.
      * rewrite Hidxn in Hlt by done. rewrite Hdstn by done. by apply Hdone.
    + intros j' Hj' Hne. rewrite Hctr. destruct (decide (j' = i)) as [-> | Hni].
      * exists (k :: m). rewrite Hctri. split; [done |]. split.
        { apply NoDup_cons. split; [| apply NoDup_cons; split].
          - apply NoDup_cons in Hndi as [H _]. rewrite not_elem_of_cons.
            split; [| done]. intros ->. apply (Hdis k); [| apply list_elem_of_here].
            apply list_elem_of_further, elem_of_middle.
          - intros Hin. apply (Hdis k).
            + apply list_elem_of_further, elem_of_middle.
            + by apply list_elem_of_further.
          - by apply NoDup_cons in Hndi as [_ H]. }
        intros k'. destruct (decide (k' = k)) as [-> | Hnek].
        { rewrite Hidxk. split; [done |]. intros _.
          apply list_elem_of_further, list_elem_of_here. }
        rewrite Hidxn by done. rewrite <- Hmi.
        rewrite !elem_of_cons. tauto.
      * destruct (Hrings j' Hj' Hne) as [l (H1 & H2 & H3)]. exists l.
        assert (j' <> j) as Hnj by (by destruct Hne).
        split; [| split; [done |]].
        { apply Hframe; [done | |].
          - intros x Hx Hxj. apply H3 in Hx as [_ Hx]. apply Hm in Hxj as [_ Hxj].
            congruence.
          - intros x Hx Hxi. apply H3 in Hx as [_ Hx]. apply Hmi in Hxi as [_ Hxi].
            congruence. }
        intros k'. destruct (decide (k' = k)) as [-> | Hnek].
        { rewrite Hidxk, H3, Hkj. split; intros [_ E]; congruence. }
        rewrite Hidxn by done. apply H3.
    + intros j' [Hj' | ->].
      * apply Hrok'; [lia | lia |]. apply Hrok. by left.
      * destruct (Hrok i (or_intror eq_refl)) as (H1 & H2 & H3 & H4).
        unfold radius_ok, radius_bounds. rewrite Hfar, Hrad.
        destruct (Qlt_le_dec (rad s i) dd) as [Hlt | Hle].
        { rewrite !decide_True by done. rewrite Hidxk, Hdstk.
          split; [done |]. split; [done |]. split; [done |].
          intros k' Hk' Hk'i. destruct (decide (k' = k)) as [-> | Hnek].
          - rewrite Hdstk. qlra.
          - rewrite Hidxn in Hk'i by done. rewrite Hdstn by done.
            specialize (H4 k' Hk' Hk'i). qlra. }
        assert (far s i <> k) as Hfk by (intros E; rewrite E in H1; congruence).
        rewrite Hidxn, Hdstn by done.
        split; [done |]. split; [done |]. split; [done |].
        intros k' Hk' Hk'i. destruct (decide (k' = k)) as [-> | Hnek].
        { rewrite Hdstk. done. }
        rewrite Hidxn in Hk'i by done. rewrite Hdstn by done. by apply H4.
    + intros j' Hj'. destruct (Hpend j' Hj') as [H1 H2].
      unfold radius_pending, radius_bounds. rewrite Hradn, Hctr by lia. split.
      * intros k' Hk' Hk'j. destruct (decide (k' = k)) as [-> | Hnek].
        { rewrite Hidxk in Hk'j. lia. }
        rewrite Hidxn in Hk'j by done. rewrite Hdstn by done. by apply H1.
      * destruct H2 as [H2 | H2]; [left | by right]. apply Hrok'; [lia | lia | done].
  - (* the ring of [j] *)
    rewrite Hctr. split; [done |]. split.
    + rewrite app_comm_cons in Hnd |- *. apply NoDup_app in Hnd as (H1 & H2 & H3).
      apply NoDup_app. split; [done |]. split.
      * intros x Hx Hxt. apply (H2 x Hx). by apply list_elem_of_further.
      * by apply NoDup_cons in H3 as [_ H3].
    + intros k'. destruct (decide (k' = k)) as [-> | Hnek].
      * rewrite Hidxk. split; [| intros [_ E]; congruence].
        rewrite app_comm_cons, elem_of_app. intros [H | H]; done.
      * rewrite Hidxn by done. rewrite <- Hm.
        rewrite !app_comm_cons, !elem_of_app, (elem_of_cons todo).
        clear -Hnek. intuition congruence.
  - intros k' Hk'. rewrite Hctr in Hk'. rewrite Hdstn; [by apply Hnew |].
    intros ->. done.
  - rewrite Hctr, Hfarn by done. done.
  - rewrite Hfarn, Hradn by done. rewrite Hdstn; [done |].
    intros E. apply Hkk. by rewrite <- E.
  - intros k' Hk'. rewrite Hctr in Hk'. rewrite Hradn by done.
    rewrite Hdstn; [by apply Hbound |]. intros ->. done.
Qed.

End WalkFacts.

(** ** The scan of one cluster *)

Lemma NoDup_below_length n (l : list N) :
  NoDup l -> all_below n l -> (length l <= n)%nat.
Proof.
  intros Hnd Hb.
  assert (N.to_nat <$> l ⊆+ seq 0 n) as Hsub.
  { apply NoDup_submseteq.
    - apply NoDup_fmap_2; [| done]. intros x y. apply N2Nat.inj.
    - intros x Hx. apply list_elem_of_fmap in Hx as (y & -> & Hy).
      apply list_elem_of_In, in_seq.
      pose proof (proj1 (Forall_forall _ _) Hb y Hy). cbn in *. lia. }
  apply submseteq_length in Hsub. by rewrite length_fmap, length_seq in Hsub.
Qed.

Section ScanFacts.

Variable source : mat.
Variable K : nat.
Hypothesis source_wf : mat_wf source.
Variables (i nc : N).

Local Abbreviation inr := (in_range source).
Local Abbreviation sq := (sqdist source).

Lemma point_length k : inr k -> length (point source k) = N.to_nat (n_cols source).
Proof.
  intros Hk. destruct source_wf as [Hrows _]. unfold point.
  destruct (lookup_lt_is_Some_2 (rows source) (N.to_nat k) Hk) as [r Hr].
  rewrite Hr. by apply (proj1 (Forall_lookup _ _) Hrows _ _ Hr).
Qed.

Lemma sq_self k : (sq k k == 0)%Q.
Proof. apply ddist_self. Qed.

Lemma sq_nonneg k c : (0 <= sq k c)%Q.
Proof. apply ddist_nonneg. Qed.

Lemma sq_sym k c : (sq k c == sq c k)%Q.
Proof. apply ddist_sym. Qed.

(** The pruning test is sound: a member within a quarter of the squared
    distance between the centres is not nearer to the new one. *)
Lemma sq_pruned k c :
  inr k -> inr c -> inr nc ->
  (sq k c <= sq c nc / 4)%Q -> (sq k c <= sq k nc)%Q.
Proof.
  intros Hk Hc Hnc. apply ddist_pruned; rewrite !point_length; done.
Qed.

(** The walk from any member on ends with the whole ring seen. *)
Lemma walk_spec j dc2cq todo : forall kept s fuel,
  walking source K i nc j kept todo s ->
  (length todo <= fuel)%nat ->
  (dc2cq == sq (ctr s j) nc / 4)%Q ->
  exists s' kept',
    walk fuel source i j nc (ctr s j) dc2cq (hd (ctr s j) todo) s = Ok s'
    /\ walking source K i nc j kept' [] s'
    /\ centers s' = centers s.
Proof.
  induction todo as [| k todo IH]; intros kept s fuel Hw Hfuel Hdc.
  - exists s, kept. split; [| done]. cbn [hd].
    destruct fuel; cbn [walk]; by rewrite N.eqb_refl.
  - destruct fuel as [| fuel]; [cbn in Hfuel; lia |].
    pose proof (walking_next _ _ _ _ _ _ _ _ _ Hw) as
      (Hnext & Hkct & Hkr & Hncr & Hpkr & Hnkr & Hnnr & Hkj).
    pose proof Hw as (Hmid & Hji & Hring & _).
    pose proof Hmid as (Hweak & Hdist & _ & _ & Hcidx & _).
    pose proof Hweak as (Hlen & HiK & Hcf & _).
    cbn [hd walk]. destruct (N.eqb_spec k (ctr s j)) as [E | _]; [done |].
    rewrite (walk_step_ok source K) by (done || lia). rewrite bind_Ok.
    assert (forall s0, centers (keep_state j k s0) = centers s0) as Hkc.
    { intros s0. unfold keep_state. by destruct (Qlt_le_dec _ _). }
    assert (exists s1 kept1,
              step_state source i j nc dc2cq k s = s1
              /\ walking source K i nc j kept1 todo s1
              /\ centers s1 = centers s) as (s1 & kept1 & Hs1 & Hw1 & Hc1).
    { unfold step_state.
      destruct (Qlt_le_dec dc2cq (dst s k)) as [Hfar | Hnear].
      - cbn zeta. fold (sq k nc).
        destruct (Qlt_le_dec (sq k nc) (dst s k)) as [Hmove | Hstay].
        + eexists _, kept. split; [reflexivity |].
          split; [by apply walking_move | reflexivity].
        + eexists _, (kept ++ [k]). split; [reflexivity |].
          split; [by apply walking_keep | apply Hkc].
      - eexists _, (kept ++ [k]). split; [reflexivity |].
        split; [| apply Hkc]. apply walking_keep; [done |].
        pose proof (Hdist k Hkr) as Hdk. rewrite Hkj in Hdk.
        rewrite Hdk. apply sq_pruned; [done | apply Hcf; lia | done |].
        rewrite <- Hdk, <- Hdc. done. }
    assert (ctr s1 j = ctr s j) as Hc1' by (unfold ctr; by rewrite Hc1).
    rewrite Hs1, Hnext, <- Hc1'.
    destruct (IH kept1 s1 fuel Hw1) as (s' & kept' & Hrun & Hw' & Hc');
      [cbn in Hfuel; lia | by rewrite Hc1' |].
    exists s', kept'. split; [done |]. split; [done |]. congruence.
Qed.

(** Lines 141-143: the walk starts with nothing kept. *)
Lemma walking_reset j l s :
  mid source K i nc j s -> (j < i)%N ->
  ring_of source s j (ctr s j) l ->
  walking source K i nc j [] l (reset_state j (ctr s j) s).
Proof.
  intros Hmid Hji Hring.
  destruct Hmid as (Hweak & Hdist & Hnear & Hctri & Hcidx & Hdone & Hrings
                    & Hrok & Hpend).
  destruct Hweak as (Hlen & HiK & Hcf & Hpts).
  pose proof Hlen as (Lc & Lf & Lr & Lp & Ln & Ld & Li).
  assert (N.to_nat j < K)%nat as HjK by lia.
  set (s' := reset_state j (ctr s j) s).
  assert (forall j', far s' j' = if decide (j = j') then ctr s j else far s j')
    as Hfar.
  { intros j'. unfold s', reset_state, far; sproj. rewrite sel_insert by lia. done. }
  assert (forall j', rad s' j' = if decide (j = j') then 0%Q else rad s j')
    as Hrad.
  { intros j'. unfold s', reset_state, rad; sproj. rewrite sel_insert by lia. done. }
  assert (forall j', j' <> j -> far s' j' = far s j') as Hfar'
    by (intros j' Hne; by rewrite Hfar, decide_False).
  assert (forall j', j' <> j -> rad s' j' = rad s j') as Hrad'
    by (intros j' Hne; by rewrite Hrad, decide_False).
  assert (inr (ctr s j)) as Hct by (apply Hcf; lia).
  assert (dst s (ctr s j) == 0)%Q as Hd0.
  { rewrite (Hdist _ Hct), Hcidx by lia. apply sq_self. }
  split; [| split; [done | split; [done | split; [| split; [| split]]]]].
  - split; [| split; [done | split; [done | split; [done | split; [done |
      split; [done | split; [done | split]]]]]]].
    + split.
      { unfold lengths_ok, s', reset_state; sproj. by rewrite !length_insert. }
      split; [done |]. split; [| done].
      intros j' Hj'. split; [by apply Hcf |]. rewrite Hfar.
      destruct (decide (j = j')); [done | by apply Hcf].
    + intros j' Hj'. apply (radius_ok_ext source s);
        [apply Hfar' | apply Hrad' | done | done | by apply Hrok]; lia.
    + intros j' Hj'. apply (radius_pending_ext source nc s);
        [apply Hfar' | apply Hrad' | done | done | done | by apply Hpend]; lia.
  - intros k Hk. change (ctr s' j) with (ctr s j) in Hk.
    apply list_elem_of_singleton in Hk as ->.
    change (dst s' (ctr s j)) with (dst s (ctr s j)).
    pose proof (sq_nonneg (ctr s j) nc). qlra.
  - rewrite Hfar, decide_True by done. apply list_elem_of_here.
  - rewrite Hfar, Hrad, !decide_True by done. exact Hd0.
  - intros k Hk. change (ctr s' j) with (ctr s j) in Hk.
    apply list_elem_of_singleton in Hk as ->.
    rewrite Hrad, decide_True by done.
    change (dst s' (ctr s j)) with (dst s (ctr s j)). qlra.
Qed.

(** The walk is over: cluster [j] is settled. *)
Lemma walking_done j kept s :
  walking source K i nc j kept [] s -> between source K i nc (j + 1) s.
Proof.
  intros (Hmid & Hji & Hring & Hnew & Hfarin & Hfarrad & Hbound).
  destruct Hmid as (Hweak & Hdist & Hnear & Hctri & Hcidx & Hdone & Hrings
                    & Hrok & Hpend).
  rewrite app_nil_r in Hring. pose proof Hring as (_ & _ & Hm).
  split.
  - split; [done |]. split; [done |]. split; [done |]. split; [done |].
    split; [done |]. split; [| split; [| split]].
    + intros k Hk Hlt. destruct (decide (idx s k = j)) as [E | Hne].
      * apply Hnew, Hm. done.
      * apply Hdone; [done | lia].
    + intros j' Hj' Hne. destruct (decide (j' = j)) as [-> | Hnej].
      * by exists kept.
      * apply Hrings; [done | by left].
    + intros j' Hj'. destruct (decide (j' = j)) as [-> | Hnej].
      * unfold radius_ok, radius_bounds. apply Hm in Hfarin as [H1 H2].
        split; [done |]. split; [done |]. split; [done |].
        intros k Hk Hkj. apply Hbound, Hm. done.
      * apply Hrok. destruct Hj' as [Hj' | ->]; [left; lia | by right].
    + intros j' Hj'. apply Hpend. lia.
  - intros Hlt. split.
    + apply Hrings; [lia | left; lia].
    + apply Hpend. lia.
Qed.

(** One pass of the loop over the older clusters. *)
Lemma scan_cluster_spec j s :
  between source K i nc j s -> (j < i)%N ->
  exists s',
    scan_cluster (length (rows source)) source i nc j s = Ok s'
    /\ between source K i nc (j + 1) s'
    /\ centers s' = centers s.
Proof.
  intros [Hmid Hj] Hji. destruct (Hj Hji) as [[l Hring] [Hub Hpend]].
  pose proof Hmid as (Hweak & Hdist & Hnear & Hctri & Hcidx & Hdone & Hrings
                      & Hrok & Hpend').
  pose proof Hweak as (Hlen & HiK & Hcf & Hpts).
  pose proof Hlen as (Lc & Lf & Lr & Lp & Ln & Ld & Li).
  assert (inr (ctr s j)) as Hct by (apply Hcf; lia).
  assert (inr nc) as Hnc by (rewrite <- Hctri; apply Hcf; lia).
  unfold scan_cluster.
  rewrite (at_sel 0%N) by lia. rewrite bind_Ok. fold (ctr s j).
  rewrite !(row_point source) by done. rewrite !bind_Ok. cbn zeta.
  fold (sq (ctr s j) nc). unfold get_radius.
  rewrite (at_sel 0%Q) by lia. rewrite bind_Ok. fold (rad s j).
  destruct (Qlt_le_dec (sq (ctr s j) nc / 4) (rad s j)) as [Hwalk | Hskip].
  - unfold set_radius, set_far2c. mrun.
    pose proof Hct as Hct'. unfold in_range in Hct'.
    rewrite (at_sel 0%N (cnext s)) by lia. rewrite bind_Ok.
    change (with_far2c (with_radius s (<[N.to_nat j := 0%Q]> (radius s)))
              (<[N.to_nat j := ctr s j]> (far2c s)))
      with (reset_state j (ctr s j) s).
    pose proof (walking_reset j l s Hmid Hji Hring) as Hw.
    pose proof Hring as (Hc & Hnd & Hm).
    rewrite (chain_next _ _ _ _ _ Hc).
    destruct (walk_spec j (sq (ctr s j) nc / 4) l [] (reset_state j (ctr s j) s)
                (length (rows source)) Hw) as (s' & kept' & Hrun & Hw' & Hc').
    + pose proof (NoDup_below_length _ _ Hnd (ring_of_all_below _ _ _ _ _ Hring)).
      cbn [length] in *. lia.
    + done.
    + exists s'. split; [exact Hrun |].
      split; [by apply (walking_done j kept') | exact Hc'].
  - exists s. split; [done |]. split; [| done].
    pose proof Hring as (_ & _ & Hm).
    assert (radius_ok source s j) as Hrokj.
    { destruct Hpend as [H | H]; [done | qlra]. }
    split.
    + split; [done |]. split; [done |]. split; [done |]. split; [done |].
      split; [done |]. split; [| split; [| split]].
      * intros k Hk Hlt. destruct (decide (idx s k = j)) as [E | Hne].
        -- pose proof (Hdist k Hk) as Hdk. rewrite E in Hdk. rewrite Hdk.
           apply sq_pruned; [done..|]. rewrite <- Hdk.
           specialize (Hub k Hk E). qlra.
        -- apply Hdone; [done | lia].
      * intros j' Hj' Hne. destruct (decide (j' = j)) as [-> | Hnej].
        -- by exists l.
        -- apply Hrings; [done | by left].
      * intros j' Hj'. destruct (decide (j' = j)) as [-> | Hnej]; [done |].
        apply Hrok. destruct Hj' as [Hj' | ->]; [left; lia | by right].
      * intros j' Hj'. apply Hpend'. lia.
    + intros Hlt. split.
      * apply Hrings; [lia | left; lia].
      * apply Hpend'. lia.
Qed.

End ScanFacts.

(** ** Largest and smallest elements *)

Lemma max_element_from_spec l : forall bi b i0,
  let r := max_element_from bi b i0 l in
  (r = bi /\ forall y, y ∈ l -> (y <= b)%Q)
  \/ (exists p x, r = (i0 + N.of_nat p)%N /\ l !! p = Some x /\ (b < x)%Q
                 /\ forall y, y ∈ l -> (y <= x)%Q).
Proof.
  induction l as [| x l IH]; intros bi b i0; cbn [max_element_from].
  - left. split; [done |]. intros y Hy. by apply elem_of_nil in Hy.
  - destruct (Qlt_le_dec b x) as [Hlt | Hle].
    + destruct (IH i0 x (i0 + 1)%N) as [[Hr Hmax] | (p & x' & Hr & Hp & Hx & Hmax)].
      * right. exists 0%nat, x. rewrite Hr. split; [lia |]. split; [done |].
        split; [done |]. intros y Hy. apply elem_of_cons in Hy as [-> | Hy];
          [qlra | by apply Hmax].
      * right. exists (S p), x'. rewrite Hr. split; [lia |]. split; [done |].
        split; [qlra |]. intros y Hy. apply elem_of_cons in Hy as [-> | Hy];
          [qlra | by apply Hmax].
    + destruct (IH bi b (i0 + 1)%N) as [[Hr Hmax] | (p & x' & Hr & Hp & Hx & Hmax)].
      * left. split; [done |]. intros y Hy.
        apply elem_of_cons in Hy as [-> | Hy]; [done | by apply Hmax].
      * right. exists (S p), x'. rewrite Hr. split; [lia |]. split; [done |].
        split; [done |]. intros y Hy. apply elem_of_cons in Hy as [-> | Hy];
          [qlra | by apply Hmax].
Qed.

(** [max_element] points at a largest element. *)
Lemma max_element_spec l :
  l <> [] ->
  (N.to_nat (max_element l) < length l)%nat
  /\ forall y, y ∈ l -> (y <= sel 0%Q l (max_element l))%Q.
Proof.
  destruct l as [| x l]; [done | intros _]. cbn [max_element].
  destruct (max_element_from_spec l 0%N x 1%N)
    as [[Hr Hmax] | (p & x' & Hr & Hp & Hx & Hmax)]; rewrite Hr.
  - split; [cbn; lia |]. intros y Hy. change (sel 0%Q (x :: l) 0) with x.
    apply elem_of_cons in Hy as [-> | Hy]; [qlra | by apply Hmax].
  - split; [apply lookup_lt_Some in Hp; cbn; lia |].
    assert (sel 0%Q (x :: l) (1 + N.of_nat p) = x') as ->.
    { apply sel_lookup. replace (N.to_nat (1 + N.of_nat p)) with (S p) by lia.
      exact Hp. }
    intros y Hy. apply elem_of_cons in Hy as [-> | Hy]; [qlra | by apply Hmax].
Qed.

Lemma max_element_last_from_spec l : forall bi b i0,
  let r := max_element_last_from bi b i0 l in
  (r = bi /\ forall y, y ∈ l -> (y <= b)%Q)
  \/ (exists p x, r = (i0 + N.of_nat p)%N /\ l !! p = Some x /\ (b <= x)%Q
                 /\ forall y, y ∈ l -> (y <= x)%Q).
Proof.
  induction l as [| x l IH]; intros bi b i0; cbn [max_element_last_from].
  - left. split; [done |]. intros y Hy. by apply elem_of_nil in Hy.
  - destruct (Qlt_le_dec x b) as [Hlt | Hle].
    + destruct (IH bi b (i0 + 1)%N) as [[Hr Hmax] | (p & x' & Hr & Hp & Hx & Hmax)].
      * left. split; [done |]. intros y Hy.
        apply elem_of_cons in Hy as [-> | Hy]; [qlra | by apply Hmax].
      * right. exists (S p), x'. rewrite Hr. split; [lia |]. split; [done |].
        split; [done |]. intros y Hy. apply elem_of_cons in Hy as [-> | Hy];
          [qlra | by apply Hmax].
    + destruct (IH i0 x (i0 + 1)%N) as [[Hr Hmax] | (p & x' & Hr & Hp & Hx & Hmax)].
      * right. exists 0%nat, x. rewrite Hr. split; [lia |]. split; [done |].
        split; [done |]. intros y Hy. apply elem_of_cons in Hy as [-> | Hy];
          [qlra | by apply Hmax].
      * right. exists (S p), x'. rewrite Hr. split; [lia |]. split; [done |].
        split; [qlra |]. intros y Hy. apply elem_of_cons in Hy as [-> | Hy];
          [qlra | by apply Hmax].
Qed.

Lemma max_element_last_spec l :
  l <> [] ->
  (N.to_nat (max_element_last l) < length l)%nat
  /\ forall y, y ∈ l -> (y <= sel 0%Q l (max_element_last l))%Q.
Proof.
  destruct l as [| x l]; [done | intros _]. cbn [max_element_last].
  destruct (max_element_last_from_spec l 0%N x 1%N)
    as [[Hr Hmax] | (p & x' & Hr & Hp & Hx & Hmax)]; rewrite Hr.
  - split; [cbn; lia |]. intros y Hy. change (sel 0%Q (x :: l) 0) with x.
    apply elem_of_cons in Hy as [-> | Hy]; [qlra | by apply Hmax].
  - split; [apply lookup_lt_Some in Hp; cbn; lia |].
    assert (sel 0%Q (x :: l) (1 + N.of_nat p) = x') as ->.
    { apply sel_lookup. replace (N.to_nat (1 + N.of_nat p)) with (S p) by lia.
      exact Hp. }
    intros y Hy. apply elem_of_cons in Hy as [-> | Hy]; [qlra | by apply Hmax].
Qed.

Lemma min_element_from_spec l : forall bi b i0,
  let r := min_element_from bi b i0 l in
  (r = bi /\ forall y, y ∈ l -> (b <= y)%Q)
  \/ (exists p x, r = (i0 + N.of_nat p)%N /\ l !! p = Some x /\ (x < b)%Q
                 /\ (forall y, y ∈ l -> (x <= y)%Q)
                 /\ forall p' y, (p' < p)%nat -> l !! p' = Some y -> (x < y)%Q).
Proof.
  induction l as [| x l IH]; intros bi b i0; cbn [min_element_from].
  - left. split; [done |]. intros y Hy. by apply elem_of_nil in Hy.
  - destruct (Qlt_le_dec x b) as [Hlt | Hle].
    + destruct (IH i0 x (i0 + 1)%N)
        as [[Hr Hmin] | (p & x' & Hr & Hp & Hx & Hmin & Hfirst)].
      * right. exists 0%nat, x. rewrite Hr. split; [lia |]. split; [done |].
        split; [done |]. split; [| intros; lia].
        intros y Hy. apply elem_of_cons in Hy as [-> | Hy];
          [qlra | by apply Hmin].
      * right. exists (S p), x'. rewrite Hr. split; [lia |]. split; [done |].
        split; [qlra |]. split.
        -- intros y Hy. apply elem_of_cons in Hy as [-> | Hy];
             [qlra | by apply Hmin].
        -- intros [| p'] y Hp' Hy; cbn in Hy.
           ++ injection Hy as <-. done.
           ++ apply (Hfirst p'); [lia | done].
    + destruct (IH bi b (i0 + 1)%N)
        as [[Hr Hmin] | (p & x' & Hr & Hp & Hx & Hmin & Hfirst)].
      * left. split; [done |]. intros y Hy.
        apply elem_of_cons in Hy as [-> | Hy]; [done | by apply Hmin].
      * right. exists (S p), x'. rewrite Hr. split; [lia |]. split; [done |].
        split; [done |]. split.
        -- intros y Hy. apply elem_of_cons in Hy as [-> | Hy];
             [qlra | by apply Hmin].
        -- intros [| p'] y Hp' Hy; cbn in Hy.
           ++ injection Hy as <-. qlra.
           ++ apply (Hfirst p'); [lia | done].
Qed.

(** [min_element] points at the first smallest element. *)
Lemma min_element_spec l :
  l <> [] ->
  (N.to_nat (min_element l) < length l)%nat
  /\ (forall y, y ∈ l -> (sel 0%Q l (min_element l) <= y)%Q)
  /\ forall p y, (p < N.to_nat (min_element l))%nat -> l !! p = Some y ->
       (sel 0%Q l (min_element l) < y)%Q.
Proof.
  destruct l as [| x l]; [done | intros _]. cbn [min_element].
  destruct (min_element_from_spec l 0%N x 1%N)
    as [[Hr Hmin] | (p & x' & Hr & Hp & Hx & Hmin & Hfirst)]; rewrite Hr.
  - split; [cbn; lia |]. split; [| intros; lia].
    intros y Hy. change (sel 0%Q (x :: l) 0) with x.
    apply elem_of_cons in Hy as [-> | Hy]; [qlra | by apply Hmin].
  - split; [apply lookup_lt_Some in Hp; cbn; lia |].
    assert (sel 0%Q (x :: l) (1 + N.of_nat p) = x') as ->.
    { apply sel_lookup. replace (N.to_nat (1 + N.of_nat p)) with (S p) by lia.
      exact Hp. }
    split.
    + intros y Hy. apply elem_of_cons in Hy as [-> | Hy]; [qlra | by apply Hmin].
    + intros [| p'] y Hp' Hy; cbn in Hy.
      * injection Hy as <-. done.
      * apply (Hfirst p'); [lia | done].
Qed.

(** The first smallest element is the only position with its two
    properties. *)
Lemma min_element_unique l j :
  (N.to_nat j < length l)%nat ->
  (forall y, y ∈ l -> (sel 0%Q l j <= y)%Q) ->
  (forall p y, (p < N.to_nat j)%nat -> l !! p = Some y -> (sel 0%Q l j < y)%Q) ->
  min_element l = j.
Proof.
  intros Hj Hmin Hfirst.
  assert (l <> []) as Hne by (intros ->; cbn in Hj; lia).
  destruct (min_element_spec l Hne) as (Hr & Hrmin & Hrfirst).
  set (r := min_element l) in *.
  destruct (N.lt_trichotomy r j) as [Hlt | [-> | Hgt]]; [| done |]; exfalso.
  - pose proof (Hfirst (N.to_nat r) _ ltac:(lia) (lookup_sel 0%Q l r Hr)) as H1.
    pose proof (Hrmin (sel 0%Q l j)) as H2.
    assert (sel 0%Q l j ∈ l) as Hin
      by (apply list_elem_of_lookup; exists (N.to_nat j); by apply lookup_sel).
    specialize (H2 Hin). qlra.
  - pose proof (Hrfirst (N.to_nat j) _ ltac:(lia) (lookup_sel 0%Q l j Hj)) as H1.
    pose proof (Hmin (sel 0%Q l r)) as H2.
    assert (sel 0%Q l r ∈ l) as Hin
      by (apply list_elem_of_lookup; exists (N.to_nat r); by apply lookup_sel).
    specialize (H2 Hin). qlra.
Qed.

(** ** One pass of the outer loop *)

Section IterationFacts.

Variable source : mat.
Variable K : nat.
Hypothesis source_wf : mat_wf source.

Local Abbreviation inr := (in_range source).
Local Abbreviation sq := (sqdist source).

(** [get_radius_idxmax(i)] is one of the first [i] clusters, of largest
    radius among them. *)
Lemma idxmax_spec i s :
  weak source K i s -> (0 < i)%N ->
  let jmax := max_element (take (N.to_nat i) (radius s)) in
  (jmax < i)%N /\ forall j, (j < i)%N -> (rad s j <= rad s jmax)%Q.
Proof.
  intros (Hlen & HiK & _) Hi jmax.
  pose proof Hlen as (_ & _ & Lr & _).
  assert (length (take (N.to_nat i) (radius s)) = N.to_nat i) as Ht
    by (apply length_take_le; lia).
  destruct (max_element_spec (take (N.to_nat i) (radius s))) as [Hj Hmax].
  { intros E. rewrite E in Ht. cbn in Ht. lia. }
  fold jmax in Hj, Hmax.
  assert (forall j, (j < i)%N ->
            sel 0%Q (take (N.to_nat i) (radius s)) j = rad s j) as Hsel.
  { intros j Hji. unfold rad, sel. rewrite lookup_take_lt by lia. done. }
  split; [lia |]. intros j Hji. rewrite <- (Hsel jmax) by lia.
  apply Hmax. rewrite <- (Hsel j Hji).
  apply list_elem_of_lookup. exists (N.to_nat j). apply lookup_sel. lia.
Qed.

Lemma promote_weak i nc s :
  weak source K i s -> (N.to_nat i < K)%nat -> inr nc ->
  weak source K (i + 1) (promote_state i nc s).
Proof.
  intros (Hlen & HiK & Hcf & Hpts) Hi Hnc.
  split; [by apply promote_lengths |]. split; [lia |]. split.
  - intros j Hj. rewrite (promote_ctr source K), (promote_far source K) by done.
    destruct (decide (i = j)); [done |]. apply Hcf. lia.
  - intros k Hk. split; [| split].
    + unfold nxt, promote_state, in_range in *. sproj.
      apply sel_insert_below; [| done..].
      apply sel_insert_below; [| first [done | by apply Hpts] ..].
      intros x Hx. by apply Hpts.
    + unfold prv, promote_state, in_range in *. sproj.
      apply sel_insert_below; [| done..].
      apply sel_insert_below; [| first [done | by apply Hpts] ..].
      intros x Hx. by apply Hpts.
    + rewrite (promote_idx source K) by done.
      destruct (decide (nc = k)); [lia |].
      destruct (Hpts k Hk) as (_ & _ & H). lia.
Qed.

(** The centre of a cluster is at distance zero from itself. *)
Lemma strong_center_dst i s j :
  weak source K i s -> strong source i s -> (j < i)%N ->
  (dst s (ctr s j) == 0)%Q.
Proof.
  intros (_ & _ & Hcf & _) (Hdist & _ & Hcidx & _) Hj.
  rewrite (Hdist (ctr s j)) by (by apply Hcf). rewrite Hcidx by done.
  apply ddist_self.
Qed.

(** While some radius is positive, the farthest point is promoted and the
    state is ready for the scan of the older clusters. *)
Lemma promote_regular i s :
  weak source K i s -> strong source i s ->
  (0 < i)%N -> (N.to_nat i < K)%nat ->
  let jmax := max_element (take (N.to_nat i) (radius s)) in
  let nc := far s jmax in
  (0 < rad s jmax)%Q ->
  promote i s = Ok (nc, promote_state i nc s)
  /\ between source K i nc 0 (promote_state i nc s).
Proof.
  intros Hweak Hstrong Hi0 HiK jmax nc Hpos.
  destruct (idxmax_spec i s Hweak Hi0) as [Hjmax Hmax]. fold jmax in Hjmax, Hmax.
  pose proof Hweak as (Hlen & HiK' & Hcf & Hpts).
  pose proof Hstrong as (Hdist & Hnear & Hcidx & Hrings & Hrok).
  destruct (Hrok jmax Hjmax) as (Hfi & Hfr & Hfd & Hfb). fold nc in Hfi, Hfr, Hfd.
  destruct (Hpts nc Hfr) as (Hnn & Hnp & _).
  split.
  { apply (promote_ok source K); (done || lia). }
  pose proof (promote_weak i nc s Hweak HiK Hfr) as Hweak'.
  pose proof (promote_ctr source K i nc s Hlen HiK) as Hctr.
  pose proof (promote_far source K i nc s Hlen HiK) as Hfar.
  pose proof (promote_rad source K i nc s Hlen HiK) as Hrad.
  pose proof (promote_dst source K i nc s Hlen HiK Hfr) as Hdst.
  pose proof (promote_idx source K i nc s Hlen HiK Hfr) as Hidx.
  (* the old centres are not the promoted point *)
  assert (forall j, (j < i)%N -> ctr s j <> nc) as Hcnc.
  { intros j Hj E. pose proof (strong_center_dst i s j Hweak Hstrong Hj) as H0.
    rewrite E in H0. qlra. }
  (* the rings *)
  destruct (Hrings jmax Hjmax) as [l Hring]. pose proof Hring as (Hc & Hnd & Hm).
  assert (nc ∈ l) as Hncl.
  { assert (nc ∈ ctr s jmax :: l) as Hin by (by apply Hm).
    apply elem_of_cons in Hin as [E | Hin]; [| done].
    exfalso. by apply (Hcnc jmax Hjmax). }
  apply list_elem_of_split in Hncl as (l1 & l2 & ->).
  pose proof Hlen as (_ & _ & _ & Lp & Ln & _ & _).
  pose proof (chain_isolate (length (rows source)) (cnext s) (cprev s)
                (ctr s jmax) l1 nc l2 Ln Lp
                (ring_of_all_below _ _ _ _ _ Hring) Hc Hnd)
    as (Hcj & Hci & _ & _ & Hframe).
  cbn zeta in Hcj, Hci, Hframe.
  assert (chain (cnext (promote_state i nc s)) (cprev (promote_state i nc s))
                (ctr s jmax) (l1 ++ l2) (ctr s jmax)) as Hcj' by exact Hcj.
  assert (chain (cnext (promote_state i nc s)) (cprev (promote_state i nc s))
                nc [] nc) as Hci' by exact Hci.
  assert (forall e l, chain (cnext s) (cprev s) e l e ->
            (forall x, x ∈ e :: l -> x ∉ ctr s jmax :: l1 ++ nc :: l2) ->
            chain (cnext (promote_state i nc s)) (cprev (promote_state i nc s))
                  e l e) as Hframe' by exact Hframe.
  clear Hcj Hci Hframe.
  generalize dependent (promote_state i nc s).
  intros s' Hweak' Hctr Hfar Hrad Hdst Hidx Hcj Hci Hframe.
  assert (idx s' nc = i) as Hidxn by (by rewrite Hidx, decide_True).
  assert (forall k, k <> nc -> idx s' k = idx s k) as Hidxo.
  { intros k Hne. rewrite Hidx, decide_False; [done | congruence]. }
  assert (dst s' nc = 0%Q) as Hdstn by (by rewrite Hdst, decide_True).
  assert (forall k, k <> nc -> dst s' k = dst s k) as Hdsto.
  { intros k Hne. rewrite Hdst, decide_False; [done | congruence]. }
  assert (ctr s' i = nc) as Hctri by (by rewrite Hctr, decide_True).
  assert (forall j, (j < i)%N -> ctr s' j = ctr s j) as Hctro.
  { intros j Hj. rewrite Hctr, decide_False; [done | lia]. }
  assert (forall j, (j < i)%N -> far s' j = far s j) as Hfaro.
  { intros j Hj. rewrite Hfar, decide_False; [done | lia]. }
  assert (forall j, (j < i)%N -> rad s' j = rad s j) as Hrado.
  { intros j Hj. rewrite Hrad, decide_False; [done | lia]. }
  assert (forall k, inr k -> idx s' k = i -> k = nc) as Honly.
  { intros k Hk E. destruct (decide (k = nc)) as [-> | Hne]; [done |].
    rewrite Hidxo in E by done. destruct (Hpts k Hk) as (_ & _ & H). lia. }
  assert (forall j', (j' <= i)%N ->
            exists l', ring_of source s' j' (ctr s' j') l') as Hrings'.
  { intros j' Hj'. destruct (decide (j' = i)) as [-> | Hni].
    - exists []. rewrite Hctri. split; [done |]. split; [apply NoDup_singleton |].
      intros k. rewrite list_elem_of_singleton. split.
      + intros ->. done.
      + intros [Hk E]. by apply Honly.
    - assert (j' < i)%N as Hlt by lia. rewrite Hctro by done.
      destruct (decide (j' = jmax)) as [-> | Hnj].
      + exists (l1 ++ l2). split; [done |]. split.
        * rewrite app_comm_cons in Hnd |- *. apply NoDup_app in Hnd as (H1 & H2 & H3).
          apply NoDup_app. split; [done |]. split.
          -- intros x Hx Hxt. apply (H2 x Hx). by apply list_elem_of_further.
          -- by apply NoDup_cons in H3 as [_ H3].
        * intros k. destruct (decide (k = nc)) as [-> | Hne].
          -- rewrite Hidxn. split; [| intros [_ E]; lia].
             intros Hin. exfalso. rewrite app_comm_cons in Hnd, Hin.
             apply NoDup_app in Hnd as (_ & H2 & H3).
             apply elem_of_app in Hin as [Hin | Hin].
             ++ apply (H2 _ Hin). apply list_elem_of_here.
             ++ by apply NoDup_cons in H3 as [H3 _].
          -- rewrite Hidxo by done. rewrite <- Hm.
             rewrite !app_comm_cons, !elem_of_app, (elem_of_cons l2).
             clear -Hne. intuition congruence.
      + destruct (Hrings j' Hlt) as [l' (H1 & H2 & H3)]. exists l'.
        split; [| split; [done |]].
        * apply Hframe; [done |]. intros x Hx Hxj.
          apply H3 in Hx as [_ Hx]. apply Hm in Hxj as [_ Hxj]. congruence.
        * intros k. destruct (decide (k = nc)) as [-> | Hne].
          -- rewrite Hidxn, H3, Hfi. split; intros [_ E]; lia.
          -- rewrite Hidxo by done. apply H3. }
  assert (forall j', (j' < i)%N -> radius_pending source nc s' j') as Hpend'.
  { intros j' Hj'. destruct (Hrok j' Hj') as (H1 & H2 & H3 & H4). split.
    - intros k Hk E. destruct (decide (k = nc)) as [-> | Hne].
      + rewrite Hidxn in E. lia.
      + rewrite Hidxo in E by done. rewrite Hdsto, Hrado by done. by apply H4.
    - destruct (decide (j' = jmax)) as [-> | Hnj].
      + right. rewrite Hctro, Hrado by done.
        pose proof (Hdist nc Hfr) as Hd. rewrite Hfi in Hd.
        pose proof (ddist_sym (point source nc) (point source (ctr s jmax))) as Hs.
        fold (sq nc (ctr s jmax)) (sq (ctr s jmax) nc) in Hs.
        assert (sq (ctr s jmax) nc / 4 == sq (ctr s jmax) nc * (1 # 4))%Q as E
          by field.
        rewrite E. qlra.
      + left. assert (far s j' <> nc) as Hfn by (intros E; rewrite E in H1; lia).
        unfold radius_ok, radius_bounds.
        rewrite Hfaro, Hrado, Hidxo, Hdsto by done.
        split; [done |]. split; [done |]. split; [done |].
        intros k Hk E. destruct (decide (k = nc)) as [-> | Hne].
        * rewrite Hidxn in E. lia.
        * rewrite Hidxo in E by done. rewrite Hdsto by done. by apply H4. }
  split.
  - split; [done |]. split; [| split; [| split; [done | split; [| split;
      [| split; [| split]]]]]].
    + intros k Hk. destruct (decide (k = nc)) as [-> | Hne].
      * rewrite Hdstn, Hidxn, Hctri. symmetry. apply ddist_self.
      * rewrite Hdsto, Hidxo by done. destruct (Hpts k Hk) as (_ & _ & H).
        rewrite Hctro by done. by apply Hdist.
    + intros k j' Hk Hj'. rewrite Hctro by done.
      destruct (decide (k = nc)) as [-> | Hne].
      * rewrite Hdstn. destruct (Hnear nc j' Hfr Hj') as [H1 _].
        split; [| intros _]; qlra.
      * rewrite Hdsto, Hidxo by done. by apply Hnear.
    + intros j' Hj'. destruct (decide (j' = i)) as [-> | Hni].
      * by rewrite Hctri.
      * rewrite Hctro by lia. rewrite Hidxo by (apply Hcnc; lia).
        apply Hcidx. lia.
    + intros k _ Hlt. lia.
    + intros j' Hj' _. by apply Hrings'.
    + intros j' [Hj' | ->]; [lia |].
      unfold radius_ok, radius_bounds.
      rewrite Hfar, Hrad, !decide_True by done. rewrite Hidxn, Hdstn.
      split; [done |]. split; [done |]. split; [done |].
      intros k Hk E. rewrite (Honly k Hk E), Hdstn. done.
    + intros j' Hj'. apply Hpend'. lia.
  - intros _. split; [apply Hrings'; lia | by apply Hpend'].
Qed.

(** After the scan of all older clusters the invariant holds for one more
    cluster. *)
Lemma between_end i nc s :
  between source K i nc i s ->
  weak source K (i + 1) s /\ strong source (i + 1) s.
Proof.
  intros [(Hweak & Hdist & Hnear & Hctri & Hcidx & Hdone & Hrings & Hrok & _) _].
  split; [done |]. split; [done |]. split; [| split; [| split]].
  - intros k j Hk Hj. destruct (decide (j = i)) as [-> | Hne].
    + rewrite Hctri. destruct Hweak as (_ & _ & _ & Hpts).
      destruct (Hpts k Hk) as (_ & _ & Hik). split; [| lia].
      destruct (decide (idx s k = i)) as [E | Hni].
      * pose proof (Hdist k Hk) as Hd. rewrite E, Hctri in Hd. qlra.
      * apply Hdone; [done | lia].
    + apply Hnear; [done | lia].
  - intros j Hj. apply Hcidx. lia.
  - intros j Hj. apply Hrings; [lia |].
    destruct (decide (j = i)); [by right | by left].
  - intros j Hj. apply Hrok. destruct (decide (j = i)); [by right | left; lia].
Qed.

(** A pass of the outer loop while some radius is positive. *)
Lemma iteration_regular i s :
  weak source K i s -> strong source i s ->
  (0 < i)%N -> (N.to_nat i < K)%nat ->
  let jmax := max_element (take (N.to_nat i) (radius s)) in
  (0 < rad s jmax)%Q ->
  exists s',
    iteration (length (rows source)) source i s = Ok s'
    /\ weak source K (i + 1) s' /\ strong source (i + 1) s'
    /\ centers s' = <[N.to_nat i := far s jmax]> (centers s).
Proof.
  intros Hweak Hstrong Hi0 HiK jmax Hpos.
  destruct (promote_regular i s Hweak Hstrong Hi0 HiK Hpos) as [Hrun Hbetween].
  fold jmax in Hrun, Hbetween. set (nc := far s jmax) in *.
  unfold iteration. rewrite Hrun, bind_Ok.
  destruct (for_N_inv
              (fun m s' => between source K i nc (N.of_nat m) s'
                           /\ centers s' = centers (promote_state i nc s))
              (scan_cluster (length (rows source)) source i nc)
              (N.to_nat i) 0 (promote_state i nc s))
    as (s' & Hloop & Hend & Hcenters).
  { done. }
  { intros m s1 Hm [Hb Hc].
    destruct (scan_cluster_spec source K source_wf i nc (N.of_nat m) s1 Hb)
      as (s2 & Hscan & Hb2 & Hc2); [lia |].
    exists s2. split; [done |]. split; [| congruence].
    by replace (N.of_nat (S m)) with (N.of_nat m + 1)%N by lia. }
  exists s'. split; [exact Hloop |].
  change (0 + N.to_nat i)%nat with (N.to_nat i) in Hend. rewrite N2Nat.id in Hend.
  destruct (between_end i nc s' Hend) as [Hw Hs].
  split; [done |]. split; [done |]. exact Hcenters.
Qed.

(** A pass of the outer loop once every radius is zero: a point is promoted
    and no ring is walked. *)
Lemma iteration_flat i s :
  weak source K i s -> flat i s ->
  (0 < i)%N -> (N.to_nat i < K)%nat ->
  exists s',
    iteration (length (rows source)) source i s = Ok s'
    /\ weak source K (i + 1) s' /\ flat (i + 1) s'.
Proof.
  intros Hweak Hflat Hi0 HiK.
  destruct (idxmax_spec i s Hweak Hi0) as [Hjmax _].
  set (jmax := max_element (take (N.to_nat i) (radius s))) in *.
  set (nc := far s jmax).
  pose proof Hweak as (Hlen & HiK' & Hcf & Hpts).
  assert (inr nc) as Hnc by (by apply Hcf).
  destruct (Hpts nc Hnc) as (Hnn & Hnp & _).
  unfold iteration. rewrite (promote_ok source K i nc) by (done || lia).
  rewrite bind_Ok.
  pose proof (promote_weak i nc s Hweak HiK Hnc) as Hweak'.
  assert (flat (i + 1) (promote_state i nc s)) as Hflat'.
  { intros j Hj. rewrite (promote_rad source K) by done.
    destruct (decide (i = j)); [done |]. apply Hflat. lia. }
  destruct (for_N_inv (fun _ s' => s' = promote_state i nc s)
              (scan_cluster (length (rows source)) source i nc)
              (N.to_nat i) 0 (promote_state i nc s))
    as (s' & Hloop & ->); [done | | by eauto].
  intros m s1 Hm ->. exists (promote_state i nc s). split; [| done].
  pose proof Hweak' as (Hlen1 & _ & Hcf1 & _).
  pose proof Hlen1 as (Lc & Lf & Lr & Lp & Ln & Ld & Li).
  assert (inr (ctr (promote_state i nc s) (N.of_nat m))) as Hct
    by (apply Hcf1; lia).
  unfold scan_cluster. rewrite (at_sel 0%N) by lia. rewrite bind_Ok.
  fold (ctr (promote_state i nc s) (N.of_nat m)).
  rewrite !(row_point source) by done. rewrite !bind_Ok. cbn zeta.
  unfold get_radius. rewrite (at_sel 0%Q) by lia. rewrite bind_Ok.
  fold (rad (promote_state i nc s) (N.of_nat m)).
  destruct (Qlt_le_dec _ _) as [Hlt | _]; [| done].
  exfalso. pose proof (Hflat' (N.of_nat m) ltac:(lia)) as H0.
  pose proof (ddist_nonneg
                (point source (ctr (promote_state i nc s) (N.of_nat m)))
                (point source nc)) as H1.
  assert (forall x, x / 4 == x * (1 # 4))%Q as E by (intros; field).
  rewrite E in Hlt. qlra.
Qed.

End IterationFacts.

(** ** Initialisation (lines 94-121) *)

Lemma uword_add_small a b :
  (a + b < uword_modulus)%N -> uword_add a b = (a + b)%N.
Proof. intros H. unfold uword_add. by apply N.mod_small. Qed.

Lemma uword_sub_small a b :
  (b <= a)%N -> (a < uword_modulus)%N -> uword_sub a b = (a - b)%N.
Proof.
  intros Hb Ha. unfold uword_sub.
  rewrite (N.mod_small b) by lia.
  replace (a + uword_modulus - b)%N with (a - b + 1 * uword_modulus)%N by lia.
  rewrite N.Div0.mod_add. apply N.mod_small. lia.
Qed.

Section InitFacts.

Variable source : mat.
Variable K : Z.
Variable starting_index : bool * N.
Variable rd : N.
Hypothesis valid : runnable_input source K starting_index.

Local Abbreviation inr := (in_range source).
Local Abbreviation n := (length (rows source)).
Local Abbreviation nc0 := (first_center source starting_index rd).

Lemma first_center_in_range_any : inr nc0.
Proof.
  destruct valid as (_ & _ & _ & HK & Hstart).
  unfold first_center, in_range, n_rows in *.
  destruct (starting_index.1).
  - specialize (Hstart eq_refl). lia.
  - assert (rd mod N.of_nat n < N.of_nat n)%N by (apply N.mod_lt; lia). lia.
Qed.

Lemma init_point_spec_any m s :
  (m < n)%nat ->
  lengths_ok source (Z.to_nat K) s ->
  exists s',
    init_point source nc0 (N.of_nat m) s = Ok s'
    /\ lengths_ok source (Z.to_nat K) s'
    /\ centers s' = centers s /\ far2c s' = far2c s
    /\ index s' = index s /\ radius s' = radius s
    /\ (forall k, dst s' k = if decide (N.of_nat m = k)
                             then (if (k =? nc0)%N then 0%Q
                                   else sqdist source k nc0)
                             else dst s k)
    /\ (forall k, nxt s' k = if decide (N.of_nat m = k) then (k + 1)%N
                             else nxt s k)
    /\ (forall k, prv s' k = if decide (N.of_nat m = k)
                             then uword_sub k 1 else prv s k).
Proof.
  intros Hm Hlen. pose proof Hlen as (Lc & Lf & Lr & Lp & Ln & Ld & Li).
  destruct valid as ([_ Hn] & _). unfold n_rows in Hn.
  pose proof first_center_in_range_any as Hnc.
  assert (inr (N.of_nat m)) as Hmr by (unfold in_range; lia).
  unfold init_point.
  assert ((if (N.of_nat m =? nc0)%N then Ok 0%Q
           else row source (N.of_nat m) ≫= λ ri,
                row source nc0 ≫= λ rnc, Ok (ddist ri rnc))
          = Ok (if (N.of_nat m =? nc0)%N then 0%Q
                else sqdist source (N.of_nat m) nc0)) as ->.
  { destruct (N.of_nat m =? nc0)%N; [done |].
    by rewrite !row_point, !bind_Ok. }
  rewrite bind_Ok.
  unfold set_dist, set_cnext, set_cprev, in_range in *. mrun.
  rewrite uword_add_small by lia.
  eexists. split; [reflexivity |].
  split; [unfold lengths_ok; sproj; by rewrite !length_insert |].
  do 4 (split; [reflexivity |]).
  split; [| split]; intros k; unfold dst, nxt, prv; sproj;
    rewrite sel_insert by lia; destruct (decide (N.of_nat m = k)) as [<- | ];
    done.
Qed.

(** Lines 94-121 leave the state described by [initial], and the loop over
    [i] starts from it. *)
Lemma gonzalez_pass_init_any :
  exists s,
    gonzalez_pass source K starting_index rd
      (replicate n 0%N) (replicate (Z.to_nat K) 0%Q)
    = for_N (Z.to_nat (K - 1)) 1%N (iteration n source) s
    /\ initial source (Z.to_nat K) nc0 s.
Proof.
  pose proof valid as (Hwf & Hn61 & _ & HK & Hstart).
  pose proof Hwf as [_ Hn].
  pose proof first_center_in_range_any as Hnc. unfold in_range in Hnc.
  assert (N.to_nat (n_rows source) = n) as Hnr by apply Nat2N.id.
  unfold gonzalez_pass.
  rewrite uword_of_int_small by lia.
  assert (Z.to_N K < 2 ^ 61)%N as HK61 by lia.
  rewrite (alloc_ok (Z.to_N K) 0%N), (alloc_ok (n_rows source) 0%N),
    (alloc_ok (n_rows source) 0%Q) by done.
  rewrite !bind_Ok.
  assert ((if starting_index.1 then Ok starting_index.2
           else if (n_rows source =? 0)%N then Err ModuloByZero
                else Ok (rd mod n_rows source)%N) = Ok nc0) as ->.
  { unfold first_center. destruct (starting_index.1); [done |].
    destruct (N.eqb_spec (n_rows source) 0); [lia | done]. }
  rewrite bind_Ok. cbn zeta. rewrite !Hnr, !Z_N_nat.
  unfold set_center. rewrite put_ok by (sproj; rewrite length_replicate; lia).
  rewrite bind_Ok. unfold with_centers; sproj.
  change (N.to_nat 0) with 0%nat.
  set (s0 := GState _ _ _ _ _ _ _).
  assert (lengths_ok source (Z.to_nat K) s0) as Hlen0.
  { unfold lengths_ok, s0; sproj.
    rewrite length_insert, !length_replicate. done. }
  destruct (for_N_inv
    (fun m s => lengths_ok source (Z.to_nat K) s
       /\ centers s = centers s0 /\ far2c s = far2c s0
       /\ index s = index s0 /\ radius s = radius s0
       /\ forall k, (N.to_nat k < m)%nat ->
            dst s k = (if (k =? nc0)%N then 0%Q else sqdist source k nc0)
            /\ nxt s k = (k + 1)%N
            /\ (k <> 0%N -> prv s k = (k - 1)%N))
    (init_point source nc0) n 0 s0)
    as (s1 & Hrun & Hlen1 & Hc1 & Hf1 & Hi1 & Hr1 & Hpts1).
  { split; [done |]. do 4 (split; [done |]). intros k Hk. lia. }
  { intros m s [_ Hm] (Hlen & Hc & Hf & Hi & Hr & Hpts).
    destruct (init_point_spec_any m s Hm Hlen)
      as (s' & Hrun & Hlen' & Hc' & Hf' & Hi' & Hr' & Hd' & Hn' & Hp').
    exists s'. split; [done |]. split; [done |].
    do 4 (split; [congruence |]).
    intros k Hk. rewrite Hd', Hn', Hp'.
    destruct (decide (N.of_nat m = k)) as [<- | Hne].
    - split; [done |]. split; [done |]. intros H0.
      apply uword_sub_small; unfold n_rows in Hn; lia.
    - apply Hpts. lia. }
  change (N.of_nat 0) with 0%N in Hrun. rewrite ?bind_Ok, Hrun, bind_Ok.
  change (0 + n)%nat with n in Hpts1.
  pose proof Hlen1 as (Lc & Lf & Lr & Lp & Ln & Ld & Li).
  assert (n_rows source = N.of_nat n) as Hnr' by reflexivity.
  rewrite uword_sub_small by lia.
  unfold set_cnext, set_cprev, set_far2c, set_radius. mrun.
  assert (dist s1 <> []) as Hdne.
  { intros E. rewrite E in Ld. cbn in Ld. lia. }
  destruct (max_element_spec (dist s1) Hdne) as [Hmx _].
  rewrite (at_sel 0%Q) by lia. mrun.
  eexists. split; [reflexivity |].
  split; [unfold lengths_ok; sproj; by rewrite !length_insert |].
  split; [sproj; by rewrite Hc1 |]. split; [sproj; by rewrite Hi1, Hnr |].
  split; [| split].
  - intros k Hk. destruct (Hpts1 k ltac:(lia)) as (H1 & H2 & H3).
    split; [exact H1 |]. split.
    + unfold nxt; sproj. rewrite sel_insert by lia.
      destruct (decide (n_rows source - 1 = k)%N) as [E | Hne].
      * by rewrite decide_True.
      * rewrite decide_False by done. exact H2.
    + unfold prv; sproj. rewrite sel_insert by lia.
      destruct (decide (0 = k)%N) as [E | Hne].
      * by rewrite decide_True.
      * rewrite decide_False by done. apply H3. done.
  - unfold far; sproj. by rewrite sel_insert_eq by lia.
  - unfold rad, dst; sproj. by rewrite sel_insert_eq by lia.
Qed.

End InitFacts.

Lemma valid_runnable source K starting_index :
  valid_input source K starting_index -> runnable_input source K starting_index.
Proof.
  intros (Hwf & Hn & Hd & HK & Hstart).
  split; [done |]. split; [done |]. split; [done |]. split; [| done].
  assert (Z.of_N (n_rows source) < 2 ^ 61)%Z
    by (change (2 ^ 61)%Z with (Z.of_N (2 ^ 61)); lia).
  lia.
Qed.

Lemma first_center_in_range source K starting_index rd :
  valid_input source K starting_index ->
  in_range source (first_center source starting_index rd).
Proof. intros H. eapply first_center_in_range_any, valid_runnable, H. Qed.

Lemma gonzalez_pass_init source K starting_index rd :
  valid_input source K starting_index ->
  exists s,
    gonzalez_pass source K starting_index rd
      (replicate (length (rows source)) 0%N) (replicate (Z.to_nat K) 0%Q)
    = for_N (Z.to_nat (K - 1)) 1%N (iteration (length (rows source)) source) s
    /\ initial source (Z.to_nat K) (first_center source starting_index rd) s.
Proof. intros H. apply gonzalez_pass_init_any, valid_runnable, H. Qed.


(** ** The first ring *)

(** Consecutive indices linked upwards form a chain. *)
Lemma chain_seq nx pv m : forall (a : nat) (b : N),
  (forall t, (a <= t < a + m)%nat ->
     sel 0%N nx (N.of_nat t) = N.of_nat (S t)
     /\ sel 0%N pv (N.of_nat (S t)) = N.of_nat t) ->
  sel 0%N nx (N.of_nat (a + m)) = b ->
  sel 0%N pv b = N.of_nat (a + m) ->
  chain nx pv (N.of_nat a) (N.of_nat <$> seq (S a) m) b.
Proof.
  induction m as [| m IH]; intros a b Hlinks Hlast1 Hlast2.
  - cbn. rewrite Nat.add_0_r in *. done.
  - cbn [seq fmap list_fmap chain]. destruct (Hlinks a ltac:(lia)) as [H1 H2].
    split; [done |]. split; [done |]. apply IH.
    + intros t Ht. apply Hlinks. lia.
    + by replace (S a + m)%nat with (a + S m)%nat by lia.
    + by replace (S a + m)%nat with (a + S m)%nat by lia.
Qed.

Section InitialFacts.

Variable source : mat.
Variable K : Z.
Variable starting_index : bool * N.
Variable rd : N.
Hypothesis valid : runnable_input source K starting_index.

Local Abbreviation inr := (in_range source).
Local Abbreviation n := (length (rows source)).
Local Abbreviation nc0 := (first_center source starting_index rd).

Lemma initial_strong_any s :
  initial source (Z.to_nat K) nc0 s ->
  weak source (Z.to_nat K) 1 s /\ strong source 1 s.
Proof.
  intros (Hlen & Hcenters & Hindex & Hpts & Hfar & Hrad).
  pose proof valid as (Hwf & Hn61 & _ & HK & Hstart).
  pose proof (first_center_in_range_any source K starting_index rd valid) as Hnc.
  pose proof Hlen as (Lc & Lf & Lr & Lp & Ln & Ld & Li).
  assert (n_rows source = N.of_nat n) as Hnr by reflexivity.
  unfold in_range in Hnc.
  assert (ctr s 0 = nc0) as Hctr0.
  { unfold ctr. rewrite Hcenters. apply sel_insert_eq.
    rewrite length_replicate. lia. }
  assert (forall k, idx s k = 0%N) as Hidx0.
  { intros k. unfold idx, sel. rewrite Hindex.
    destruct (decide (N.to_nat k < N.to_nat (n_rows source))%nat).
    - by rewrite lookup_replicate_2.
    - by rewrite (proj1 (lookup_replicate_None _ _ _)) by lia. }
  assert (dist s <> []) as Hdne.
  { intros E. rewrite E in Ld. cbn in Ld. lia. }
  destruct (max_element_spec (dist s) Hdne) as [Hmx Hmax].
  assert (forall k, inr k ->
            (dst s k == sqdist source k nc0)%Q) as Hdist.
  { intros k Hk. destruct (Hpts k) as (H1 & _); [unfold in_range in Hk; lia |].
    rewrite H1. destruct (N.eqb_spec k nc0) as [-> | _]; [| done].
    symmetry. apply ddist_self. }
  split.
  - split; [done |]. split; [lia |]. split.
    + intros j Hj. assert (j = 0%N) as -> by lia. rewrite Hctr0, Hfar.
      unfold in_range. split; lia.
    + intros k Hk. unfold in_range in *.
      destruct (Hpts k) as (_ & H2 & H3); [lia |]. rewrite H2, H3, Hidx0.
      split; [| split; [| lia]].
      * clear H2 H3. case_decide; lia.
      * clear H2 H3. case_decide; lia.
  - split; [| split; [| split; [| split]]].
    + intros k Hk. rewrite Hidx0, Hctr0. by apply Hdist.
    + intros k j Hk Hj. assert (j = 0%N) as -> by lia.
      rewrite Hctr0, Hidx0. split; [| lia]. rewrite (Hdist k Hk). apply Qle_refl.
    + intros j Hj. rewrite Hidx0. lia.
    + intros j Hj. assert (j = 0%N) as -> by lia. rewrite Hctr0.
      remember (N.to_nat nc0) as c eqn:Ec0.
      exists (N.of_nat <$> (seq (S c) (n - 1 - c) ++ seq 0 c)).
      assert (nc0 = N.of_nat c) as Hc by lia.
      assert (forall t, (t < n)%nat ->
                nxt s (N.of_nat t)
                = (if decide (t = n - 1)%nat then 0%N else N.of_nat (S t))
                /\ prv s (N.of_nat t)
                   = (if decide (t = 0)%nat then N.of_nat (n - 1)
                      else N.of_nat (t - 1))) as Hlinks.
      { intros t Ht. destruct (Hpts (N.of_nat t)) as (_ & H2 & H3); [lia |].
        rewrite H2, H3. split.
        - repeat case_decide; lia.
        - repeat case_decide; lia. }
      split; [| split].
      * rewrite fmap_app. rewrite Hc. clear Ec0 Hc.
        destruct c as [| c'].
        -- cbn [seq fmap list_fmap]. rewrite app_nil_r.
           apply chain_seq.
           ++ intros t Ht. destruct (Hlinks t ltac:(lia)) as [H1 _].
              destruct (Hlinks (S t) ltac:(lia)) as [_ H2].
              fold (nxt s (N.of_nat t)) (prv s (N.of_nat (S t))).
              rewrite H1, H2, decide_False by lia.
              replace (S t - 1)%nat with t by lia. done.
           ++ fold (nxt s (N.of_nat (0 + (n - 1 - 0)))).
              destruct (Hlinks (0 + (n - 1 - 0))%nat ltac:(lia)) as [H1 _].
              rewrite H1, decide_True by lia. done.
           ++ fold (prv s (N.of_nat 0)).
              destruct (Hlinks 0%nat ltac:(lia)) as [_ H2].
              rewrite H2, decide_True by lia. f_equal. lia.
        -- change (seq 0 (S c')) with (0%nat :: seq 1 c').
           cbn [fmap list_fmap]. apply chain_app. split.
           ++ apply chain_seq.
              ** intros t Ht. destruct (Hlinks t ltac:(lia)) as [H1 _].
                 destruct (Hlinks (S t) ltac:(lia)) as [_ H2].
                 fold (nxt s (N.of_nat t)) (prv s (N.of_nat (S t))).
                 rewrite H1, H2, decide_False by lia.
                 replace (S t - 1)%nat with t by lia. done.
              ** fold (nxt s (N.of_nat (S c' + (n - 1 - S c')))).
                 destruct (Hlinks (S c' + (n - 1 - S c'))%nat ltac:(lia)) as [H1 _].
                 rewrite H1, decide_True by lia. done.
              ** fold (prv s (N.of_nat 0)).
                 destruct (Hlinks 0%nat ltac:(lia)) as [_ H2].
                 rewrite H2, decide_True by lia. f_equal. lia.
           ++ apply (chain_seq _ _ c' 0%nat).
              ** intros t Ht. destruct (Hlinks t ltac:(lia)) as [H1 _].
                 destruct (Hlinks (S t) ltac:(lia)) as [_ H2].
                 fold (nxt s (N.of_nat t)) (prv s (N.of_nat (S t))).
                 rewrite H1, H2, decide_False by lia.
                 replace (S t - 1)%nat with t by lia. done.
              ** fold (nxt s (N.of_nat (0 + c'))).
                 destruct (Hlinks (0 + c')%nat ltac:(lia)) as [H1 _].
                 rewrite H1, decide_False by lia. done.
              ** fold (prv s (N.of_nat (S c'))).
                 destruct (Hlinks (S c') ltac:(lia)) as [_ H2].
                 rewrite H2, decide_False by lia. f_equal. lia.
      * rewrite Hc. change (N.of_nat c :: (N.of_nat <$> ?l))
          with (N.of_nat <$> (c :: l)).
        apply NoDup_fmap_2; [intros x y; apply Nat2N.inj |].
        rewrite app_comm_cons. change (c :: seq (S c) (n - 1 - c))
          with (seq c (S (n - 1 - c))).
        apply NoDup_app. split; [apply NoDup_seq |]. split; [| apply NoDup_seq].
        intros x Hx Hx'. apply list_elem_of_In, in_seq in Hx.
        apply list_elem_of_In, in_seq in Hx'. lia.
      * intros k. rewrite Hidx0. rewrite Hc.
        change (N.of_nat c :: (N.of_nat <$> ?l)) with (N.of_nat <$> (c :: l)).
        rewrite app_comm_cons. change (c :: seq (S c) (n - 1 - c))
          with (seq c (S (n - 1 - c))).
        rewrite list_elem_of_fmap. unfold in_range. split.
        -- intros (t & -> & Ht). split; [| done].
           apply elem_of_app in Ht as [Ht | Ht];
             apply list_elem_of_In, in_seq in Ht; lia.
        -- intros [Hk _]. exists (N.to_nat k). split; [lia |].
           apply elem_of_app.
           destruct (decide (c <= N.to_nat k)%nat); [left | right];
             apply list_elem_of_In, in_seq; lia.
    + intros j Hj. assert (j = 0%N) as -> by lia.
      unfold radius_ok, radius_bounds. rewrite Hidx0, Hfar, Hrad.
      split; [done |]. split; [unfold in_range; lia |].
      split; [apply Qeq_refl |].
      intros k Hk _. apply Hmax.
      apply list_elem_of_lookup. exists (N.to_nat k). apply lookup_sel.
      unfold in_range in Hk. lia.
Qed.

End InitialFacts.

Lemma initial_strong source K starting_index rd :
  valid_input source K starting_index ->
  forall s,
    initial source (Z.to_nat K) (first_center source starting_index rd) s ->
    weak source (Z.to_nat K) 1 s /\ strong source 1 s.
Proof.
  intros H s. apply (initial_strong_any source K starting_index rd).
  apply valid_runnable, H.
Qed.


(** ** The outer loop (lines 123-174) *)

Section PassFacts.

Variable source : mat.
Variable K : Z.
Variable starting_index : bool * N.
Variable rd : N.
Hypothesis valid : runnable_input source K starting_index.

Local Abbreviation n := (length (rows source)).

(** One pass of the outer loop keeps the invariant, whichever disjunct
    holds. *)
Lemma iteration_pass_inv_any i s :
  pass_inv source (Z.to_nat K) i s ->
  (0 < i)%N -> (N.to_nat i < Z.to_nat K)%nat ->
  exists s',
    iteration n source i s = Ok s'
    /\ pass_inv source (Z.to_nat K) (i + 1) s'.
Proof.
  intros [Hweak Hcase] Hi0 HiK.
  pose proof valid as (Hwf & _).
  assert (flat i s ->
          exists s', iteration n source i s = Ok s'
                     /\ pass_inv source (Z.to_nat K) (i + 1) s') as Hflat.
  { intros Hflat.
    destruct (iteration_flat source (Z.to_nat K) i s Hweak Hflat Hi0 HiK)
      as (s' & Hrun & Hw & Hf).
    exists s'. split; [done |]. split; [done | by right]. }
  destruct Hcase as [Hstrong | Hf]; [| by apply Hflat].
  destruct (idxmax_spec source (Z.to_nat K) i s Hweak Hi0) as [_ Hmax].
  destruct (Qlt_le_dec 0 (rad s (max_element (take (N.to_nat i) (radius s)))))
    as [Hpos | Hle].
  - destruct (iteration_regular source (Z.to_nat K) Hwf i s Hweak Hstrong Hi0 HiK Hpos)
      as (s' & Hrun & Hw & Hs & _).
    exists s'. split; [done |]. split; [done | by left].
  - apply Hflat. intros j Hj. eapply Qle_trans; [by apply Hmax | done].
Qed.

(** The pass returns, with the invariant for all [K] clusters. *)
Lemma gonzalez_pass_total_any :
  exists g,
    gonzalez_pass source K starting_index rd (replicate n 0%N)
                  (replicate (Z.to_nat K) 0%Q) = Ok g
    /\ pass_inv source (Z.to_nat K) (Z.to_N K) g.
Proof.
  destruct (gonzalez_pass_init_any source K starting_index rd valid)
    as (s & Hrun & Hinit).
  destruct (initial_strong_any source K starting_index rd valid s Hinit)
    as [Hweak Hstrong].
  pose proof valid as (_ & _ & _ & HK & _).
  rewrite Hrun. change 1%N with (N.of_nat 1).
  destruct (for_N_inv (fun m s => pass_inv source (Z.to_nat K) (N.of_nat m) s)
              (iteration n source) (Z.to_nat (K - 1)) 1 s) as (g & Hg & Hinv).
  - split; [done | by left].
  - intros m s' Hm Hinv.
    destruct (iteration_pass_inv_any (N.of_nat m) s' Hinv) as (s'' & Hstep & Hinv');
      [lia | lia |].
    exists s''. split; [done |].
    by replace (N.of_nat (S m)) with (N.of_nat m + 1)%N by lia.
  - exists g. split; [done |].
    by replace (Z.to_N K) with (N.of_nat (1 + Z.to_nat (K - 1))) by lia.
Qed.

End PassFacts.

Lemma gonzalez_pass_total source K starting_index rd :
  valid_input source K starting_index ->
  exists g,
    gonzalez_pass source K starting_index rd
                  (replicate (length (rows source)) 0%N)
                  (replicate (Z.to_nat K) 0%Q) = Ok g
    /\ pass_inv source (Z.to_nat K) (Z.to_N K) g.
Proof. intros H. apply gonzalez_pass_total_any, valid_runnable, H. Qed.


(** ** Counting and averaging (lines 176-185) *)

Lemma assigned_S indices m k k' :
  indices !! m = Some k' ->
  assigned indices (S m) k
  = if decide (k' = k) then assigned indices m k ++ [m] else assigned indices m k.
Proof.
  intros Hk. unfold assigned.
  rewrite seq_S, list.filter_app. cbn [Nat.add].
  rewrite filter_cons, filter_nil.
  destruct (decide (k' = k)) as [-> | Hne].
  - by rewrite decide_True by done.
  - rewrite decide_False by congruence. by rewrite app_nil_r.
Qed.

Lemma assigned_length indices m k : (length (assigned indices m k) <= m)%nat.
Proof.
  unfold assigned.
  etransitivity; [apply length_filter |]. by rewrite length_seq.
Qed.

Lemma coordinate_sum_S source indices m k k' :
  indices !! m = Some k' ->
  coordinate_sum source indices (S m) k
  = if decide (k' = k)
    then zip_with Qplus (coordinate_sum source indices m k)
                  (point source (N.of_nat m))
    else coordinate_sum source indices m k.
Proof.
  intros Hk. unfold coordinate_sum. rewrite (assigned_S _ _ _ _ Hk).
  destruct (decide (k' = k)); [| done].
  by rewrite map_app, fold_left_app.
Qed.

Lemma total_insert counts k x y :
  counts !! k = Some x ->
  total (<[k := y]> counts) = (total counts - x + y)%N /\ (x <= total counts)%N.
Proof.
  revert k. induction counts as [| c counts IH]; intros [| k] H; try done.
  - cbn in H. injection H as ->.
    change (total (y :: counts) = (x + total counts - x + y)%N
            /\ (x <= x + total counts)%N). unfold total at 1.
    cbn [fold_right]. fold (total counts). lia.
  - cbn in H. destruct (IH k H) as [E1 E2].
    change (c + total (<[k := y]> counts) = c + total counts - x + y
            /\ x <= c + total counts)%N. lia.
Qed.

Lemma total_replicate m : total (replicate m 0%N) = 0%N.
Proof. induction m as [| m IH]; [done |]. cbn. apply IH. Qed.

Section FinalizeFacts.

Variable source : mat.
Variable K : nat.
Variable g : gstate.
Hypothesis rows_bound : (n_rows source < 2 ^ 61)%N.
Hypothesis index_length : length (index g) = length (rows source).
Hypothesis index_range :
  forall i, in_range source i -> (N.to_nat (idx g i) < K)%nat.

Local Abbreviation n := (length (rows source)).
Local Abbreviation counted := (counted source K (index g)).

Lemma count_point_step m acc :
  (m < n)%nat -> counted m acc ->
  exists acc', count_point source g (N.of_nat m) acc = Ok acc'
               /\ counted (S m) acc'.
Proof.
  intros Hm (L1 & L2 & Htotal & Hrows). unfold count_point, get_index.
  assert (index g !! m = Some (idx g (N.of_nat m))) as Hk.
  { rewrite <- (Nat2N.id m) at 1. apply lookup_sel. lia. }
  set (k := idx g (N.of_nat m)) in *.
  assert (N.to_nat k < K)%nat as HkK
    by (apply index_range; unfold in_range; lia).
  destruct (Hrows (N.to_nat k) HkK) as [Hn Hc]. rewrite N2Nat.id in Hn, Hc.
  destruct (lookup_lt_is_Some_2 (rows source) m Hm) as [r Hr].
  rewrite (at_nat _ _ _ Hk), bind_Ok, (at_Some _ _ _ Hn), bind_Ok.
  rewrite put_ok by lia. rewrite bind_Ok, (at_Some _ _ _ Hc), bind_Ok.
  unfold row. rewrite (at_nat _ _ _ Hr), bind_Ok, put_ok by lia.
  rewrite bind_Ok. eexists. split; [reflexivity |].
  pose proof (assigned_length (index g) m k) as Hle.
  rewrite uword_add_small.
  2:{ unfold uword_modulus. unfold n_rows in rows_bound.
      assert (2 ^ 61 + 1 < 2 ^ 64)%N by done. lia. }
  unfold counted. cbn [fst snd].
  split; [by rewrite length_insert |]. split; [by rewrite length_insert |].
  split.
  - destruct (total_insert acc.1 (N.to_nat k) _
                (N.of_nat (length (assigned (index g) m k)) + 1)%N Hn) as [E1 E2].
    rewrite E1. lia.
  - intros k' Hk'. destruct (decide (N.to_nat k = k')) as [<- | Hne].
    + rewrite N2Nat.id, (assigned_S _ _ _ _ Hk), (coordinate_sum_S _ _ _ _ _ Hk).
      rewrite !decide_True by done.
      rewrite !list_lookup_insert_eq by lia. rewrite length_app. cbn [length].
      split; [f_equal; lia |]. unfold point. by rewrite Nat2N.id, Hr.
    + rewrite (assigned_S _ _ _ _ Hk), (coordinate_sum_S _ _ _ _ _ Hk).
      rewrite !decide_False by lia.
      rewrite !list_lookup_insert_ne by lia. by apply Hrows.
Qed.

(** The loop of lines 180-183 runs through all points and leaves every
    cluster's count and coordinate sum. *)
Lemma count_loop (zero : rowvec) :
  zero = replicate (N.to_nat (n_cols source)) 0%Q ->
  exists acc,
    for_N n 0%N (count_point source g) (replicate K 0%N, replicate K zero) = Ok acc
    /\ counted n acc.
Proof.
  intros ->.
  destruct (for_N_inv counted (count_point source g) n 0
              (replicate K 0%N, replicate K (replicate (N.to_nat (n_cols source)) 0%Q)))
    as (acc & Hrun & Hacc).
  - split; [apply length_replicate |]. split; [apply length_replicate |].
    split; [apply total_replicate |].
    intros k Hk. cbn [fst snd]. rewrite !lookup_replicate_2 by done. done.
  - intros m acc Hm Hacc. apply count_point_step; [lia | done].
  - by exists acc.
Qed.

End FinalizeFacts.

(** The centre rows after the division of line 184. *)
Lemma divide_rows_lookup cc np k c x :
  cc !! k = Some c -> np !! k = Some x ->
  divide_rows cc np !! k
  = Some (map (fun y => y / inject_Z (Z.of_N x))%Q c).
Proof.
  intros Hc Hx. unfold divide_rows.
  rewrite lookup_zip_with, Hc. cbn. by rewrite Hx.
Qed.

Lemma divide_rows_length cc np :
  length cc = length np -> length (divide_rows cc np) = length cc.
Proof. intros H. unfold divide_rows. rewrite length_zip_with. lia. Qed.

Lemma finalize_ok base g np cc :
  for_N (N.to_nat (n_rows (m_source base))) 0%N (count_point (m_source base) g)
        (m_num_points base, m_centers base) = Ok (np, cc) ->
  finalize base g
  = Ok {| m_source := m_source base; m_indices := index g;
          m_centers := divide_rows cc np; m_num_points := np;
          m_radii := map (fun q => sqrt (Q2R q)) (radius g);
          m_rx := get_max_radius (map (fun q => sqrt (Q2R q)) (radius g));
          m_bandwidth := m_bandwidth base; m_epsilon := m_epsilon base;
          m_p_max := m_p_max base |}.
Proof. intros H. unfold finalize. by rewrite H. Qed.

(** ** The constructor as a whole *)

(** The base constructor returns once the truncation order is known. *)
Lemma Clustering_ctor_ok limit source K bandwidth epsilon p :
  (n_rows source < 2 ^ 61)%N -> (n_cols source < 2 ^ 61)%N ->
  (0 <= K < 2 ^ 61)%Z ->
  choose_truncation_number limit (Z.of_N (n_cols source)) (Q2R bandwidth)
                           (Q2R epsilon) 0 = Some p ->
  Clustering_ctor limit source K bandwidth epsilon
  = Ok {| m_source := source;
          m_indices := replicate (length (rows source)) 0%N;
          m_centers := replicate (Z.to_nat K)
                                 (replicate (N.to_nat (n_cols source)) 0%Q);
          m_num_points := replicate (Z.to_nat K) 0%N;
          m_radii := replicate (Z.to_nat K) 0%Q; m_rx := 0%Q;
          m_bandwidth := bandwidth; m_epsilon := epsilon;
          m_p_max := uword_of_int p |}.
Proof.
  intros Hn Hd HK Hp. unfold Clustering_ctor.
  assert (Z.to_N K < 2 ^ 61)%N as HK'
    by (change (2 ^ 61)%N with (Z.to_N (2 ^ 61)); lia).
  rewrite uword_of_int_small by lia.
  repeat (rewrite alloc_ok by (done || lia); cbn [mbind result_bind]).
  rewrite Hp. unfold n_rows. by rewrite Nat2N.id, Z_N_nat.
Qed.

(** The constructor in three steps: the base constructor, the pass, the
    counting loop. *)
Lemma GonzalezClustering_eval limit source K bandwidth epsilon starting_index
    rd p g np cc :
  (n_rows source < 2 ^ 61)%N -> (n_cols source < 2 ^ 61)%N ->
  (0 <= K < 2 ^ 61)%Z ->
  choose_truncation_number limit (Z.of_N (n_cols source)) (Q2R bandwidth)
                           (Q2R epsilon) 0 = Some p ->
  gonzalez_pass source K starting_index rd
                (replicate (length (rows source)) 0%N)
                (replicate (Z.to_nat K) 0%Q) = Ok g ->
  for_N (length (rows source)) 0%N (count_point source g)
        (replicate (Z.to_nat K) 0%N,
         replicate (Z.to_nat K) (replicate (N.to_nat (n_cols source)) 0%Q))
  = Ok (np, cc) ->
  GonzalezClustering limit source K bandwidth epsilon starting_index rd
  = Ok {| m_source := source; m_indices := index g;
          m_centers := divide_rows cc np; m_num_points := np;
          m_radii := map (fun q => sqrt (Q2R q)) (radius g);
          m_rx := get_max_radius (map (fun q => sqrt (Q2R q)) (radius g));
          m_bandwidth := bandwidth; m_epsilon := epsilon;
          m_p_max := uword_of_int p |}.
Proof.
  intros Hn Hd HK Hp Hg Hloop. unfold GonzalezClustering.
  rewrite (Clustering_ctor_ok _ _ _ _ _ p Hn Hd HK Hp), bind_Ok.
  cbn [m_indices m_radii]. rewrite Hg, bind_Ok.
  rewrite (finalize_ok _ g np cc); [done |].
  cbn [m_source m_num_points m_centers]. unfold n_rows. by rewrite Nat2N.id.
Qed.

Section ConstructorFacts.

Variable limit : Z.
Variable source : mat.
Variable K : Z.
Variable bandwidth epsilon : Q.
Variable starting_index : bool * N.
Variable rd : N.
Hypothesis valid : runnable_input source K starting_index.

Local Abbreviation n := (length (rows source)).
Local Abbreviation d := (N.to_nat (n_cols source)).

(** On a valid input the constructor returns; the object it builds is made
    of the state the pass leaves and of the counts and sums of the last
    loop. *)
Lemma GonzalezClustering_runs_any p :
  choose_truncation_number limit (Z.of_N (n_cols source)) (Q2R bandwidth)
                           (Q2R epsilon) 0 = Some p ->
  exists g np cc,
    gonzalez_pass source K starting_index rd (replicate n 0%N)
                  (replicate (Z.to_nat K) 0%Q) = Ok g
    /\ pass_inv source (Z.to_nat K) (Z.to_N K) g
    /\ counted source (Z.to_nat K) (index g) n (np, cc)
    /\ GonzalezClustering limit source K bandwidth epsilon starting_index rd
       = Ok {| m_source := source; m_indices := index g;
               m_centers := divide_rows cc np; m_num_points := np;
               m_radii := map (fun q => sqrt (Q2R q)) (radius g);
               m_rx := get_max_radius (map (fun q => sqrt (Q2R q)) (radius g));
               m_bandwidth := bandwidth; m_epsilon := epsilon;
               m_p_max := uword_of_int p |}.
Proof.
  intros Hp.
  destruct (gonzalez_pass_total_any source K starting_index rd valid)
    as (g & Hg & Hinv).
  pose proof valid as (_ & Hn & Hd & HK & _).
  pose proof Hinv as [(Hlen & _ & _ & Hpts) _].
  pose proof Hlen as (_ & _ & _ & _ & _ & _ & Li).
  destruct (count_loop source (Z.to_nat K) g Hn Li) with (zero := replicate d 0%Q)
    as ([np cc] & Hloop & Hcounted); [| done |].
  { intros i Hi. destruct (Hpts i Hi) as (_ & _ & H). lia. }
  exists g, np, cc. split; [done |]. split; [done |]. split; [done |].
  apply GonzalezClustering_eval; try done.
  assert (2 ^ 61 = Z.of_N (2 ^ 61))%Z as E by done. rewrite E. lia.
Qed.

End ConstructorFacts.

Lemma GonzalezClustering_runs limit source K bandwidth epsilon starting_index
    rd :
  valid_input source K starting_index ->
  forall p,
    choose_truncation_number limit (Z.of_N (n_cols source)) (Q2R bandwidth)
                             (Q2R epsilon) 0 = Some p ->
    exists g np cc,
      gonzalez_pass source K starting_index rd
                    (replicate (length (rows source)) 0%N)
                    (replicate (Z.to_nat K) 0%Q) = Ok g
      /\ pass_inv source (Z.to_nat K) (Z.to_N K) g
      /\ counted source (Z.to_nat K) (index g) (length (rows source)) (np, cc)
      /\ GonzalezClustering limit source K bandwidth epsilon starting_index rd
         = Ok {| m_source := source; m_indices := index g;
                 m_centers := divide_rows cc np; m_num_points := np;
                 m_radii := map (fun q => sqrt (Q2R q)) (radius g);
                 m_rx := get_max_radius (map (fun q => sqrt (Q2R q)) (radius g));
                 m_bandwidth := bandwidth; m_epsilon := epsilon;
                 m_p_max := uword_of_int p |}.
Proof.
  intros H p. apply GonzalezClustering_runs_any, valid_runnable, H.
Qed.


(** Square roots of the squared radii are not negative. *)
Lemma sqrt_radii_nonneg (radii : list Q) :
  Forall (fun r => (0 <= r)%R) (map (fun q => sqrt (Q2R q)) radii).
Proof.
  apply Forall_forall. intros r Hr.
  apply list_elem_of_fmap in Hr as (q & -> & _). apply sqrt_pos.
Qed.

Ltac valid_input_tac :=
  unfold valid_input, mat_wf; cbn;
  repeat match goal with
         | |- _ /\ _ => split
         | |- Forall _ _ => repeat constructor
         | |- _ -> _ => intros _
         end; try done; try lia.

(** C5. On every valid input ([N >= K >= 1], the starting index, when
    given, being one of the points) the constructor returns an object in
    which every point has an assignment in [[0, K)], the per-cluster counts
    add up to [N], and no stored radius is negative. *)
Theorem GonzalezClustering_invariants limit source K bandwidth epsilon
    starting_index rd :
  valid_input source K starting_index -> (0 <= limit)%Z ->
  exists c,
    GonzalezClustering limit source K bandwidth epsilon starting_index rd = Ok c
    /\ length (m_indices c) = length (rows source)
    /\ Forall (fun k => (0 <= Z.of_N k < K)%Z) (m_indices c)
    /\ total (m_num_points c) = n_rows source
    /\ Forall (fun r => (0 <= r)%R) (m_radii c).
Proof.
  intros Hvalid Hlimit.
  destruct (choose_truncation_number_spec limit Hlimit (Z.of_N (n_cols source))
              (Q2R bandwidth) (Q2R epsilon) 0) as (m & Hp & _).
  destruct (GonzalezClustering_runs limit source K bandwidth epsilon
              starting_index rd Hvalid _ Hp)
    as (g & np & cc & _ & Hinv & Hcounted & Hrun).
  eexists. split; [exact Hrun |]. cbn [m_indices m_num_points m_radii].
  destruct Hinv as [(Hlen & _ & _ & Hpts) _].
  pose proof Hlen as (_ & _ & _ & _ & _ & _ & Li).
  destruct Hcounted as (_ & _ & Htotal & _).
  split; [done |]. split; [| split; [done | apply sqrt_radii_nonneg]].
  apply Forall_lookup. intros i k Hik.
  assert (in_range source (N.of_nat i)) as Hi.
  { unfold in_range. rewrite Nat2N.id, <- Li. by eapply lookup_lt_Some. }
  destruct (Hpts _ Hi) as (_ & _ & H). unfold idx, sel in H.
  rewrite Nat2N.id, Hik in H. cbn in H. lia.
Qed.

Lemma GonzalezClustering_invariants_witness :
  exists c,
    GonzalezClustering 200 (Mat 1 [[0]; [2]; [7]]%Q) 2 1 (1 # 10) (true, 0%N) 0 = Ok c
    /\ length (m_indices c) = 3%nat
    /\ Forall (fun k => (0 <= Z.of_N k < 2)%Z) (m_indices c)
    /\ total (m_num_points c) = 3%N
    /\ Forall (fun r => (0 <= r)%R) (m_radii c).
Proof.
  apply (GonzalezClustering_invariants 200 (Mat 1 [[0]; [2]; [7]]%Q) 2 1 (1 # 10)
           (true, 0%N) 0); [valid_input_tac | lia].
Defined.

(** ** Runs on concrete inputs *)

Lemma Q2R_two : (1 <= Q2R 2)%R.
Proof. unfold Q2R. cbn. rlra. Qed.

(** Runs the constructor on a closed input whose truncation order is given
    by [Hp]. *)
Ltac run_constructor Hp :=
  eapply GonzalezClustering_eval;
  [ done | done | lia | exact Hp
  | vm_compute; reflexivity | vm_compute; reflexivity ].

(** C3 as stated fails: a negative bandwidth together with an epsilon of 2
    is not rejected; the clusters are built as for any other input. *)
Lemma GonzalezClustering_invalid_parameters_accepted :
  exists c,
    GonzalezClustering 200 (Mat 1 [[0]; [2]; [7]]%Q) 2 (-1) 2 (true, 0%N) 0 = Ok c
    /\ m_indices c = [0; 0; 1]%N /\ m_num_points c = [2; 1]%N.
Proof.
  assert (choose_truncation_number 200 (Z.of_N 1) (Q2R (-1)) (Q2R 2) 0 = Some 0%Z)
    as Hp by (apply choose_truncation_number_zero; [lia | apply Q2R_two]).
  eexists. split; [run_constructor Hp |]. done.
Qed.

(** C10, at an input with fewer than [K] different points. All radii are
    zero after the first cluster, so every later iteration takes [far2c(0)],
    which is point 0, the seed of cluster 0, as the next seed: it leaves
    cluster 0 for cluster 1 and then cluster 1 for cluster 2.  Cluster 1
    ends without a member and with a count of zero, the divisor of line
    184. *)
Theorem GonzalezClustering_empty_cluster limit :
  (0 <= limit)%Z ->
  exists c,
    GonzalezClustering limit (Mat 1 [[0]; [0]; [0]]%Q) 3 1 (1 # 2) (true, 0%N) 0
    = Ok c
    /\ m_indices c = [2; 0; 0]%N /\ m_num_points c = [2; 0; 1]%N.
Proof.
  intros Hlimit.
  assert (choose_truncation_number limit (Z.of_N 1) (Q2R 1) (Q2R (1 # 2)) 0
          = Some 1%Z) as Hp
    by (apply choose_truncation_number_rx0;
        [done | by apply Q2R_unit_interval]).
  eexists. split; [run_constructor Hp |]. done.
Qed.

Lemma GonzalezClustering_empty_cluster_witness :
  exists c,
    GonzalezClustering 200 (Mat 1 [[0]; [0]; [0]]%Q) 3 1 (1 # 2) (true, 0%N) 0
    = Ok c
    /\ m_indices c = [2; 0; 0]%N /\ m_num_points c = [2; 0; 1]%N.
Proof. apply (GonzalezClustering_empty_cluster 200). lia. Defined.

(** C4, as the code has it. For every cluster that has a point, the stored
    centre is the arithmetic mean of the points assigned to it, and the
    stored count is their number. *)
Theorem GonzalezClustering_centers_are_centroids limit source K bandwidth
    epsilon starting_index rd :
  valid_input source K starting_index -> (0 <= limit)%Z ->
  exists c,
    GonzalezClustering limit source K bandwidth epsilon starting_index rd = Ok c
    /\ length (m_centers c) = Z.to_nat K
    /\ forall k, (k < Z.to_nat K)%nat ->
         let members := assigned (m_indices c) (length (rows source)) (N.of_nat k) in
         m_num_points c !! k = Some (N.of_nat (length members))
         /\ (members <> [] ->
             m_centers c !! k = Some (centroid source (m_indices c) (N.of_nat k))).
Proof.
  intros Hvalid Hlimit.
  destruct (choose_truncation_number_spec limit Hlimit (Z.of_N (n_cols source))
              (Q2R bandwidth) (Q2R epsilon) 0) as (m & Hp & _).
  destruct (GonzalezClustering_runs limit source K bandwidth epsilon
              starting_index rd Hvalid _ Hp)
    as (g & np & cc & _ & _ & Hcounted & Hrun).
  eexists. split; [exact Hrun |].
  cbn [m_indices m_centers m_num_points].
  destruct Hcounted as (L1 & L2 & _ & Hrows). cbn [fst snd] in L1, L2, Hrows.
  split; [rewrite divide_rows_length; [done | lia] |].
  intros k Hk. cbv zeta. destruct (Hrows k Hk) as [Hn Hc].
  split; [done |]. intros _.
  rewrite (divide_rows_lookup _ _ _ _ _ Hc Hn). unfold centroid.
  by rewrite nat_N_Z.
Qed.

Lemma GonzalezClustering_centers_are_centroids_witness :
  exists c,
    GonzalezClustering 200 (Mat 1 [[0]; [2]; [7]]%Q) 2 1 (1 # 10) (true, 0%N) 0 = Ok c
    /\ length (m_centers c) = 2%nat
    /\ forall k, (k < 2)%nat ->
         let members := assigned (m_indices c) 3 (N.of_nat k) in
         m_num_points c !! k = Some (N.of_nat (length members))
         /\ (members <> [] ->
             m_centers c !! k
             = Some (centroid (Mat 1 [[0]; [2]; [7]]%Q) (m_indices c) (N.of_nat k))).
Proof.
  apply (GonzalezClustering_centers_are_centroids 200 (Mat 1 [[0]; [2]; [7]]%Q) 2 1
           (1 # 10) (true, 0%N) 0); [valid_input_tac | lia].
Defined.

(** C4 as stated fails in its last part: a cluster of one point keeps the
    coordinates of its seed as centre. *)
Lemma GonzalezClustering_center_is_seed :
  exists c,
    GonzalezClustering 200 (Mat 2 [[0; 0]; [3; 4]]%Q) 2 1 (1 # 10) (true, 0%N) 0
    = Ok c
    /\ m_indices c = [0; 1]%N
    /\ m_centers c = [[0; 0]; [3; 4]]%Q.
Proof.
  assert (choose_truncation_number 200 (Z.of_N 2) (Q2R 1) (Q2R (1 # 10)) 0
          = Some 1%Z) as Hp
    by (apply choose_truncation_number_rx0;
        [done | by apply Q2R_unit_interval]).
  eexists. split; [run_constructor Hp |]. split; [done |]. by vm_compute.
Qed.

(** ** A single cluster *)

Lemma assigned_all n m :
  (m <= n)%nat -> assigned (replicate n 0%N) m 0 = seq 0 m.
Proof.
  induction m as [| m IH]; intros Hm; [done |].
  rewrite (assigned_S _ _ _ 0%N) by (apply lookup_replicate_2; lia).
  rewrite decide_True by done. rewrite IH by lia. by rewrite seq_S.
Qed.

Lemma points_rows source :
  map (fun i => point source (N.of_nat i)) (seq 0 (length (rows source)))
  = rows source.
Proof.
  apply list_eq. intros i. rewrite list_lookup_fmap.
  destruct (decide (i < length (rows source))%nat) as [Hi | Hi].
  - rewrite lookup_seq_lt by done. cbn. unfold point. rewrite Nat2N.id.
    destruct (lookup_lt_is_Some_2 (rows source) i Hi) as [r ->]. done.
  - rewrite lookup_seq_ge by lia. cbn. symmetry. apply lookup_ge_None. lia.
Qed.

Lemma centroid_all source :
  centroid source (replicate (length (rows source)) 0%N) 0 = mean_point source.
Proof.
  unfold centroid, coordinate_sum, mean_point.
  rewrite assigned_all by done. by rewrite points_rows, length_seq.
Qed.

(** C8, as the code has it. With [K = 1] every point is in the one cluster,
    whose centre is the mean of all points; its radius is the largest
    distance of a point from the first centre, the point the pass started
    from, not from that mean. *)
Theorem GonzalezClustering_single_cluster limit source bandwidth epsilon
    starting_index rd :
  valid_input source 1 starting_index -> (0 <= limit)%Z ->
  let seed := first_center source starting_index rd in
  exists c r,
    GonzalezClustering limit source 1 bandwidth epsilon starting_index rd = Ok c
    /\ m_indices c = replicate (length (rows source)) 0%N
    /\ m_centers c = [mean_point source]
    /\ m_radii c = [r]
    /\ (forall k, in_range source k ->
          (sqrt (Q2R (sqdist source k seed)) <= r)%R)
    /\ exists k, in_range source k /\ r = sqrt (Q2R (sqdist source k seed)).
Proof.
  intros Hvalid Hlimit seed.
  destruct (choose_truncation_number_spec limit Hlimit (Z.of_N (n_cols source))
              (Q2R bandwidth) (Q2R epsilon) 0) as (m & Hp & _).
  destruct (GonzalezClustering_runs limit source 1 bandwidth epsilon
              starting_index rd Hvalid _ Hp)
    as (g & np & cc & Hg & _ & Hcounted & Hrun).
  destruct (gonzalez_pass_init source 1 starting_index rd Hvalid)
    as (s & Hpass & Hinit).
  rewrite Hpass in Hg. cbn in Hg. injection Hg as ->.
  destruct Hinit as (Hlen & _ & Hindex & Hpts & _ & Hrad). fold seed in Hpts.
  destruct Hlen as (_ & _ & Lr & _ & _ & Ld & _).
  assert (N.to_nat (n_rows source) = length (rows source)) as Hnr
    by (unfold n_rows; lia).
  rewrite Hnr in Hindex.
  assert (dist g <> []) as Hdne.
  { destruct Hvalid as (_ & _ & _ & HK & _). intros E. rewrite E in Ld.
    cbn in Ld. lia. }
  destruct (max_element_spec (dist g) Hdne) as [Hmx Hmax].
  set (kmax := max_element (dist g)) in *.
  assert (forall k, in_range source k ->
            (dst g k == sqdist source k seed)%Q) as Hdist.
  { intros k Hk. destruct (Hpts k) as (H1 & _); [unfold in_range in Hk; lia |].
    rewrite H1. destruct (N.eqb_spec k seed) as [-> | _]; [| done].
    symmetry. apply ddist_self. }
  exists {| m_source := source; m_indices := index g;
            m_centers := divide_rows cc np; m_num_points := np;
            m_radii := map (fun q => sqrt (Q2R q)) (radius g);
            m_rx := get_max_radius (map (fun q => sqrt (Q2R q)) (radius g));
            m_bandwidth := bandwidth; m_epsilon := epsilon;
            m_p_max := uword_of_int (Z.of_nat m) |}, (sqrt (Q2R (dst g kmax))).
  split; [exact Hrun |]. cbn [m_indices m_centers m_radii].
  split; [done |]. split; [| split; [| split]].
  - destruct Hcounted as (L1 & L2 & _ & Hrows). cbn [fst snd] in L1, L2, Hrows.
    destruct (Hrows 0%nat ltac:(lia)) as [Hn Hc].
    destruct np as [| n0 [| ? ?]]; try done.
    destruct cc as [| c0 [| ? ?]]; try done.
    cbn in Hn, Hc. injection Hn as ->. injection Hc as ->.
    cbn. rewrite <- centroid_all, <- Hindex. unfold centroid.
    by rewrite nat_N_Z.
  - destruct (radius g) as [| r0 [| ? ?]] eqn:Er; try done.
    cbn. do 3 f_equal. unfold rad, sel in Hrad. rewrite Er in Hrad. done.
  - intros k Hk. apply sqrt_le_1_alt. rewrite <- (Qreals.Qeq_eqR _ _ (Hdist k Hk)).
    apply Qreals.Qle_Rle. apply Hmax.
    apply list_elem_of_lookup. exists (N.to_nat k). apply lookup_sel.
    unfold in_range in Hk. lia.
  - exists kmax. assert (in_range source kmax) as Hk by (unfold in_range; lia).
    split; [done |]. f_equal. apply Qreals.Qeq_eqR. by apply Hdist.
Qed.

Lemma sqrt_Q2R_4 : sqrt (Q2R 4) = 2%R.
Proof.
  replace (Q2R 4) with (2 * 2)%R by (unfold Q2R; cbn; rlra).
  apply sqrt_square. rlra.
Qed.

Lemma sqrt_Q2R_1 : sqrt (Q2R 1) = 1%R.
Proof.
  replace (Q2R 1) with (1 * 1)%R by (unfold Q2R; cbn; rlra).
  apply sqrt_square. rlra.
Qed.

Lemma GonzalezClustering_single_cluster_witness :
  exists c r,
    GonzalezClustering 200 (Mat 1 [[0]; [2]]%Q) 1 1 (1 # 10) (true, 0%N) 0 = Ok c
    /\ m_indices c = [0; 0]%N
    /\ m_centers c = [mean_point (Mat 1 [[0]; [2]]%Q)]
    /\ m_radii c = [r]
    /\ (forall k, in_range (Mat 1 [[0]; [2]]%Q) k ->
          (sqrt (Q2R (sqdist (Mat 1 [[0]; [2]]%Q) k 0)) <= r)%R)
    /\ exists k, in_range (Mat 1 [[0]; [2]]%Q) k
                 /\ r = sqrt (Q2R (sqdist (Mat 1 [[0]; [2]]%Q) k 0)).
Proof.
  apply (GonzalezClustering_single_cluster 200 (Mat 1 [[0]; [2]]%Q) 1 (1 # 10)
           (true, 0%N) 0); [valid_input_tac | lia].
Defined.

(** C8 as stated fails in its second part. Two points on a line, 0 and 2,
    the pass starting from the first: the centre is their mean 1, from which
    both points are at distance 1, and the stored radius is 2. *)
Lemma GonzalezClustering_radius_from_seed :
  exists c x,
    GonzalezClustering 200 (Mat 1 [[0]; [2]]%Q) 1 1 (1 # 10) (true, 0%N) 0 = Ok c
    /\ m_centers c = [[x]] /\ (x == 1)%Q
    /\ m_radii c = [2%R]
    /\ Forall (fun p => sqrt (Q2R (ddist [1%Q] p)) = 1%R)
              (rows (Mat 1 [[0]; [2]]%Q)).
Proof.
  assert (choose_truncation_number 200 (Z.of_N 1) (Q2R 1) (Q2R (1 # 10)) 0
          = Some 1%Z) as Hp
    by (apply choose_truncation_number_rx0;
        [done | by apply Q2R_unit_interval]).
  eexists. exists (2 # 2)%Q. split; [run_constructor Hp |].
  split; [by vm_compute |]. split; [done |].
  split; [cbn [m_radii radius map]; by rewrite sqrt_Q2R_4 |].
  repeat constructor.
  - replace (ddist [1%Q] [0%Q]) with 1%Q by (by vm_compute). apply sqrt_Q2R_1.
  - replace (ddist [1%Q] [2%Q]) with 1%Q by (by vm_compute). apply sqrt_Q2R_1.
Qed.

(** ** The pass against brute force *)

Lemma elem_of_points source p : p ∈ points source <-> in_range source p.
Proof.
  unfold points, in_range. rewrite list_elem_of_fmap. split.
  - intros (t & -> & Ht). apply elem_of_seq in Ht. lia.
  - intros Hp. exists (N.to_nat p). split; [lia |]. apply elem_of_seq. lia.
Qed.

Lemma points_lookup {A} source (f : N -> A) k :
  in_range source k ->
  map f (points source) !! N.to_nat k = Some (f k).
Proof.
  intros Hk. unfold points. rewrite !list_lookup_fmap.
  rewrite lookup_seq_lt by exact Hk. cbn. by rewrite N2Nat.id.
Qed.

Section BruteForceFacts.

Variable source : mat.
Variable K : nat.
Hypothesis K_le_N : (K <= length (rows source))%nat.

Local Abbreviation inr := (in_range source).
Local Abbreviation sq := (sqdist source).

(** With the invariant, [index] and [dist] are what brute force computes
    from the centres chosen so far. *)
Lemma strong_bf i s k :
  weak source K i s -> strong source i s -> (0 < i)%N -> inr k ->
  bf_assign source (take (N.to_nat i) (centers s)) k = idx s k
  /\ (bf_dist source (take (N.to_nat i) (centers s)) k == dst s k)%Q.
Proof.
  intros (Hlen & HiK & _ & Hpts) (Hdist & Hnear & _) Hi Hk.
  pose proof Hlen as (Lc & _).
  destruct (Hpts k Hk) as (_ & _ & Hj).
  set (cs := take (N.to_nat i) (centers s)).
  set (l := dists_to source cs k).
  assert (forall p, (p < N.to_nat i)%nat ->
            l !! p = Some (sq k (ctr s (N.of_nat p)))) as Hl.
  { intros p Hp. unfold l, dists_to. rewrite list_lookup_fmap.
    unfold cs. rewrite lookup_take_lt by done.
    rewrite <- (Nat2N.id p) at 1. rewrite (lookup_sel 0%N) by lia. done. }
  assert (length l = N.to_nat i) as Ll.
  { unfold l, dists_to, cs. rewrite length_map, length_take_le; lia. }
  assert (sel 0%Q l (idx s k) = sq k (ctr s (idx s k))) as Hsel.
  { apply sel_lookup. rewrite Hl by lia. by rewrite N2Nat.id. }
  pose proof (Hdist k Hk) as Hd.
  assert (bf_assign source cs k = idx s k) as Hassign.
  { unfold bf_assign. fold l. apply min_element_unique.
    - lia.
    - intros y Hy. apply list_elem_of_lookup in Hy as [p Hp].
      assert (p < N.to_nat i)%nat as Hpi
        by (rewrite <- Ll; by eapply lookup_lt_Some).
      rewrite Hl in Hp by done. injection Hp as <-. rewrite Hsel.
      destruct (Hnear k (N.of_nat p) Hk ltac:(lia)) as [H1 _]. qlra.
    - intros p y Hp Hy. rewrite Hl in Hy by lia. injection Hy as <-.
      rewrite Hsel.
      destruct (Hnear k (N.of_nat p) Hk ltac:(lia)) as [_ H2].
      specialize (H2 ltac:(lia)). qlra. }
  split; [done |]. unfold bf_dist. rewrite Hassign. fold l.
  fold (sel 0%Q l (idx s k)). rewrite Hsel. by symmetry.
Qed.

(** The point the pass promotes is the farthest one, when only one point is
    farthest; the radius it is taken from is positive. *)
Lemma far_is_bf_next i s :
  weak source K i s -> strong source i s ->
  (0 < i)%N -> (N.to_nat i < K)%nat ->
  farthest_unique source (take (N.to_nat i) (centers s)) ->
  let jmax := max_element (take (N.to_nat i) (radius s)) in
  far s jmax = bf_next false source (take (N.to_nat i) (centers s))
  /\ (0 < rad s jmax)%Q.
Proof.
  intros Hweak Hstrong Hi HiK Huniq jmax.
  destruct (idxmax_spec source K i s Hweak Hi) as [Hjmax Hmax].
  fold jmax in Hjmax, Hmax.
  pose proof Hweak as (Hlen & _ & Hcf & Hpts).
  pose proof Hstrong as (Hdist & _ & _ & _ & Hrad).
  set (cs := take (N.to_nat i) (centers s)) in *.
  set (ds := map (bf_dist source cs) (points source)).
  assert (forall k, inr k -> (bf_dist source cs k == dst s k)%Q) as Hbf.
  { intros k Hk. by apply strong_bf. }
  assert (ds <> []) as Hne.
  { intros E. assert (length ds = 0%nat) as L by (by rewrite E).
    unfold ds, points in L. rewrite !length_map, length_seq in L. lia. }
  destruct (max_element_spec ds Hne) as [Hf Hfmax].
  assert (bf_next false source cs = max_element ds) as Hnext by done.
  set (f := max_element ds) in *.
  assert (inr f) as Hfr.
  { unfold in_range. unfold ds, points in Hf.
    by rewrite !length_map, length_seq in Hf. }
  assert (forall k, inr k -> (bf_dist source cs k <= bf_dist source cs f)%Q)
    as Hfall.
  { intros k Hk.
    rewrite <- (sel_lookup 0%Q ds f _ (points_lookup source _ f Hfr)).
    apply Hfmax. apply list_elem_of_lookup. exists (N.to_nat k).
    by apply points_lookup. }
  set (q := far s jmax).
  destruct (Hrad jmax Hjmax) as (_ & Hqr & Hqd & _). fold q in Hqr, Hqd.
  assert (forall k, inr k -> (dst s k <= dst s q)%Q) as Hall.
  { intros k Hk. destruct (Hpts k Hk) as (_ & _ & Hj).
    destruct (Hrad (idx s k) Hj) as (_ & _ & _ & Hb).
    pose proof (Hb k Hk eq_refl) as H1.
    pose proof (Hmax (idx s k) Hj) as H2. qlra. }
  pose proof (proj1 (Forall_forall _ _) Huniq) as Hu. cbv zeta in Hu.
  rewrite Hnext in Hu.
  assert (q = f) as Hqf.
  { destruct (decide (q = f)) as [| Hne']; [done | exfalso].
    pose proof (Hu q (proj2 (elem_of_points source q) Hqr) Hne') as H1.
    pose proof (Hall f Hfr) as H2.
    pose proof (Hbf f Hfr) as H3. pose proof (Hbf q Hqr) as H4. qlra. }
  split; [by rewrite Hnext |].
  set (p := if decide (f = 0%N) then 1%N else 0%N).
  assert (inr p) as Hp by (unfold in_range, p; case_decide; lia).
  assert (p <> f) as Hpf by (unfold p; case_decide; lia).
  pose proof (Hu p (proj2 (elem_of_points source p) Hp) Hpf) as H1.
  pose proof (Hbf p Hp) as H2. pose proof (Hdist p Hp) as H3.
  assert (0 <= sq p (ctr s (idx s p)))%Q as H4 by apply ddist_nonneg.
  pose proof (Hbf f Hfr) as H5. rewrite Hqf in Hqd. qlra.
Qed.

End BruteForceFacts.

(** When only one point is farthest, it is the farthest whichever end the
    search for the maximum starts from. *)
Lemma bf_next_last source cs :
  (0 < length (rows source))%nat ->
  farthest_unique source cs ->
  bf_next true source cs = bf_next false source cs.
Proof.
  intros Hn Huniq. pose proof (proj1 (Forall_forall _ _) Huniq) as Hu.
  cbv zeta in Hu.
  set (ds := map (bf_dist source cs) (points source)).
  assert (ds <> []) as Hne.
  { intros E. assert (length ds = 0%nat) as L by (by rewrite E).
    unfold ds, points in L. rewrite !length_map, length_seq in L. lia. }
  destruct (max_element_last_spec ds Hne) as [Hf Hfmax].
  assert (bf_next true source cs = max_element_last ds) as -> by done.
  set (r := max_element_last ds) in *.
  set (f := bf_next false source cs) in *.
  assert (in_range source r) as Hr.
  { unfold in_range. unfold ds, points in Hf.
    by rewrite !length_map, length_seq in Hf. }
  assert (in_range source f) as Hfr.
  { destruct (max_element_spec ds Hne) as [H _].
    unfold in_range. unfold ds, points in H.
    by rewrite !length_map, length_seq in H. }
  destruct (decide (r = f)) as [| Hne']; [done | exfalso].
  pose proof (Hu r (proj2 (elem_of_points source r) Hr) Hne') as H1.
  assert (bf_dist source cs f <= bf_dist source cs r)%Q as H2.
  { rewrite <- (sel_lookup 0%Q ds r _ (points_lookup source _ r Hr)).
    apply Hfmax. apply list_elem_of_lookup. exists (N.to_nat f).
    by apply points_lookup. }
  qlra.
Qed.

Lemma bf_centers_last source m : forall cs,
  (0 < length (rows source))%nat ->
  farthest_unique_for source m cs ->
  bf_centers true source m cs = bf_centers false source m cs.
Proof.
  induction m as [| m IH]; intros cs Hn Hu; [done |].
  destruct Hu as [Hu Hrest]. cbn [bf_centers].
  rewrite (bf_next_last source cs Hn Hu). by apply IH.
Qed.

Section Refinement.

Variable source : mat.
Variable K : Z.
Variable start : N.
Variable rd : N.
Hypothesis valid : valid_input source K (true, start).
Hypothesis unique : farthest_unique_for source (Z.to_nat (K - 1)) [start].

Local Abbreviation n := (length (rows source)).
Local Abbreviation Kn := (Z.to_nat K).

Local Abbreviation chosen := (chosen_as_brute_force source Kn start).

Lemma iteration_chosen m s :
  (1 <= m < Kn)%nat -> chosen m s ->
  exists s', iteration n source (N.of_nat m) s = Ok s'
             /\ chosen (S m) s'.
Proof.
  intros Hm (Hweak & Hstrong & Hcs & Hu).
  pose proof valid as (Hwf & _ & _ & HK & _).
  assert (Kn <= n)%nat as HKn by (unfold n_rows in HK; lia).
  replace (Kn - m)%nat with (S (Kn - S m)) in Hcs, Hu by lia.
  cbn [bf_centers] in Hcs. destruct Hu as [Hu Hrest].
  rewrite <- (Nat2N.id m) in Hu at 1.
  destruct (far_is_bf_next source Kn HKn (N.of_nat m) s Hweak Hstrong
              ltac:(lia) ltac:(lia) Hu) as [Hfar Hpos].
  destruct (iteration_regular source Kn Hwf (N.of_nat m) s Hweak Hstrong
              ltac:(lia) ltac:(lia) Hpos) as (s' & Hrun & Hw & Hs & Hc).
  rewrite Nat2N.id in Hfar, Hc.
  exists s'. split; [done |].
  replace (N.of_nat m + 1)%N with (N.of_nat (S m)) in Hw, Hs by lia.
  split; [done |]. split; [done |].
  destruct Hweak as ((Lc & _) & _).
  assert (take (S m) (centers s')
          = take m (centers s) ++ [bf_next false source (take m (centers s))])
    as Htake.
  { rewrite Hc, (take_S_r _ _ (far s (max_element (take m (radius s))))).
    - rewrite take_insert_ge by lia. by rewrite Hfar.
    - apply list_lookup_insert_eq. lia. }
  rewrite Htake. done.
Qed.

(** The pass and brute force choose the same centres and assign the points
    alike. *)
Lemma gonzalez_pass_bf :
  exists g,
    gonzalez_pass source K (true, start) rd (replicate n 0%N)
                  (replicate Kn 0%Q) = Ok g
    /\ index g = brute_force false source K start.
Proof.
  destruct (gonzalez_pass_init source K (true, start) rd valid)
    as (s & Hrun & Hinit).
  destruct (initial_strong source K (true, start) rd valid s Hinit)
    as [Hweak Hstrong].
  pose proof valid as (Hwf & _ & _ & HK & _).
  assert (Kn <= n)%nat as HKn by (unfold n_rows in HK; lia).
  assert (Z.to_nat (K - 1) = (Kn - 1)%nat) as HK1 by lia.
  rewrite Hrun. change 1%N with (N.of_nat 1). rewrite HK1 in *.
  destruct (for_N_inv chosen (iteration n source) (Kn - 1) 1 s)
    as (g & Hg & Hweak' & Hstrong' & Hcs & _).
  - split; [done |]. split; [done |].
    destruct Hinit as (_ & Hc & _).
    assert (take 1 (centers s) = [start]) as ->; [| done].
    rewrite Hc. destruct Kn as [| k'] eqn:E; [lia |]. done.
  - intros m s' Hm Hinv. apply iteration_chosen; [lia | done].
  - exists g. split; [done |].
    replace (1 + (Kn - 1))%nat with Kn in * by lia.
    rewrite Nat.sub_diag in Hcs. cbn [bf_centers] in Hcs.
    unfold brute_force. rewrite HK1, <- Hcs.
    pose proof Hweak' as ((_ & _ & _ & _ & _ & _ & Li) & _).
    apply list_eq. intros k.
    destruct (decide (k < n)%nat) as [Hk | Hk].
    + assert (in_range source (N.of_nat k)) as Hkr
        by (unfold in_range; lia).
      pose proof (points_lookup source
                    (bf_assign source (take Kn (centers g))) _ Hkr) as Hp.
      rewrite Nat2N.id in Hp. rewrite Hp.
      destruct (strong_bf source Kn HKn (N.of_nat Kn) g (N.of_nat k) Hweak' Hstrong'
                  ltac:(lia) Hkr) as [Ha _].
      rewrite Nat2N.id in Ha. rewrite Ha.
      rewrite <- (Nat2N.id k) at 1. apply lookup_sel. lia.
    + rewrite !(proj2 (lookup_ge_None _ _)); [done | |].
      * unfold points. rewrite !length_map, length_seq. lia.
      * lia.
Qed.

Lemma brute_force_last :
  brute_force true source K start = brute_force false source K start.
Proof.
  pose proof valid as (_ & _ & _ & HK & _). unfold brute_force.
  rewrite (bf_centers_last source); [done | | exact unique].
  unfold n_rows in HK. lia.
Qed.

End Refinement.

(** ** Exact inputs *)

Lemma exact_coordinate_inject B x :
  exact_coordinate B x -> x = inject_Z (Qnum x).
Proof. destruct x as [n dn]. intros [Hd _]. cbn in *. by subst. Qed.

(** Between vectors of bounded integers, [ddist] is an integer with a
    bound. *)
Lemma exact_ddist B (x : rowvec) : forall y,
  Forall (exact_coordinate B) x -> Forall (exact_coordinate B) y ->
  exists z : Z,
    (ddist x y == inject_Z z)%Q
    /\ (0 <= z <= Z.of_nat (length x) * (4 * B * B))%Z.
Proof.
  induction x as [| a x IH]; intros [| b y] Hx Hy;
    try (exists 0%Z; split; [reflexivity | cbn [length]; nia]).
  inversion_clear Hx as [| ? ? Ha Hx']. inversion_clear Hy as [| ? ? Hb Hy'].
  destruct (IH y Hx' Hy') as (z & Hz & Hbound).
  pose proof (exact_coordinate_inject B a Ha) as Ea.
  pose proof (exact_coordinate_inject B b Hb) as Eb.
  destruct Ha as [_ Ha], Hb as [_ Hb].
  exists ((Qnum a - Qnum b) * (Qnum a - Qnum b) + z)%Z. split.
  - rewrite ddist_cons, Hz, Ea, Eb. cbn [Qnum inject_Z].
    rewrite inject_Z_plus, inject_Z_mult. unfold Zminus.
    rewrite inject_Z_plus, inject_Z_opp. ring.
  - cbn [length]. rewrite Nat2Z.inj_succ.
    assert (- B <= Qnum a <= B)%Z as Ha' by lia.
    assert (- B <= Qnum b <= B)%Z as Hb' by lia.
    assert (0 <= (2 * B - (Qnum a - Qnum b)) * (2 * B + (Qnum a - Qnum b)))%Z
      by (apply Z.mul_nonneg_nonneg; lia).
    assert (0 <= (Qnum a - Qnum b) * (Qnum a - Qnum b))%Z
      by apply Z.square_nonneg.
    nia.
Qed.

(** On an exact input every squared distance between two points is an
    integer between 0 and [2^53]. *)
Lemma exact_sqdist source a b :
  mat_wf source -> exact_input source ->
  in_range source a -> in_range source b ->
  exists z : Z,
    (sqdist source a b == inject_Z z)%Q /\ (0 <= z <= 2 ^ 53)%Z.
Proof.
  intros Hwf (B & Hbound & Hall) Ha Hb.
  assert (forall k, in_range source k ->
            Forall (exact_coordinate B) (point source k)) as Hpoint.
  { intros k Hk. unfold point.
    destruct (lookup_lt_is_Some_2 (rows source) (N.to_nat k) Hk) as [r Hr].
    rewrite Hr. by apply (proj1 (Forall_lookup _ _) Hall _ _ Hr). }
  destruct (exact_ddist B (point source a) (point source b)
              (Hpoint a Ha) (Hpoint b Hb)) as (z & Hz & Hz').
  exists z. split; [done |].
  rewrite (point_length source Hwf a Ha) in Hz'. lia.
Qed.

Lemma example_exact : exact_input (Mat 1 [[0]; [2]; [7]]%Q).
Proof.
  exists 7%Z. split; [done |].
  repeat constructor; cbn; lia.
Qed.

(** Off such inputs the program's comparisons need not be those of the
    rationals.  With the points 0.56, -0.3 and 0.13, the first the centre
    and the second the new centre, the rounded quarter of the distance
    between the centres equals the rounded distance of the third point to
    its centre, so line 147 passes the third point by, although the
    distance line 149 would have computed is the smaller one. *)
Lemma binary64_pruning_skips_nearer_point :
  Binary64.examined Binary64.p056 Binary64.m03 Binary64.p013 = false
  /\ Binary64.nearer Binary64.p056 Binary64.m03 Binary64.p013 = true.
Proof. split; reflexivity. Qed.

(** And two different points can be at distance zero: the square of 1e-200
    underflows. *)
Lemma binary64_square_underflows :
  PrimFloat.eqb Binary64.tiny PrimFloat.zero = false
  /\ PrimFloat.eqb (Binary64.ddist Binary64.tiny PrimFloat.zero) PrimFloat.zero
     = true.
Proof. split; reflexivity. Qed.

(** C1, as the code has it. On [N >= K >= 1] points and from an explicit
    starting index, the assignment the pruned constructor leaves is that of
    brute-force farthest-point clustering, provided that the program's
    arithmetic is exact on the input ([exact_input]: integer coordinates
    small enough for every squared distance to be a binary64 number) and
    that at each of the [K - 1] selections a single point is farthest from
    the centres chosen; it is then the same whichever of several maxima
    brute force would take.  Without the first condition a rounded square
    can make the test of line 147 skip a point that is nearer to the new
    centre; without the second the pass and brute force can take different
    maxima. *)
Theorem GonzalezClustering_refines_brute_force limit source K bandwidth epsilon
    start rd last :
  valid_input source K (true, start) -> exact_input source ->
  (0 <= limit)%Z ->
  farthest_unique_for source (Z.to_nat (K - 1)) [start] ->
  exists c,
    GonzalezClustering limit source K bandwidth epsilon (true, start) rd = Ok c
    /\ m_indices c = brute_force last source K start.
Proof.
  intros Hvalid _ Hlimit Hunique.
  destruct (choose_truncation_number_spec limit Hlimit (Z.of_N (n_cols source))
              (Q2R bandwidth) (Q2R epsilon) 0) as (m & Hp & _).
  destruct (GonzalezClustering_runs limit source K bandwidth epsilon
              (true, start) rd Hvalid _ Hp)
    as (g & np & cc & Hg & _ & _ & Hrun).
  destruct (gonzalez_pass_bf source K start rd Hvalid Hunique)
    as (g' & Hg' & Hindex).
  rewrite Hg in Hg'. injection Hg' as <-.
  eexists. split; [exact Hrun |]. cbn [m_indices]. rewrite Hindex.
  destruct last; [| done]. symmetry. by apply brute_force_last.
Qed.

Lemma GonzalezClustering_refines_brute_force_witness :
  exists c,
    GonzalezClustering 200 (Mat 1 [[0]; [2]; [7]]%Q) 2 1 (1 # 10) (true, 0%N) 0 = Ok c
    /\ m_indices c = brute_force true (Mat 1 [[0]; [2]; [7]]%Q) 2 0.
Proof.
  apply (GonzalezClustering_refines_brute_force 200 (Mat 1 [[0]; [2]; [7]]%Q) 2 1
           (1 # 10) 0 0 true); [valid_input_tac | apply example_exact | lia |].
  split; [| exact I].
  repeat constructor; intros H; vm_compute; done || (exfalso; by apply H).
Defined.

(** C1 as stated fails when several points are equally far. Five points on
    a line, three clusters, the pass starting from the second point: after
    the first two centres three points are at distance 1; the pass takes the
    one its ring held first, and its assignment is neither that of brute
    force taking the first maximum nor that of brute force taking the
    last. *)
Lemma GonzalezClustering_differs_on_ties :
  exists c,
    GonzalezClustering 200 (Mat 1 [[0]; [1]; [2]; [3]; [4]]%Q) 3 1 (1 # 10)
                       (true, 1%N) 0 = Ok c
    /\ m_indices c = [0; 0; 2; 1; 1]%N
    /\ brute_force false (Mat 1 [[0]; [1]; [2]; [3]; [4]]%Q) 3 1 = [2; 0; 0; 1; 1]%N
    /\ brute_force true (Mat 1 [[0]; [1]; [2]; [3]; [4]]%Q) 3 1 = [0; 0; 0; 2; 1]%N.
Proof.
  assert (choose_truncation_number 200 (Z.of_N 1) (Q2R 1) (Q2R (1 # 10)) 0
          = Some 1%Z) as Hp
    by (apply choose_truncation_number_rx0;
        [done | by apply Q2R_unit_interval]).
  eexists. split; [run_constructor Hp |].
  split; [done |]. split; by vm_compute.
Qed.

(** * Further properties of the code *)

(** ** Squared distances (lines 15-17) *)




(** X2. The test of line 147 only saves work. For a point [k] of the ring
    of [ct_j] whose [dist] is its squared distance to [ct_j], the body of the
    [while] loop does what it would do if the distance to the new centre
    were computed every time: a point that the test skips is not nearer to
    the new centre than to its own.
    The input is one on which the program's arithmetic is exact
    ([exact_input]). *)
Theorem walk_step_pruning_sound source i j nc ct_j dc2cq k s :
  mat_wf source -> exact_input source ->
  in_range source k -> in_range source nc -> in_range source ct_j ->
  (dc2cq == sqdist source ct_j nc / 4)%Q ->
  (dst s k == sqdist source k ct_j)%Q ->
  walk_step source i j nc dc2cq k s = walk_step_unpruned source i j nc k s.
Proof.
  intros Hwf _ Hk Hnc Hc Hdc Hd. unfold walk_step, walk_step_unpruned.
  destruct (at_ (cnext s) k) as [nextk |]; [| done]. rewrite !bind_Ok.
  destruct (at_ (dist s) k) as [dist2c_k |] eqn:E; [| done]. rewrite !bind_Ok.
  assert (dist2c_k = dst s k) as ->
    by (symmetry; apply sel_lookup; by apply at_inv).
  rewrite !(row_point source) by done. rewrite !bind_Ok. cbv zeta.
  fold (sqdist source k nc).
  destruct (Qlt_le_dec dc2cq (dst s k)) as [Hlt | Hle]; [done |].
  destruct (Qlt_le_dec (sqdist source k nc) (dst s k)) as [Hlt' | Hle'];
    [exfalso | done].
  assert (sqdist source k ct_j <= sqdist source ct_j nc / 4)%Q as Hpr by qlra.
  pose proof (sq_pruned source Hwf nc k ct_j Hk Hc Hnc Hpr). qlra.
Qed.

Lemma walk_step_pruning_sound_witness :
  walk_step (Mat 1 [[0]; [1]; [9]]%Q) 1 0 2 (81 # 4) 1
            (GState [0; 2]%N [1; 0; 2]%N [1; 0; 2]%N [1; 2]%N [0; 1; 0]%Q
                    [0; 0; 1]%N [1; 0]%Q)
  = walk_step_unpruned (Mat 1 [[0]; [1]; [9]]%Q) 1 0 2 1
            (GState [0; 2]%N [1; 0; 2]%N [1; 0; 2]%N [1; 2]%N [0; 1; 0]%Q
                    [0; 0; 1]%N [1; 0]%Q).
Proof.
  apply (walk_step_pruning_sound (Mat 1 [[0]; [1]; [9]]%Q) 1 0 2 0 (81 # 4) 1).
  - split; [repeat constructor | done].
  - exists 9%Z. split; [done |]. repeat constructor; cbn; lia.
  - unfold in_range. cbn. lia.
  - unfold in_range. cbn. lia.
  - unfold in_range. cbn. lia.
  - by vm_compute.
  - by vm_compute.
Defined.

(** ** The truncation order (lines 39-58) *)

(** X3. [choose_truncation_number] always returns, whatever its arguments,
    and the order it returns is between 0 and
    [TruncationNumberUpperLimit + 1]. *)
Theorem choose_truncation_number_range limit dimensions bandwidth epsilon rx :
  (0 <= limit)%Z ->
  exists p : Z,
    choose_truncation_number limit dimensions bandwidth epsilon rx = Some p
    /\ (0 <= p <= limit + 1)%Z.
Proof.
  intros Hlimit.
  destruct (choose_truncation_number_spec limit Hlimit dimensions bandwidth
              epsilon rx) as (m & Hrun & Hle & _).
  exists (Z.of_nat m). split; [done | lia].
Qed.

Lemma choose_truncation_number_range_witness :
  exists p : Z,
    choose_truncation_number 200 2 1 (1 / 10) 1 = Some p
    /\ (0 <= p <= 200 + 1)%Z.
Proof. apply (choose_truncation_number_range 200 2 1 (1 / 10) 1). lia. Defined.

(** ** Inputs the constructors do not survive *)

Lemma alloc_too_large {A} (n : N) (x : A) :
  (2 ^ 61 <= n)%N -> alloc n x = Err BadAlloc.
Proof.
  intros Hn. unfold alloc.
  destruct (N.leb_spec n ((uword_modulus - 1) / 8)) as [Hle | _]; [| done].
  exfalso. revert Hle. unfold uword_modulus.
  change ((2 ^ 64 - 1) / 8)%N with (2 ^ 61 - 1)%N. lia.
Qed.

Lemma bind_Err {A B} (e : error) (f : A -> result B) : (Err e ≫= f) = Err e.
Proof. reflexivity. Qed.

(** X4. A negative [K] is converted to a huge unsigned size: the base
    constructor fails when it allocates the [K] rows of the centres, and
    nothing of the clustering pass runs. *)
Theorem GonzalezClustering_negative_K limit source K bandwidth epsilon
    starting_index rd :
  (n_rows source < 2 ^ 61)%N -> (n_cols source < 2 ^ 61)%N ->
  (- 2 ^ 63 <= K < 0)%Z ->
  Clustering_ctor limit source K bandwidth epsilon = Err BadAlloc
  /\ GonzalezClustering limit source K bandwidth epsilon starting_index rd
     = Err BadAlloc.
Proof.
  intros Hn Hd HK.
  assert (Clustering_ctor limit source K bandwidth epsilon = Err BadAlloc) as H.
  { unfold Clustering_ctor.
    rewrite (alloc_ok (n_rows source)), bind_Ok by done.
    rewrite (alloc_ok (n_cols source)), bind_Ok by done.
    rewrite (alloc_too_large (uword_of_int K) (replicate _ 0%Q)); [done |].
    unfold uword_of_int, uword_modulus.
    change (Z.of_N (2 ^ 64)) with (2 ^ 64)%Z.
    replace (K mod 2 ^ 64)%Z with (K + 2 ^ 64)%Z.
    - change (2 ^ 61)%N with (Z.to_N (2 ^ 61)). apply Z2N.inj_le; lia.
    - symmetry. rewrite <- (Z.mod_small (K + 2 ^ 64) (2 ^ 64)) by lia.
      rewrite <- (Z.mul_1_l (2 ^ 64)) at 2. by rewrite Z.mod_add. }
  split; [done |]. unfold GonzalezClustering. by rewrite H.
Qed.

Lemma GonzalezClustering_negative_K_witness :
  Clustering_ctor 200 (Mat 1 [[0]; [2]]%Q) (-1) 1 (1 # 2) = Err BadAlloc
  /\ GonzalezClustering 200 (Mat 1 [[0]; [2]]%Q) (-1) 1 (1 # 2) (true, 0%N) 0
     = Err BadAlloc.
Proof.
  apply (GonzalezClustering_negative_K 200 (Mat 1 [[0]; [2]]%Q) (-1) 1 (1 # 2)
           (true, 0%N) 0); [done | done | lia].
Defined.

Section FailingInputs.

Variable limit : Z.
Variable source : mat.
Variable K : Z.
Variable bandwidth epsilon : Q.
Variable starting_index : bool * N.
Variable rd : N.
Hypothesis limit_nonneg : (0 <= limit)%Z.
Hypothesis rows_bound : (n_rows source < 2 ^ 61)%N.
Hypothesis cols_bound : (n_cols source < 2 ^ 61)%N.
Hypothesis K_bound : (0 <= K < 2 ^ 61)%Z.

(** The constructor fails as its pass does. *)
Lemma GonzalezClustering_pass_fails e :
  gonzalez_pass source K starting_index rd
                (replicate (length (rows source)) 0%N)
                (replicate (Z.to_nat K) 0%Q) = Err e ->
  GonzalezClustering limit source K bandwidth epsilon starting_index rd = Err e.
Proof.
  intros Hpass.
  destruct (choose_truncation_number_spec limit limit_nonneg
              (Z.of_N (n_cols source)) (Q2R bandwidth) (Q2R epsilon) 0)
    as (m & Hp & _).
  unfold GonzalezClustering.
  rewrite (Clustering_ctor_ok _ _ _ _ _ _ rows_bound cols_bound K_bound Hp).
  rewrite bind_Ok. cbn [m_indices m_radii]. by rewrite Hpass.
Qed.

(** The pass up to the choice of the first centre. *)
Lemma gonzalez_pass_allocated indices radii :
  gonzalez_pass source K starting_index rd indices radii
  = (nc ← (if starting_index.1 then Ok starting_index.2
           else if (n_rows source =? 0)%N then Err ModuloByZero
                else Ok (rd mod n_rows source)%N);
     let s := GState (replicate (Z.to_nat K) 0%N)
                     (replicate (length (rows source)) 0%N)
                     (replicate (length (rows source)) 0%N)
                     (replicate (Z.to_nat K) 0%N)
                     (replicate (length (rows source)) 0%Q) indices radii in
     s ← set_center 0 nc s;
     s ← for_N (length (rows source)) 0%N (init_point source nc) s;
     s ← set_cnext (uword_sub (n_rows source) 1) 0%N s;
     s ← set_cprev 0%N (uword_sub (n_rows source) 1) s;
     let nc := max_element (dist s) in
     s ← set_far2c 0 nc s;
     d ← at_ (dist s) nc;
     s ← set_radius 0 d s;
     for_N (Z.to_nat (K - 1)) 1%N (iteration (length (rows source)) source) s).
Proof.
  unfold gonzalez_pass. rewrite uword_of_int_small by lia.
  assert (Z.to_N K < 2 ^ 61)%N as HK61
    by (change (2 ^ 61)%N with (Z.to_N (2 ^ 61)); lia).
  rewrite (alloc_ok (Z.to_N K) 0%N), (alloc_ok (n_rows source) 0%N),
    (alloc_ok (n_rows source) 0%Q) by done.
  rewrite !bind_Ok. cbv zeta.
  assert (N.to_nat (n_rows source) = length (rows source)) as ->
    by apply Nat2N.id.
  by rewrite Z_N_nat.
Qed.

End FailingInputs.

(** X5. With [K = 0] the array of centres is empty, and the constructor
    fails at [centers(0) = nc], the first element it writes (line 108),
    whenever it gets that far: that is, when a starting index is given or
    there is a point to draw one from. *)
Theorem GonzalezClustering_zero_K limit source bandwidth epsilon starting_index
    rd :
  (0 <= limit)%Z ->
  (n_rows source < 2 ^ 61)%N -> (n_cols source < 2 ^ 61)%N ->
  starting_index.1 = true \/ (0 < n_rows source)%N ->
  GonzalezClustering limit source 0 bandwidth epsilon starting_index rd
  = Err IndexOutOfBounds.
Proof.
  intros Hlimit Hn Hd Hstart.
  apply GonzalezClustering_pass_fails; [done | done | done | lia |].
  rewrite gonzalez_pass_allocated by (done || lia).
  assert (exists nc,
            (if starting_index.1 then Ok starting_index.2
             else if (n_rows source =? 0)%N then Err ModuloByZero
                  else Ok (rd mod n_rows source)%N) = Ok nc) as [nc ->].
  { destruct (starting_index.1); [by eexists |].
    destruct Hstart as [| Hpos]; [done |].
    destruct (N.eqb_spec (n_rows source) 0); [lia | by eexists]. }
  done.
Qed.

Lemma GonzalezClustering_zero_K_witness :
  GonzalezClustering 200 (Mat 1 [[0]; [2]]%Q) 0 1 (1 # 2) (true, 0%N) 0
  = Err IndexOutOfBounds.
Proof.
  apply (GonzalezClustering_zero_K 200 (Mat 1 [[0]; [2]]%Q) 1 (1 # 2) (true, 0%N) 0);
    [lia | done | done | by left].
Defined.

(** X6. Without points and without a starting index the first centre is
    [rd() % N] with [N = 0] (line 106): the constructor fails there, before
    it touches an array. *)
Theorem GonzalezClustering_no_points limit source K bandwidth epsilon
    starting_index rd :
  (0 <= limit)%Z -> (n_cols source < 2 ^ 61)%N -> (0 <= K < 2 ^ 61)%Z ->
  rows source = [] -> starting_index.1 = false ->
  GonzalezClustering limit source K bandwidth epsilon starting_index rd
  = Err ModuloByZero.
Proof.
  intros Hlimit Hd HK Hrows Hstart.
  assert (n_rows source = 0%N) as Hn by (unfold n_rows; by rewrite Hrows).
  apply GonzalezClustering_pass_fails; [done | by rewrite Hn | done | done |].
  rewrite gonzalez_pass_allocated by (done || by rewrite Hn).
  by rewrite Hstart, Hn.
Qed.

Lemma GonzalezClustering_no_points_witness :
  GonzalezClustering 200 (Mat 2 []) 1 1 (1 # 2) (false, 0%N) 7 = Err ModuloByZero.
Proof.
  apply (GonzalezClustering_no_points 200 (Mat 2 []) 1 1 (1 # 2) (false, 0%N) 7);
    [lia | done | lia | done | done].
Defined.

(** X7. A starting index that is not the index of a point is not noticed
    until the first distance is computed: with [K >= 1] and at least one
    point, the constructor fails at [source.row(nc)] in the first pass of the
    loop of lines 110-114. *)
Theorem GonzalezClustering_start_out_of_range limit source K bandwidth epsilon
    start rd :
  (0 <= limit)%Z ->
  (0 < n_rows source < 2 ^ 61)%N -> (n_cols source < 2 ^ 61)%N ->
  (1 <= K < 2 ^ 61)%Z -> (n_rows source <= start)%N ->
  GonzalezClustering limit source K bandwidth epsilon (true, start) rd
  = Err IndexOutOfBounds.
Proof.
  intros Hlimit Hn Hd HK Hstart.
  apply GonzalezClustering_pass_fails; [done | lia | done | lia |].
  rewrite gonzalez_pass_allocated by (done || lia).
  cbn [fst snd]. rewrite bind_Ok. cbv zeta.
  unfold set_center. rewrite put_ok by (cbn; rewrite length_replicate; lia).
  rewrite bind_Ok.
  unfold n_rows in Hn, Hstart.
  destruct (length (rows source)) as [| n'] eqn:En; [lia |].
  cbn [for_N]. rewrite ?bind_Ok. unfold init_point.
  destruct (N.eqb_spec 0 start) as [E | _]; [lia |].
  unfold row.
  destruct (lookup_lt_is_Some_2 (rows source) 0) as [r0 Hr0]; [lia |].
  rewrite (at_Some (rows source) 0%N r0 Hr0), bind_Ok.
  unfold at_. rewrite (proj2 (lookup_ge_None _ _)) by lia. done.
Qed.

Lemma GonzalezClustering_start_out_of_range_witness :
  GonzalezClustering 200 (Mat 1 [[0]; [2]]%Q) 1 1 (1 # 2) (true, 2%N) 0
  = Err IndexOutOfBounds.
Proof.
  apply (GonzalezClustering_start_out_of_range 200 (Mat 1 [[0]; [2]]%Q) 1 1 (1 # 2)
           2 0); [lia | done | done | lia | done].
Defined.

(** ** The pass on inputs with [K] different points *)

Section RegularRun.

Variable source : mat.
Variable K : Z.
Variable starting_index : bool * N.
Variable rd : N.
Variable l : list N.
Hypothesis valid : valid_input source K starting_index.
Hypothesis different : separated source l.
Hypothesis enough : length l = Z.to_nat K.

Local Abbreviation n := (length (rows source)).
Local Abbreviation Kn := (Z.to_nat K).
Local Abbreviation inr := (in_range source).
Local Abbreviation sq := (sqdist source).
Local Abbreviation nc0 := (first_center source starting_index rd).

Lemma Kn_le_n : (Kn <= n)%nat.
Proof. destruct valid as (_ & _ & _ & HK & _). unfold n_rows in HK. lia. Qed.

(** The promoted point is one of the farthest. *)
Lemma far_is_farthest i s k :
  weak source Kn i s -> strong source i s -> (0 < i)%N -> inr k ->
  let jmax := max_element (take (N.to_nat i) (radius s)) in
  (bf_dist source (take (N.to_nat i) (centers s)) k
   <= bf_dist source (take (N.to_nat i) (centers s)) (far s jmax))%Q
  /\ (dst s k <= rad s jmax)%Q.
Proof.
  intros Hweak Hstrong Hi Hk jmax.
  destruct (idxmax_spec source Kn i s Hweak Hi) as [Hjmax Hmax].
  fold jmax in Hjmax, Hmax.
  pose proof Hweak as (_ & _ & _ & Hpts).
  pose proof Hstrong as (_ & _ & _ & _ & Hrad).
  destruct (Hrad jmax Hjmax) as (_ & Hqr & Hqd & _).
  destruct (Hpts k Hk) as (_ & _ & Hj).
  destruct (Hrad (idx s k) Hj) as (_ & _ & _ & Hb).
  pose proof (Hb k Hk eq_refl) as H1. pose proof (Hmax (idx s k) Hj) as H2.
  destruct (strong_bf source Kn Kn_le_n i s k Hweak Hstrong Hi Hk) as [_ H3].
  destruct (strong_bf source Kn Kn_le_n i s (far s jmax) Hweak Hstrong Hi Hqr)
    as [_ H4].
  split; qlra.
Qed.

(** As long as fewer than [K] centres are chosen, some point is away from
    its centre. *)
Lemma separated_radius_pos i s :
  weak source Kn i s -> strong source i s ->
  (0 < i)%N -> (N.to_nat i < Kn)%nat ->
  (0 < rad s (max_element (take (N.to_nat i) (radius s))))%Q.
Proof.
  intros Hweak Hstrong Hi HiK.
  destruct (Qlt_le_dec 0 (rad s (max_element (take (N.to_nat i) (radius s)))))
    as [| Hle]; [done | exfalso].
  pose proof valid as (Hwf & _).
  destruct different as (Hnd & Hin & Hpos).
  pose proof Hweak as (_ & _ & Hcf & Hpts).
  pose proof Hstrong as (Hdist & _).
  assert (forall a, a ∈ l -> (sq a (ctr s (idx s a)) == 0)%Q) as Hzero.
  { intros a Ha. pose proof (Hin a Ha) as Har.
    destruct (far_is_farthest i s a Hweak Hstrong Hi Har) as [_ H1].
    pose proof (Hdist a Har) as H2.
    assert (0 <= sq a (ctr s (idx s a)))%Q as H3 by apply ddist_nonneg.
    qlra. }
  assert (NoDup (idx s <$> l)) as Hnd'.
  { apply NoDup_fmap_2_strong; [| done]. intros a b Ha Hb Hab.
    destruct (decide (a = b)) as [| Hne]; [done | exfalso].
    pose proof (Hpos a b Ha Hb Hne) as H0.
    pose proof (Hzero a Ha) as H1. pose proof (Hzero b Hb) as H2.
    rewrite <- Hab in H2.
    pose proof (Hin a Ha) as Har. pose proof (Hin b Hb) as Hbr.
    destruct (Hpts a Har) as (_ & _ & Hj).
    destruct (Hcf (idx s a) Hj) as [Hc _].
    pose proof (ddist_prune (point source (ctr s (idx s a))) (point source a)
                  (point source b)) as H3.
    rewrite !(point_length source Hwf) in H3 by done.
    specialize (H3 eq_refl eq_refl).
    fold (sq (ctr s (idx s a)) b) (sq (ctr s (idx s a)) a) (sq a b) in H3.
    pose proof (ddist_sym (point source (ctr s (idx s a))) (point source a)) as H4.
    pose proof (ddist_sym (point source (ctr s (idx s a))) (point source b)) as H5.
    fold (sq (ctr s (idx s a)) a) (sq a (ctr s (idx s a))) in H4.
    fold (sq (ctr s (idx s a)) b) (sq b (ctr s (idx s a))) in H5.
    qlra. }
  assert (all_below (N.to_nat i) (idx s <$> l)) as Hbelow.
  { apply Forall_forall. intros j Hj.
    apply list_elem_of_fmap in Hj as (a & -> & Ha).
    destruct (Hpts a (Hin a Ha)) as (_ & _ & H). lia. }
  pose proof (NoDup_below_length _ _ Hnd' Hbelow) as Hlen.
  rewrite length_fmap in Hlen. lia.
Qed.

Lemma iteration_regular_run m s :
  (1 <= m < Kn)%nat -> regular source Kn nc0 m s ->
  exists s', iteration n source (N.of_nat m) s = Ok s'
             /\ regular source Kn nc0 (S m) s'.
Proof.
  intros Hm (Hweak & Hstrong & Hc0 & Hff).
  pose proof valid as (Hwf & _).
  pose proof (separated_radius_pos (N.of_nat m) s Hweak Hstrong
                ltac:(lia) ltac:(lia)) as Hpos.
  destruct (iteration_regular source Kn Hwf (N.of_nat m) s Hweak Hstrong
              ltac:(lia) ltac:(lia) Hpos) as (s' & Hrun & Hw & Hs & Hc).
  rewrite Nat2N.id in Hc.
  exists s'. split; [done |].
  replace (N.of_nat m + 1)%N with (N.of_nat (S m)) in Hw, Hs by lia.
  split; [done |]. split; [done |].
  pose proof Hweak as ((Lc & _) & _).
  split.
  - unfold ctr. rewrite Hc. rewrite <- (Nat2N.id m).
    rewrite sel_insert_ne by lia. exact Hc0.
  - intros i Hi k Hk. rewrite Hc, take_insert_ge by lia.
    pose proof (sel_insert 0%N (centers s) (N.of_nat m)
                  (far s (max_element (take m (radius s)))) (N.of_nat i)) as Hsel.
    rewrite Nat2N.id in Hsel. rewrite Hsel by lia. clear Hsel.
    destruct (decide (N.of_nat m = N.of_nat i)) as [E | Hne].
    + assert (i = m) as -> by lia.
      pose proof (far_is_farthest (N.of_nat m) s k Hweak Hstrong ltac:(lia) Hk)
        as [H _].
      by rewrite Nat2N.id in H.
    + apply Hff; [lia | done].
Qed.

(** On such an input the invariant with all its parts holds when the pass
    ends. *)
Lemma gonzalez_pass_regular :
  exists g,
    gonzalez_pass source K starting_index rd (replicate n 0%N)
                  (replicate Kn 0%Q) = Ok g
    /\ regular source Kn nc0 Kn g.
Proof.
  destruct (gonzalez_pass_init source K starting_index rd valid)
    as (s & Hrun & Hinit).
  destruct (initial_strong source K starting_index rd valid s Hinit)
    as [Hweak Hstrong].
  pose proof valid as (_ & _ & _ & HK & _).
  rewrite Hrun. change 1%N with (N.of_nat 1).
  destruct (for_N_inv (regular source Kn nc0) (iteration n source)
              (Z.to_nat (K - 1)) 1 s) as (g & Hg & Hinv).
  - split; [done |]. split; [done |]. split.
    + destruct Hinit as (_ & Hc & _). unfold ctr. rewrite Hc.
      apply sel_insert_eq. rewrite length_replicate. lia.
    + intros i Hi. lia.
  - intros m s' Hm Hinv. apply iteration_regular_run; [lia | done].
  - exists g. split; [done |].
    assert (1 + Z.to_nat (K - 1) = Kn)%nat as E by lia.
    by rewrite E in Hinv.
Qed.

End RegularRun.

Lemma sel_map {A B} (f : A -> B) (da : A) (db : B) (v : list A) (k : N) :
  (N.to_nat k < length v)%nat -> sel db (map f v) k = f (sel da v k).
Proof.
  intros Hk. unfold sel. rewrite list_lookup_fmap.
  destruct (lookup_lt_is_Some_2 v (N.to_nat k) Hk) as [x ->]. done.
Qed.

Section RegularObject.

Variable limit : Z.
Variable source : mat.
Variable K : Z.
Variable bandwidth epsilon : Q.
Variable starting_index : bool * N.
Variable rd : N.
Variable l : list N.
Hypothesis valid : valid_input source K starting_index.
Hypothesis limit_nonneg : (0 <= limit)%Z.
Hypothesis different : separated source l.
Hypothesis enough : length l = Z.to_nat K.

Local Abbreviation n := (length (rows source)).
Local Abbreviation Kn := (Z.to_nat K).
Local Abbreviation nc0 := (first_center source starting_index rd).

(** The object built from the state the pass leaves, with what is known of
    both. *)
Lemma GonzalezClustering_regular :
  exists g np cc p,
    gonzalez_pass source K starting_index rd (replicate n 0%N)
                  (replicate Kn 0%Q) = Ok g
    /\ regular source Kn nc0 Kn g
    /\ counted source Kn (index g) n (np, cc)
    /\ GonzalezClustering limit source K bandwidth epsilon starting_index rd
       = Ok {| m_source := source; m_indices := index g;
               m_centers := divide_rows cc np; m_num_points := np;
               m_radii := map (fun q => sqrt (Q2R q)) (radius g);
               m_rx := get_max_radius (map (fun q => sqrt (Q2R q)) (radius g));
               m_bandwidth := bandwidth; m_epsilon := epsilon;
               m_p_max := p |}.
Proof.
  destruct (choose_truncation_number_spec limit limit_nonneg
              (Z.of_N (n_cols source)) (Q2R bandwidth) (Q2R epsilon) 0)
    as (m & Hp & _).
  destruct (GonzalezClustering_runs limit source K bandwidth epsilon
              starting_index rd valid _ Hp)
    as (g & np & cc & Hg & _ & Hcounted & Hrun).
  destruct (gonzalez_pass_regular source K starting_index rd l valid different
              enough) as (g' & Hg' & Hreg).
  rewrite Hg in Hg'. injection Hg' as <-.
  exists g, np, cc, (uword_of_int (Z.of_nat m)). done.
Qed.

End RegularObject.

Lemma example_separated : separated (Mat 1 [[0]; [2]; [7]]%Q) [0; 1]%N.
Proof.
  split; [| split].
  - apply NoDup_cons. split; [| apply NoDup_singleton].
    by intros H%list_elem_of_singleton.
  - intros a Ha. unfold in_range. cbn.
    apply elem_of_cons in Ha as [-> | Ha]; [lia |].
    apply list_elem_of_singleton in Ha as ->. lia.
  - intros a b Ha Hb Hne.
    apply elem_of_cons in Ha as [-> | Ha];
      [| apply list_elem_of_singleton in Ha as ->];
      (apply elem_of_cons in Hb as [-> | Hb];
       [| apply list_elem_of_singleton in Hb as ->]);
      done || by vm_compute.
Qed.

Lemma example_valid : valid_input (Mat 1 [[0]; [2]; [7]]%Q) 2 (true, 0%N).
Proof. valid_input_tac. Qed.

(** X8. When the input has [K] points no two of which coincide, no cluster
    is left empty: every per-cluster count is at least 1, the division of
    line 184 never has a zero divisor, and every stored centre is the mean
    of the points of its cluster.
    The input is one on which the program's arithmetic is exact
    ([exact_input]). *)
Theorem GonzalezClustering_no_empty_cluster limit source K bandwidth epsilon
    starting_index rd l :
  valid_input source K starting_index -> exact_input source ->
  (0 <= limit)%Z ->
  separated source l -> length l = Z.to_nat K ->
  exists c,
    GonzalezClustering limit source K bandwidth epsilon starting_index rd = Ok c
    /\ length (m_num_points c) = Z.to_nat K
    /\ Forall (fun count => (1 <= count)%N) (m_num_points c)
    /\ forall k, (k < Z.to_nat K)%nat ->
         m_centers c !! k = Some (centroid source (m_indices c) (N.of_nat k)).
Proof.
  intros Hvalid _ Hlimit Hdiff Hlen.
  destruct (GonzalezClustering_regular limit source K bandwidth epsilon
              starting_index rd l Hvalid Hlimit Hdiff Hlen)
    as (g & np & cc & p & _ & Hreg & Hcounted & Hrun).
  eexists. split; [exact Hrun |]. cbn [m_num_points m_centers m_indices].
  destruct Hcounted as (L1 & L2 & _ & Hrows). cbn [fst snd] in L1, L2, Hrows.
  destruct Hreg as (Hweak & Hstrong & _).
  destruct Hweak as ((_ & _ & _ & _ & _ & _ & Li) & _ & Hcf & _).
  destruct Hstrong as (_ & _ & Hcidx & _).
  split; [done |]. split.
  - apply Forall_lookup. intros k x Hx.
    assert (k < Z.to_nat K)%nat as Hk by (rewrite <- L1; by eapply lookup_lt_Some).
    destruct (Hrows k Hk) as [Hn _]. rewrite Hn in Hx. injection Hx as <-.
    destruct (Hcf (N.of_nat k) ltac:(lia)) as [Hc _].
    assert (N.to_nat (ctr g (N.of_nat k))
            ∈ assigned (index g) (length (rows source)) (N.of_nat k)) as Hin.
    { unfold assigned. apply list_elem_of_filter. split.
      - rewrite (lookup_sel 0%N) by (unfold in_range in Hc; lia).
        f_equal. apply Hcidx. lia.
      - apply elem_of_seq. unfold in_range in Hc. lia. }
    destruct (assigned (index g) (length (rows source)) (N.of_nat k));
      [by apply elem_of_nil in Hin | cbn; lia].
  - intros k Hk. destruct (Hrows k Hk) as [Hn Hc].
    rewrite (divide_rows_lookup _ _ _ _ _ Hc Hn). unfold centroid.
    by rewrite nat_N_Z.
Qed.

Lemma GonzalezClustering_no_empty_cluster_witness :
  exists c,
    GonzalezClustering 200 (Mat 1 [[0]; [2]; [7]]%Q) 2 1 (1 # 10) (true, 0%N) 0 = Ok c
    /\ length (m_num_points c) = 2%nat
    /\ Forall (fun count => (1 <= count)%N) (m_num_points c)
    /\ forall k, (k < 2)%nat ->
         m_centers c !! k
         = Some (centroid (Mat 1 [[0]; [2]; [7]]%Q) (m_indices c) (N.of_nat k)).
Proof.
  apply (GonzalezClustering_no_empty_cluster 200 (Mat 1 [[0]; [2]; [7]]%Q) 2 1
           (1 # 10) (true, 0%N) 0 [0; 1]%N);
    [apply example_valid | apply example_exact | lia | apply example_separated
    | reflexivity].
Defined.

(** With the invariant for all [K] clusters, [index] is the nearest-centre
    assignment. *)
Lemma strong_index_bf source K g :
  (0 < K <= length (rows source))%nat ->
  weak source K (N.of_nat K) g -> strong source (N.of_nat K) g ->
  index g = map (bf_assign source (centers g)) (points source).
Proof.
  intros HK Hweak Hstrong.
  pose proof Hweak as ((Lc & _ & _ & _ & _ & _ & Li) & _).
  apply list_eq. intros k.
  destruct (decide (k < length (rows source))%nat) as [Hk | Hk].
  - assert (in_range source (N.of_nat k)) as Hkr by (unfold in_range; lia).
    pose proof (points_lookup source (bf_assign source (centers g)) _ Hkr) as Hp.
    rewrite Nat2N.id in Hp. rewrite Hp.
    destruct (strong_bf source K ltac:(lia) (N.of_nat K) g (N.of_nat k)
                Hweak Hstrong ltac:(lia) Hkr) as [Ha _].
    rewrite Nat2N.id, take_ge in Ha by lia. rewrite Ha.
    rewrite <- (Nat2N.id k) at 1. apply lookup_sel. lia.
  - rewrite !(proj2 (lookup_ge_None _ _)); [done | |].
    + unfold points. rewrite !length_map, length_seq. lia.
    + lia.
Qed.

(** X9. When the input has [K] points no two of which coincide, the stored
    assignment is the nearest-centre assignment for the [K] seeds the pass
    has chosen: every point is in the cluster of a seed nearest to it, the
    one chosen first among several equally near.
    The input is one on which the program's arithmetic is exact
    ([exact_input]). *)
Theorem GonzalezClustering_nearest_centre limit source K bandwidth epsilon
    starting_index rd l :
  valid_input source K starting_index -> exact_input source ->
  (0 <= limit)%Z ->
  separated source l -> length l = Z.to_nat K ->
  exists g c,
    gonzalez_pass source K starting_index rd
                  (replicate (length (rows source)) 0%N)
                  (replicate (Z.to_nat K) 0%Q) = Ok g
    /\ GonzalezClustering limit source K bandwidth epsilon starting_index rd
       = Ok c
    /\ m_indices c = map (bf_assign source (centers g)) (points source).
Proof.
  intros Hvalid _ Hlimit Hdiff Hlen.
  destruct (GonzalezClustering_regular limit source K bandwidth epsilon
              starting_index rd l Hvalid Hlimit Hdiff Hlen)
    as (g & np & cc & p & Hg & Hreg & _ & Hrun).
  exists g. eexists. split; [done |]. split; [exact Hrun |]. cbn [m_indices].
  destruct Hreg as (Hweak & Hstrong & _).
  pose proof Hvalid as (_ & _ & _ & HK & _). unfold n_rows in HK.
  apply (strong_index_bf source (Z.to_nat K)); [lia | done | done].
Qed.

Lemma GonzalezClustering_nearest_centre_witness :
  exists g c,
    gonzalez_pass (Mat 1 [[0]; [2]; [7]]%Q) 2 (true, 0%N) 0
                  (replicate 3 0%N) (replicate 2 0%Q) = Ok g
    /\ GonzalezClustering 200 (Mat 1 [[0]; [2]; [7]]%Q) 2 1 (1 # 10) (true, 0%N) 0
       = Ok c
    /\ m_indices c
       = map (bf_assign (Mat 1 [[0]; [2]; [7]]%Q) (centers g))
             (points (Mat 1 [[0]; [2]; [7]]%Q)).
Proof.
  apply (GonzalezClustering_nearest_centre 200 (Mat 1 [[0]; [2]; [7]]%Q) 2 1
           (1 # 10) (true, 0%N) 0 [0; 1]%N);
    [apply example_valid | apply example_exact | lia | apply example_separated
    | reflexivity].
Defined.

(** X10. On such an input each stored radius is the largest distance from
    the seed of a cluster to a point of that cluster: every point lies
    within the radius of its cluster around the seed, and some point of the
    cluster lies exactly that far.
    The input is one on which the program's arithmetic is exact
    ([exact_input]). *)
Theorem GonzalezClustering_radii limit source K bandwidth epsilon
    starting_index rd l :
  valid_input source K starting_index -> exact_input source ->
  (0 <= limit)%Z ->
  separated source l -> length l = Z.to_nat K ->
  exists g c,
    gonzalez_pass source K starting_index rd
                  (replicate (length (rows source)) 0%N)
                  (replicate (Z.to_nat K) 0%Q) = Ok g
    /\ GonzalezClustering limit source K bandwidth epsilon starting_index rd
       = Ok c
    /\ (forall k, in_range source k ->
          let j := sel 0%N (m_indices c) k in
          (sqrt (Q2R (sqdist source k (ctr g j))) <= sel 0%R (m_radii c) j)%R)
    /\ forall j, (j < Z.to_N K)%N ->
         exists k, in_range source k /\ sel 0%N (m_indices c) k = j
                   /\ sel 0%R (m_radii c) j
                      = sqrt (Q2R (sqdist source k (ctr g j))).
Proof.
  intros Hvalid _ Hlimit Hdiff Hlen.
  destruct (GonzalezClustering_regular limit source K bandwidth epsilon
              starting_index rd l Hvalid Hlimit Hdiff Hlen)
    as (g & np & cc & p & Hg & Hreg & _ & Hrun).
  exists g. eexists. split; [done |]. split; [exact Hrun |].
  cbn [m_indices m_radii].
  destruct Hreg as (Hweak & Hstrong & _).
  destruct Hweak as ((_ & _ & Lr & _) & _ & _ & Hpts).
  destruct Hstrong as (Hdist & _ & _ & _ & Hrad).
  split.
  - intros k Hk. cbv zeta. fold (idx g k).
    destruct (Hpts k Hk) as (_ & _ & Hj).
    rewrite (sel_map _ 0%Q) by lia. fold (rad g (idx g k)).
    apply sqrt_le_1_alt. rewrite <- (Qreals.Qeq_eqR _ _ (Hdist k Hk)).
    apply Qreals.Qle_Rle.
    destruct (Hrad (idx g k)) as (_ & _ & _ & Hb); [lia |]. by apply Hb.
  - intros j Hj. destruct (Hrad j) as (Hfi & Hfr & Hfd & _); [lia |].
    exists (far g j). split; [done |]. split; [done |].
    rewrite (sel_map _ 0%Q) by lia. fold (rad g j). f_equal.
    rewrite <- (Qreals.Qeq_eqR _ _ Hfd).
    apply Qreals.Qeq_eqR. pose proof (Hdist _ Hfr) as H. by rewrite Hfi in H.
Qed.

Lemma GonzalezClustering_radii_witness :
  exists g c,
    gonzalez_pass (Mat 1 [[0]; [2]; [7]]%Q) 2 (true, 0%N) 0
                  (replicate 3 0%N) (replicate 2 0%Q) = Ok g
    /\ GonzalezClustering 200 (Mat 1 [[0]; [2]; [7]]%Q) 2 1 (1 # 10) (true, 0%N) 0
       = Ok c
    /\ (forall k, in_range (Mat 1 [[0]; [2]; [7]]%Q) k ->
          let j := sel 0%N (m_indices c) k in
          (sqrt (Q2R (sqdist (Mat 1 [[0]; [2]; [7]]%Q) k (ctr g j)))
           <= sel 0%R (m_radii c) j)%R)
    /\ forall j, (j < Z.to_N 2)%N ->
         exists k, in_range (Mat 1 [[0]; [2]; [7]]%Q) k
                   /\ sel 0%N (m_indices c) k = j
                   /\ sel 0%R (m_radii c) j
                      = sqrt (Q2R (sqdist (Mat 1 [[0]; [2]; [7]]%Q) k (ctr g j))).
Proof.
  apply (GonzalezClustering_radii 200 (Mat 1 [[0]; [2]; [7]]%Q) 2 1
           (1 # 10) (true, 0%N) 0 [0; 1]%N);
    [apply example_valid | apply example_exact | lia | apply example_separated
    | reflexivity].
Defined.

(** X11. On such an input the seeds are chosen farthest first: the first is
    the starting point, and each later one is, among all points, one of
    those whose distance to the nearest earlier seed is largest.
    The input is one on which the program's arithmetic is exact
    ([exact_input]). *)
Theorem gonzalez_pass_farthest_first source K starting_index rd l :
  valid_input source K starting_index -> exact_input source ->
  separated source l -> length l = Z.to_nat K ->
  exists g,
    gonzalez_pass source K starting_index rd
                  (replicate (length (rows source)) 0%N)
                  (replicate (Z.to_nat K) 0%Q) = Ok g
    /\ sel 0%N (centers g) 0 = first_center source starting_index rd
    /\ farthest_first source (Z.to_nat K) (centers g).
Proof.
  intros Hvalid _ Hdiff Hlen.
  destruct (gonzalez_pass_regular source K starting_index rd l Hvalid Hdiff Hlen)
    as (g & Hg & _ & _ & Hc0 & Hff).
  by exists g.
Qed.

Lemma gonzalez_pass_farthest_first_witness :
  exists g,
    gonzalez_pass (Mat 1 [[0]; [2]; [7]]%Q) 2 (true, 0%N) 0
                  (replicate 3 0%N) (replicate 2 0%Q) = Ok g
    /\ sel 0%N (centers g) 0 = 0%N
    /\ farthest_first (Mat 1 [[0]; [2]; [7]]%Q) 2 (centers g).
Proof.
  apply (gonzalez_pass_farthest_first (Mat 1 [[0]; [2]; [7]]%Q) 2 (true, 0%N) 0
           [0; 1]%N);
    [apply example_valid | apply example_exact | apply example_separated
    | reflexivity].
Defined.

(** X12. On such an input the [K] seeds are [K] different points, each one
    still in the cluster it has seeded when the pass ends, at distance zero
    from its centre.
    The input is one on which the program's arithmetic is exact
    ([exact_input]). *)
Theorem gonzalez_pass_seeds source K starting_index rd l :
  valid_input source K starting_index -> exact_input source ->
  separated source l -> length l = Z.to_nat K ->
  exists g,
    gonzalez_pass source K starting_index rd
                  (replicate (length (rows source)) 0%N)
                  (replicate (Z.to_nat K) 0%Q) = Ok g
    /\ length (centers g) = Z.to_nat K
    /\ NoDup (centers g)
    /\ forall j, (j < Z.to_N K)%N ->
         in_range source (ctr g j) /\ idx g (ctr g j) = j
         /\ (dst g (ctr g j) == 0)%Q.
Proof.
  intros Hvalid _ Hdiff Hlen.
  destruct (gonzalez_pass_regular source K starting_index rd l Hvalid Hdiff Hlen)
    as (g & Hg & Hweak & Hstrong & _).
  exists g. split; [done |].
  destruct Hweak as ((Lc & _) & _ & Hcf & _).
  destruct Hstrong as (Hdist & _ & Hcidx & _).
  split; [done |]. split.
  - apply NoDup_alt. intros i j x Hi Hj.
    assert (i < Z.to_nat K)%nat as Hi' by (rewrite <- Lc; by eapply lookup_lt_Some).
    assert (j < Z.to_nat K)%nat as Hj' by (rewrite <- Lc; by eapply lookup_lt_Some).
    pose proof (Hcidx (N.of_nat i) ltac:(lia)) as H1.
    pose proof (Hcidx (N.of_nat j) ltac:(lia)) as H2.
    unfold ctr in H1, H2.
    rewrite (sel_lookup 0%N (centers g) (N.of_nat i) x) in H1
      by (by rewrite Nat2N.id).
    rewrite (sel_lookup 0%N (centers g) (N.of_nat j) x) in H2
      by (by rewrite Nat2N.id).
    lia.
  - intros j Hj. destruct (Hcf j ltac:(lia)) as [Hc _].
    pose proof (Hcidx j ltac:(lia)) as Hi.
    split; [done |]. split; [done |].
    rewrite (Hdist _ Hc), Hi. apply ddist_self.
Qed.

Lemma gonzalez_pass_seeds_witness :
  exists g,
    gonzalez_pass (Mat 1 [[0]; [2]; [7]]%Q) 2 (true, 0%N) 0
                  (replicate 3 0%N) (replicate 2 0%Q) = Ok g
    /\ length (centers g) = 2%nat
    /\ NoDup (centers g)
    /\ forall j, (j < Z.to_N 2)%N ->
         in_range (Mat 1 [[0]; [2]; [7]]%Q) (ctr g j) /\ idx g (ctr g j) = j
         /\ (dst g (ctr g j) == 0)%Q.
Proof.
  apply (gonzalez_pass_seeds (Mat 1 [[0]; [2]; [7]]%Q) 2 (true, 0%N) 0 [0; 1]%N);
    [apply example_valid | apply example_exact | apply example_separated
    | reflexivity].
Defined.

(** X13. On such an input the doubly linked rings are intact when the pass
    ends: for every cluster, following [cnext] from its seed visits each
    point of the cluster once and no other point, and returns to the seed;
    [cprev] leads back the same way.
    The input is one on which the program's arithmetic is exact
    ([exact_input]). *)
Theorem gonzalez_pass_rings source K starting_index rd l :
  valid_input source K starting_index -> exact_input source ->
  separated source l -> length l = Z.to_nat K ->
  exists g,
    gonzalez_pass source K starting_index rd
                  (replicate (length (rows source)) 0%N)
                  (replicate (Z.to_nat K) 0%Q) = Ok g
    /\ forall j, (j < Z.to_N K)%N ->
         exists ring,
           chain (cnext g) (cprev g) (ctr g j) ring (ctr g j)
           /\ NoDup (ctr g j :: ring)
           /\ forall k, k ∈ ctr g j :: ring
                        <-> in_range source k /\ idx g k = j.
Proof.
  intros Hvalid _ Hdiff Hlen.
  destruct (gonzalez_pass_regular source K starting_index rd l Hvalid Hdiff Hlen)
    as (g & Hg & _ & Hstrong & _).
  exists g. split; [done |].
  destruct Hstrong as (_ & _ & _ & Hrings & _).
  intros j Hj. destruct (Hrings j ltac:(lia)) as [ring Hring].
  exists ring. exact Hring.
Qed.

Lemma gonzalez_pass_rings_witness :
  exists g,
    gonzalez_pass (Mat 1 [[0]; [2]; [7]]%Q) 2 (true, 0%N) 0
                  (replicate 3 0%N) (replicate 2 0%Q) = Ok g
    /\ forall j, (j < Z.to_N 2)%N ->
         exists ring,
           chain (cnext g) (cprev g) (ctr g j) ring (ctr g j)
           /\ NoDup (ctr g j :: ring)
           /\ forall k, k ∈ ctr g j :: ring
                        <-> in_range (Mat 1 [[0]; [2]; [7]]%Q) k /\ idx g k = j.
Proof.
  apply (gonzalez_pass_rings (Mat 1 [[0]; [2]; [7]]%Q) 2 (true, 0%N) 0 [0; 1]%N);
    [apply example_valid | apply example_exact | apply example_separated
    | reflexivity].
Defined.

(** ** [compute_C] and the weights (lines 61-83) *)

Lemma zip_with_Rplus_scale (a : R) (x : list R) : forall y,
  zip_with Rplus (map (Rmult a) x) (map (Rmult a) y)
  = map (Rmult a) (zip_with Rplus x y).
Proof.
  induction x as [| u x IH]; intros [| v y]; try done.
  cbn. rewrite IH. f_equal. rlra.
Qed.

Lemma zip_with_Rmult_scale (a : R) (x : list R) : forall y,
  zip_with Rmult (map (Rmult a) x) y = map (Rmult a) (zip_with Rmult x y).
Proof.
  induction x as [| u x IH]; intros [| v y]; try done.
  cbn. rewrite IH. f_equal. rlra.
Qed.

Lemma fold_left_scale (a : R) (terms : list (list R)) : forall z,
  fold_left (zip_with Rplus) (map (map (Rmult a)) terms) (map (Rmult a) z)
  = map (Rmult a) (fold_left (zip_with Rplus) terms z).
Proof.
  induction terms as [| t terms IH]; intros z; [done |].
  cbn. rewrite zip_with_Rplus_scale. apply IH.
Qed.

Section Scaling.

Variable compute_monomials : list R -> N -> list R.
Variable get_p_max_total : N -> N -> N.
Context {D : Type}.
Variable c : Clustering D.
Variable q : list Q.
Variable a : Q.

Lemma weight_scaled i :
  Q2R (default 0%Q (map (Qmult a) q !! i))
  = (Q2R a * Q2R (default 0%Q (q !! i)))%R.
Proof.
  rewrite list_lookup_fmap. destruct (q !! i) as [x |]; cbn.
  - apply Qreals.Q2R_mult.
  - rewrite RMicromega.Q2R_0. rlra.
Qed.

Lemma point_term_scaled k i :
  point_term compute_monomials c (map (Qmult a) q) k i
  = map (Rmult (Q2R a)) (point_term compute_monomials c q k i).
Proof.
  unfold point_term, weighted_monomials. cbv zeta.
  rewrite weight_scaled, (map_map _ (Rmult (Q2R a))). apply map_ext.
  intros m. rlra.
Qed.

Lemma cluster_sum_scaled k :
  cluster_sum compute_monomials get_p_max_total c (map (Qmult a) q) k
  = map (Rmult (Q2R a)) (cluster_sum compute_monomials get_p_max_total c q k).
Proof.
  unfold cluster_sum. rewrite <- fold_left_scale. f_equal.
  - rewrite map_map. apply map_ext. intros i. apply point_term_scaled.
  - change (map (Rmult (Q2R a)) ?x) with (Rmult (Q2R a) <$> x).
    rewrite fmap_replicate. f_equal. rlra.
Qed.

End Scaling.

(** X14. [compute_C] is homogeneous in the weights: multiplying every
    weight by [a] multiplies every entry of the result by [a]. *)
Theorem compute_C_scales
    (compute_monomials : list R -> N -> list R)
    (compute_constant_series : N -> N -> list R)
    (get_p_max_total : N -> N -> N)
    {D : Type} (c : Clustering D) (q : list Q) (a : Q) :
  let d := n_cols (m_source c) in
  let M := N.to_nat (get_p_max_total d (m_p_max c)) in
  let K := length (m_centers c) in
  (forall x, length x = N.to_nat d -> length (compute_monomials x (m_p_max c)) = M) ->
  length (compute_constant_series d (m_p_max c)) = M ->
  Forall (fun r => length r = N.to_nat d) (rows (m_source c)) ->
  Forall (fun r => length r = N.to_nat d) (m_centers c) ->
  length (m_indices c) = length (rows (m_source c)) ->
  Forall (fun k => (N.to_nat k < K)%nat) (m_indices c) ->
  length q = length (rows (m_source c)) ->
  (get_p_max_total d (m_p_max c) < 2 ^ 61)%N /\ (N.of_nat K < 2 ^ 61)%N ->
  exists C,
    compute_C compute_monomials compute_constant_series get_p_max_total c q = Ok C
    /\ compute_C compute_monomials compute_constant_series get_p_max_total c
                 (map (Qmult a) q)
       = Ok (map (map (Rmult (Q2R a))) C).
Proof.
  intros d M K Hmono Hseries Hrows Hcenters Hidx Hrange Hq Hsizes.
  destruct (compute_C_rows compute_monomials compute_constant_series
              get_p_max_total c q Hmono Hseries Hrows Hcenters Hidx Hrange Hq
              Hsizes) as (C & Hrun & HlenC & _ & HC & _).
  destruct (compute_C_rows compute_monomials compute_constant_series
              get_p_max_total c (map (Qmult a) q) Hmono Hseries Hrows Hcenters
              Hidx Hrange ltac:(by rewrite length_map) Hsizes)
    as (C' & Hrun' & HlenC' & _ & HC' & _).
  exists C. split; [done |]. rewrite Hrun'. f_equal.
  apply list_eq. intros k. rewrite list_lookup_fmap.
  destruct (decide (k < length (m_centers c))%nat) as [Hk | Hk].
  - rewrite (HC' k Hk), (HC k Hk). cbn. f_equal.
    rewrite cluster_sum_scaled. apply zip_with_Rmult_scale.
  - rewrite !(proj2 (lookup_ge_None _ _)) by lia. done.
Qed.

Lemma compute_C_scales_witness :
  exists C,
    compute_C (fun (x : list R) (p : N) => 1%R :: x)
              (fun (d p : N) => [1%R; 2%R]) (fun (d p : N) => 2%N)
              example_clustering [1; 1; 1]%Q = Ok C
    /\ compute_C (fun (x : list R) (p : N) => 1%R :: x)
                 (fun (d p : N) => [1%R; 2%R]) (fun (d p : N) => 2%N)
                 example_clustering (map (Qmult 3) [1; 1; 1]%Q)
       = Ok (map (map (Rmult (Q2R 3))) C).
Proof.
  apply (compute_C_scales (fun (x : list R) (p : N) => 1%R :: x)
           (fun (d p : N) => [1%R; 2%R]) (fun (d p : N) => 2%N)
           example_clustering [1; 1; 1]%Q 3).
  - intros x Hx. cbn [length]. rewrite Hx. reflexivity.
  - reflexivity.
  - repeat constructor.
  - repeat constructor.
  - reflexivity.
  - repeat constructor; cbn; lia.
  - reflexivity.
  - split; reflexivity.
Defined.

Lemma for_N_ext {S} (body body' : N -> S -> result S) count : forall i s,
  (forall j s', (i <= j < i + N.of_nat count)%N -> body j s' = body' j s') ->
  for_N count i body s = for_N count i body' s.
Proof.
  induction count as [| count IH]; intros i s H; [done |].
  cbn [for_N]. rewrite (H i s) by lia.
  destruct (body' i s) as [s' |]; [| done]. rewrite !bind_Ok.
  apply IH. intros j s'' Hj. apply H. lia.
Qed.

Lemma for_N_app {S} (body : N -> S -> result S) a b : forall i s,
  for_N (a + b) i body s
  = (s' ← for_N a i body s; for_N b (i + N.of_nat a)%N body s').
Proof.
  induction a as [| a IH]; intros i s.
  - cbn [for_N Nat.add]. rewrite bind_Ok. f_equal. lia.
  - cbn [for_N Nat.add]. destruct (body i s) as [s' |]; [| done].
    rewrite !bind_Ok, IH. destruct (for_N a (i + 1)%N body s'); [| done].
    rewrite !bind_Ok. f_equal. lia.
Qed.

Lemma at_take {A} (v : list A) (n : nat) (i : N) :
  (N.to_nat i < n)%nat -> at_ (take n v) i = at_ v i.
Proof. intros Hi. unfold at_. by rewrite lookup_take_lt. Qed.

(** X15. [compute_C] reads one weight per point and no more: weights
    beyond the first [N] have no effect on the result. *)
Theorem compute_C_ignores_extra_weights
    (compute_monomials : list R -> N -> list R)
    (compute_constant_series : N -> N -> list R)
    (get_p_max_total : N -> N -> N)
    {D : Type} (c : Clustering D) (q : list Q) :
  (length (rows (m_source c)) <= length q)%nat ->
  compute_C compute_monomials compute_constant_series get_p_max_total c q
  = compute_C compute_monomials compute_constant_series get_p_max_total c
              (take (length (rows (m_source c))) q).
Proof.
  intros Hq. unfold compute_C.
  destruct (alloc _ 0%R) as [zero_row |]; [| done]. rewrite !bind_Ok.
  destruct (alloc _ zero_row) as [C |]; [| done]. rewrite !bind_Ok.
  rewrite (for_N_ext (accumulate_point compute_monomials c q)
             (accumulate_point compute_monomials c
                (take (length (rows (m_source c))) q))); [done |].
  intros j C' Hj. unfold accumulate_point.
  unfold n_rows in Hj. rewrite Nat2N.id in Hj.
  by rewrite at_take by lia.
Qed.

Lemma compute_C_ignores_extra_weights_witness :
  compute_C (fun (x : list R) (p : N) => 1%R :: x)
            (fun (d p : N) => [1%R; 2%R]) (fun (d p : N) => 2%N)
            example_clustering [1; 2; 3; 4; 5]%Q
  = compute_C (fun (x : list R) (p : N) => 1%R :: x)
              (fun (d p : N) => [1%R; 2%R]) (fun (d p : N) => 2%N)
              example_clustering (take 3 [1; 2; 3; 4; 5]%Q).
Proof.
  apply (compute_C_ignores_extra_weights (fun (x : list R) (p : N) => 1%R :: x)
           (fun (d p : N) => [1%R; 2%R]) (fun (d p : N) => 2%N)
           example_clustering [1; 2; 3; 4; 5]%Q).
  cbn. lia.
Defined.

(** X16. [compute_C] does not check the length of the weight vector
    beforehand: with fewer weights than points it accumulates the points
    that have a weight and fails at [q(i)] for the first one that has
    none. *)
Theorem compute_C_short_weights
    (compute_monomials : list R -> N -> list R)
    (compute_constant_series : N -> N -> list R)
    (get_p_max_total : N -> N -> N)
    {D : Type} (c : Clustering D) (q : list Q) :
  let d := n_cols (m_source c) in
  let M := N.to_nat (get_p_max_total d (m_p_max c)) in
  let K := length (m_centers c) in
  (forall x, length x = N.to_nat d -> length (compute_monomials x (m_p_max c)) = M) ->
  length (compute_constant_series d (m_p_max c)) = M ->
  Forall (fun r => length r = N.to_nat d) (rows (m_source c)) ->
  Forall (fun r => length r = N.to_nat d) (m_centers c) ->
  length (m_indices c) = length (rows (m_source c)) ->
  Forall (fun k => (N.to_nat k < K)%nat) (m_indices c) ->
  (get_p_max_total d (m_p_max c) < 2 ^ 61)%N /\ (N.of_nat K < 2 ^ 61)%N ->
  (length q < length (rows (m_source c)))%nat ->
  compute_C compute_monomials compute_constant_series get_p_max_total c q
  = Err IndexOutOfBounds.
Proof.
  intros d M K Hmono Hseries Hrows Hcenters Hidx Hrange Hsizes Hq.
  set (n := length (rows (m_source c))) in *.
  set (m := length q) in *.
  set (q_ext := q ++ replicate (n - m) 0%Q).
  assert (length q_ext = n) as Hext
    by (unfold q_ext; rewrite length_app, length_replicate; lia).
  unfold compute_C. destruct Hsizes as [HM HK].
  rewrite alloc_ok, bind_Ok by done. rewrite alloc_ok, bind_Ok by done.
  unfold n_rows. fold n. rewrite Nat2N.id.
  replace n with (m + S (n - m - 1))%nat at 1 by lia.
  rewrite for_N_app.
  rewrite (for_N_ext (accumulate_point compute_monomials c q)
             (accumulate_point compute_monomials c q_ext)).
  2:{ intros j C' Hj. unfold accumulate_point, q_ext.
      assert (at_ (q ++ replicate (n - m) 0%Q) j = at_ q j) as ->; [| done].
      unfold at_. rewrite lookup_app_l; [done | fold m; lia]. }
  destruct (for_N_inv
              (accumulated compute_monomials get_p_max_total c q_ext)
              (accumulate_point compute_monomials c q_ext) m 0
              (replicate (N.to_nat (N.of_nat K)) (replicate M 0%R)))
    as (Cm & Hrun & Hacc).
  { split; [rewrite length_replicate; lia |]. intros k Hk.
    rewrite Nat2N.id. by rewrite lookup_replicate_2. }
  { intros i C' Hi. apply (accumulate_point_step compute_monomials
                             compute_constant_series); try done.
    fold n. lia. }
  change (N.of_nat 0) with 0%N in Hrun. fold d M K. rewrite Hrun, bind_Ok.
  cbn [for_N Nat.add].
  assert (accumulate_point compute_monomials c q (0 + N.of_nat m) Cm
          = Err IndexOutOfBounds) as ->; [| done].
  destruct Hacc as [HlenC HCm]. change (0 + N.of_nat m)%N with (N.of_nat m).
  unfold accumulate_point.
  destruct (lookup_lt_is_Some_2 (m_indices c) m) as [k Hk]; [lia |].
  assert (N.to_nat k < K)%nat as HkK
    by (eapply (proj1 (Forall_lookup _ _) Hrange); eauto).
  destruct (lookup_lt_is_Some_2 (rows (m_source c)) m) as [ri Hri]; [done |].
  destruct (lookup_lt_is_Some_2 (m_centers c) (N.to_nat k)) as [ck Hck]; [done |].
  assert (length ri = N.to_nat d) as Lri
    by (eapply (proj1 (Forall_lookup _ _) Hrows); eauto).
  assert (length ck = N.to_nat d) as Lck
    by (eapply (proj1 (Forall_lookup _ _) Hcenters); eauto).
  rewrite (at_nat _ _ _ Hk), bind_Ok. unfold row.
  rewrite (at_nat _ _ _ Hri), bind_Ok, (at_Some _ _ _ Hck), bind_Ok.
  unfold vec_sub. rewrite Lri, Lck, Nat.eqb_refl, bind_Ok.
  assert (at_ q (N.of_nat m) = Err IndexOutOfBounds) as ->; [| done].
  unfold at_. rewrite Nat2N.id.
  by rewrite (proj2 (lookup_ge_None q m)) by (unfold m; lia).
Qed.

Lemma compute_C_short_weights_witness :
  compute_C (fun (x : list R) (p : N) => 1%R :: x)
            (fun (d p : N) => [1%R; 2%R]) (fun (d p : N) => 2%N)
            example_clustering [1; 1]%Q
  = Err IndexOutOfBounds.
Proof.
  apply (compute_C_short_weights (fun (x : list R) (p : N) => 1%R :: x)
           (fun (d p : N) => [1%R; 2%R]) (fun (d p : N) => 2%N)
           example_clustering [1; 1]%Q).
  - intros x Hx. cbn [length]. rewrite Hx. reflexivity.
  - reflexivity.
  - repeat constructor.
  - repeat constructor.
  - reflexivity.
  - repeat constructor; cbn; lia.
  - split; reflexivity.
  - cbn. lia.
Defined.

(** ** As many clusters as points *)

Lemma total_ge_length counts :
  Forall (fun x => (1 <= x)%N) counts ->
  (N.of_nat (length counts) <= total counts)%N.
Proof.
  induction 1 as [| x counts Hx _ IH]; [done |].
  change (total (x :: counts)) with (x + total counts)%N. cbn [length]. lia.
Qed.

Lemma total_all_ones counts :
  Forall (fun x => (1 <= x)%N) counts ->
  total counts = N.of_nat (length counts) ->
  Forall (fun x => x = 1%N) counts.
Proof.
  induction 1 as [| x counts Hx Hall IH]; intros Htotal; [constructor |].
  change (total (x :: counts)) with (x + total counts)%N in Htotal.
  cbn [length] in Htotal. pose proof (total_ge_length counts Hall).
  constructor; [lia | apply IH; lia].
Qed.

(** X17. With [K = N] and no two points alike, every cluster ends with
    exactly one point and with radius 0.
    The input is one on which the program's arithmetic is exact
    ([exact_input]). *)
Theorem GonzalezClustering_K_equals_N limit source K bandwidth epsilon
    starting_index rd :
  valid_input source K starting_index -> exact_input source ->
  (0 <= limit)%Z ->
  K = Z.of_N (n_rows source) -> separated source (points source) ->
  exists c,
    GonzalezClustering limit source K bandwidth epsilon starting_index rd = Ok c
    /\ length (m_num_points c) = Z.to_nat K
    /\ Forall (fun count => count = 1%N) (m_num_points c)
    /\ length (m_radii c) = Z.to_nat K
    /\ Forall (fun r => r = 0%R) (m_radii c).
Proof.
  intros Hvalid _ Hlimit HK Hdiff.
  assert (length (points source) = Z.to_nat K) as Hlen.
  { unfold points. rewrite length_map, length_seq. unfold n_rows in HK. lia. }
  destruct (GonzalezClustering_regular limit source K bandwidth epsilon
              starting_index rd _ Hvalid Hlimit Hdiff Hlen)
    as (g & np & cc & p & _ & Hreg & Hcounted & Hrun).
  eexists. split; [exact Hrun |]. cbn [m_num_points m_radii].
  destruct Hcounted as (L1 & L2 & Htotal & Hrows).
  cbn [fst snd] in L1, L2, Htotal, Hrows.
  destruct Hreg as (Hweak & Hstrong & _).
  destruct Hweak as ((_ & _ & Lr & _ & _ & _ & Li) & _ & Hcf & _).
  destruct Hstrong as (Hdist & _ & Hcidx & _ & Hrad).
  assert (forall j, (j < Z.to_nat K)%nat ->
            N.to_nat (ctr g (N.of_nat j))
            ∈ assigned (index g) (length (rows source)) (N.of_nat j)
            /\ N.to_nat (far g (N.of_nat j))
               ∈ assigned (index g) (length (rows source)) (N.of_nat j))
    as Hmembers.
  { intros j Hj. destruct (Hcf (N.of_nat j) ltac:(lia)) as [Hc Hf].
    destruct (Hrad (N.of_nat j) ltac:(lia)) as (Hfi & _).
    unfold in_range in Hc, Hf. unfold assigned.
    split; apply list_elem_of_filter; (split; [| apply elem_of_seq; lia]).
    - rewrite (lookup_sel 0%N) by lia. f_equal. apply Hcidx. lia.
    - rewrite (lookup_sel 0%N) by lia. by f_equal. }
  assert (Forall (fun count => (1 <= count)%N) np) as Hpos.
  { apply Forall_lookup. intros j x Hx.
    assert (j < Z.to_nat K)%nat as Hj by (rewrite <- L1; by eapply lookup_lt_Some).
    destruct (Hrows j Hj) as [Hn _]. rewrite Hn in Hx. injection Hx as <-.
    destruct (Hmembers j Hj) as [Hin _].
    destruct (assigned (index g) (length (rows source)) (N.of_nat j));
      [by apply elem_of_nil in Hin | cbn; lia]. }
  assert (Forall (fun count => count = 1%N) np) as Hones.
  { apply total_all_ones; [done |]. rewrite Htotal, L1.
    unfold n_rows in HK. lia. }
  split; [done |]. split; [done |]. split; [by rewrite length_map |].
  apply Forall_lookup. intros j r Hr. rewrite list_lookup_fmap in Hr.
  assert (j < Z.to_nat K)%nat as Hj.
  { rewrite <- Lr. destruct (radius g !! j) eqn:E; [| done].
    by eapply lookup_lt_Some. }
  rewrite <- (Nat2N.id j), (lookup_sel 0%Q) in Hr by lia. cbn in Hr.
  injection Hr as <-. fold (rad g (N.of_nat j)).
  destruct (Hrows j Hj) as [Hn _].
  pose proof (proj1 (Forall_lookup _ _) Hones j _ Hn) as Hone. cbn in Hone.
  destruct (Hmembers j Hj) as [Hin1 Hin2].
  destruct (assigned (index g) (length (rows source)) (N.of_nat j))
    as [| a [| b rest]]; cbn in Hone; try lia.
  apply list_elem_of_singleton in Hin1, Hin2.
  assert (far g (N.of_nat j) = ctr g (N.of_nat j)) as Hfc by lia.
  destruct (Hrad (N.of_nat j) ltac:(lia)) as (_ & _ & Hfd & _).
  destruct (Hcf (N.of_nat j) ltac:(lia)) as [Hc _].
  pose proof (Hdist _ Hc) as Hd. rewrite (Hcidx (N.of_nat j)) in Hd by lia.
  assert (rad g (N.of_nat j) == 0)%Q as Hzero.
  { rewrite <- Hfd, Hfc, Hd. apply ddist_self. }
  rewrite (Qreals.Qeq_eqR _ _ Hzero), RMicromega.Q2R_0. apply sqrt_0.
Qed.

Lemma example_all_separated :
  separated (Mat 1 [[0]; [2]; [7]]%Q) (points (Mat 1 [[0]; [2]; [7]]%Q)).
Proof.
  change (points (Mat 1 [[0]; [2]; [7]]%Q)) with [0; 1; 2]%N.
  split; [| split].
  - apply NoDup_cons. split.
    { intros H. apply elem_of_cons in H as [H | H]; [done |].
      by apply list_elem_of_singleton in H. }
    apply NoDup_cons. split; [| apply NoDup_singleton].
    by intros H%list_elem_of_singleton.
  - intros a Ha. unfold in_range. cbn.
    repeat (apply elem_of_cons in Ha as [-> | Ha]; [lia |]).
    by apply elem_of_nil in Ha.
  - intros a b Ha Hb Hne.
    repeat (apply elem_of_cons in Ha as [-> | Ha];
            [| try by apply elem_of_nil in Ha]);
      repeat (apply elem_of_cons in Hb as [-> | Hb];
              [| try by apply elem_of_nil in Hb]);
      done || by vm_compute.
Qed.

Lemma GonzalezClustering_K_equals_N_witness :
  exists c,
    GonzalezClustering 200 (Mat 1 [[0]; [2]; [7]]%Q) 3 1 (1 # 10) (true, 0%N) 0 = Ok c
    /\ length (m_num_points c) = 3%nat
    /\ Forall (fun count => count = 1%N) (m_num_points c)
    /\ length (m_radii c) = 3%nat
    /\ Forall (fun r => r = 0%R) (m_radii c).
Proof.
  apply (GonzalezClustering_K_equals_N 200 (Mat 1 [[0]; [2]; [7]]%Q) 3 1 (1 # 10)
           (true, 0%N) 0);
    [valid_input_tac | apply example_exact | lia | reflexivity
    | apply example_all_separated].
Defined.

(** ** Clusters without points, and what the partition depends on *)

Lemma zip_with_Rmult_zero (m : nat) : forall s : list R,
  length s = m -> zip_with Rmult (replicate m 0%R) s = replicate m 0%R.
Proof.
  induction m as [| m IH]; intros [| x s] Hs; try done.
  cbn. rewrite IH by (cbn in Hs; lia). f_equal. rlra.
Qed.

(** X18. A cluster to which no point is assigned contributes nothing: its
    row of the matrix [compute_C] returns is zero in every entry, also
    after the multiplication by the constant series. *)
Theorem compute_C_empty_cluster
    (compute_monomials : list R -> N -> list R)
    (compute_constant_series : N -> N -> list R)
    (get_p_max_total : N -> N -> N)
    {D : Type} (c : Clustering D) (q : list Q) :
  let d := n_cols (m_source c) in
  let M := N.to_nat (get_p_max_total d (m_p_max c)) in
  let K := length (m_centers c) in
  (forall x, length x = N.to_nat d -> length (compute_monomials x (m_p_max c)) = M) ->
  length (compute_constant_series d (m_p_max c)) = M ->
  Forall (fun r => length r = N.to_nat d) (rows (m_source c)) ->
  Forall (fun r => length r = N.to_nat d) (m_centers c) ->
  length (m_indices c) = length (rows (m_source c)) ->
  Forall (fun k => (N.to_nat k < K)%nat) (m_indices c) ->
  length q = length (rows (m_source c)) ->
  (get_p_max_total d (m_p_max c) < 2 ^ 61)%N /\ (N.of_nat K < 2 ^ 61)%N ->
  exists C,
    compute_C compute_monomials compute_constant_series get_p_max_total c q = Ok C
    /\ forall k, (k < K)%nat -> N.of_nat k ∉ m_indices c ->
         C !! k = Some (replicate M 0%R).
Proof.
  intros d M K Hmono Hseries Hrows Hcenters Hidx Hrange Hq Hsizes.
  destruct (compute_C_rows compute_monomials compute_constant_series
              get_p_max_total c q Hmono Hseries Hrows Hcenters Hidx Hrange Hq
              Hsizes) as (C & Hrun & _ & _ & HC & Hempty).
  exists C. split; [done |]. intros k Hk Hnot.
  rewrite (HC k Hk), Hempty.
  - f_equal. by apply zip_with_Rmult_zero.
  - destruct (members c (N.of_nat k)) as [| i rest] eqn:E; [done | exfalso].
    assert (i ∈ members c (N.of_nat k)) as Hi by (rewrite E; left).
    unfold members in Hi. apply list_elem_of_filter in Hi as [Hi _].
    apply Hnot. by eapply list_elem_of_lookup_2.
Qed.

Lemma compute_C_empty_cluster_witness :
  exists C,
    compute_C (fun (x : list R) (p : N) => 1%R :: x)
              (fun (d p : N) => [1%R; 2%R]) (fun (d p : N) => 2%N)
              (MkClustering (Mat 1 [[0]; [2]; [7]]%Q) [0; 0; 0]%N [[1]; [7]]%Q
                            [3; 0]%N [4; 0]%Q 4%Q 1%Q (1 # 10)%Q 1%N)
              [1; 1; 1]%Q = Ok C
    /\ forall k, (k < 2)%nat -> N.of_nat k ∉ [0; 0; 0]%N ->
         C !! k = Some (replicate 2 0%R).
Proof.
  apply (compute_C_empty_cluster (fun (x : list R) (p : N) => 1%R :: x)
           (fun (d p : N) => [1%R; 2%R]) (fun (d p : N) => 2%N)
           (MkClustering (Mat 1 [[0]; [2]; [7]]%Q) [0; 0; 0]%N [[1]; [7]]%Q
                         [3; 0]%N [4; 0]%Q 4%Q 1%Q (1 # 10)%Q 1%N)
           [1; 1; 1]%Q).
  - intros x Hx. cbn [length]. cbn in Hx. rewrite Hx. reflexivity.
  - reflexivity.
  - repeat constructor.
  - repeat constructor.
  - reflexivity.
  - repeat constructor; cbn; lia.
  - reflexivity.
  - split; reflexivity.
Defined.

(** X19. The partition does not depend on the bandwidth or on epsilon: two
    constructions from the same points, [K] and starting index agree on the
    assignment, the counts, the centres and the radii, whatever the two
    other parameters are. *)
Theorem GonzalezClustering_partition_independent limit source K starting_index
    rd bandwidth epsilon bandwidth' epsilon' :
  valid_input source K starting_index -> (0 <= limit)%Z ->
  exists c c',
    GonzalezClustering limit source K bandwidth epsilon starting_index rd = Ok c
    /\ GonzalezClustering limit source K bandwidth' epsilon' starting_index rd
       = Ok c'
    /\ m_indices c = m_indices c' /\ m_num_points c = m_num_points c'
    /\ m_centers c = m_centers c' /\ m_radii c = m_radii c'
    /\ m_rx c = m_rx c'.
Proof.
  intros Hvalid Hlimit.
  destruct (choose_truncation_number_spec limit Hlimit (Z.of_N (n_cols source))
              (Q2R bandwidth) (Q2R epsilon) 0) as (m & Hp & _).
  destruct (choose_truncation_number_spec limit Hlimit (Z.of_N (n_cols source))
              (Q2R bandwidth') (Q2R epsilon') 0) as (m' & Hp' & _).
  destruct (GonzalezClustering_runs limit source K bandwidth epsilon
              starting_index rd Hvalid _ Hp)
    as (g & np & cc & Hg & _ & _ & Hrun).
  pose proof Hvalid as (_ & Hn & Hd & HK & _).
  assert (0 <= K < 2 ^ 61)%Z as HK'.
  { assert (2 ^ 61 = Z.of_N (2 ^ 61))%Z as E by done. rewrite E. lia. }
  pose proof Hrun as Hrun'. unfold GonzalezClustering in Hrun'.
  rewrite (Clustering_ctor_ok _ _ _ _ _ _ Hn Hd HK' Hp), bind_Ok in Hrun'.
  cbn [m_indices m_radii] in Hrun'. rewrite Hg, bind_Ok in Hrun'.
  unfold finalize in Hrun'. cbn [m_source m_num_points m_centers] in Hrun'.
  destruct (for_N _ _ _ _) as [[np' cc'] |] eqn:Hloop; [| done].
  rewrite bind_Ok in Hrun'. injection Hrun' as Hnp Hcc.
  unfold n_rows in Hloop. rewrite Nat2N.id in Hloop.
  eexists. eexists. split; [exact Hrun |]. split.
  - apply (GonzalezClustering_eval limit source K bandwidth' epsilon'
             starting_index rd _ g np' cc' Hn Hd HK' Hp' Hg Hloop).
  - cbn. subst. done.
Qed.

Lemma GonzalezClustering_partition_independent_witness :
  exists c c',
    GonzalezClustering 200 (Mat 1 [[0]; [2]; [7]]%Q) 2 1 (1 # 10) (true, 0%N) 0 = Ok c
    /\ GonzalezClustering 200 (Mat 1 [[0]; [2]; [7]]%Q) 2 5 (1 # 2) (true, 0%N) 0
       = Ok c'
    /\ m_indices c = m_indices c' /\ m_num_points c = m_num_points c'
    /\ m_centers c = m_centers c' /\ m_radii c = m_radii c'
    /\ m_rx c = m_rx c'.
Proof.
  apply (GonzalezClustering_partition_independent 200 (Mat 1 [[0]; [2]; [7]]%Q) 2
           (true, 0%N) 0 1 (1 # 10) 5 (1 # 2)); [apply example_valid | lia].
Defined.


(** * What the constructors check *)

Section UncheckedArguments.

Variable limit : Z.
Variable source : mat.
Variable K : Z.
Variable bandwidth epsilon : Q.
Variable starting_index : bool * N.
Variable rd : N.
Hypothesis limit_nonneg : (0 <= limit)%Z.
Hypothesis rows_bound : (n_rows source < 2 ^ 61)%N.
Hypothesis cols_bound : (n_cols source < 2 ^ 61)%N.

Local Abbreviation run :=
  (GonzalezClustering limit source K bandwidth epsilon starting_index rd).

Lemma unchecked_negative_K : (- 2 ^ 63 <= K < 0)%Z -> run = Err BadAlloc.
Proof.
  intros HK. unfold GonzalezClustering, Clustering_ctor.
  rewrite (alloc_ok (n_rows source)), bind_Ok by done.
  rewrite (alloc_ok (n_cols source)), bind_Ok by done.
  rewrite (alloc_too_large (uword_of_int K) (replicate _ 0%Q)); [done |].
  unfold uword_of_int, uword_modulus.
  change (Z.of_N (2 ^ 64)) with (2 ^ 64)%Z.
  replace (K mod 2 ^ 64)%Z with (K + 2 ^ 64)%Z.
  - change (2 ^ 61)%N with (Z.to_N (2 ^ 61)). apply Z2N.inj_le; lia.
  - symmetry. rewrite <- (Z.mod_small (K + 2 ^ 64) (2 ^ 64)) by lia.
    rewrite <- (Z.mul_1_l (2 ^ 64)) at 2. by rewrite Z.mod_add.
Qed.

Lemma unchecked_zero_K :
  K = 0%Z -> starting_index.1 = true \/ (0 < n_rows source)%N ->
  run = Err IndexOutOfBounds.
Proof.
  intros -> Hstart.
  apply GonzalezClustering_pass_fails; [done | done | done | lia |].
  rewrite gonzalez_pass_allocated by (done || lia).
  assert (exists nc,
            (if starting_index.1 then Ok starting_index.2
             else if (n_rows source =? 0)%N then Err ModuloByZero
                  else Ok (rd mod n_rows source)%N) = Ok nc) as [nc ->].
  { destruct (starting_index.1); [by eexists |].
    destruct Hstart as [| Hpos]; [done |].
    destruct (N.eqb_spec (n_rows source) 0); [lia | by eexists]. }
  done.
Qed.

Lemma unchecked_no_points_no_start :
  (0 <= K < 2 ^ 61)%Z -> n_rows source = 0%N -> starting_index.1 = false ->
  run = Err ModuloByZero.
Proof.
  intros HK Hn Hstart.
  apply GonzalezClustering_pass_fails; [done | done | done | done |].
  rewrite gonzalez_pass_allocated by done.
  by rewrite Hstart, Hn.
Qed.

Lemma unchecked_no_points_start :
  (1 <= K < 2 ^ 61)%Z -> n_rows source = 0%N -> starting_index.1 = true ->
  run = Err IndexOutOfBounds.
Proof.
  intros HK Hn Hstart.
  apply GonzalezClustering_pass_fails; [done | done | done | lia |].
  rewrite gonzalez_pass_allocated by (done || lia).
  rewrite Hstart, bind_Ok. cbv zeta.
  unfold set_center. rewrite put_ok by (cbn; rewrite length_replicate; lia).
  rewrite bind_Ok.
  assert (length (rows source) = 0%nat) as Hlen by (unfold n_rows in Hn; lia).
  rewrite Hlen, Hn. cbn [for_N]. rewrite bind_Ok. done.
Qed.

Lemma unchecked_start :
  (1 <= K < 2 ^ 61)%Z -> (0 < n_rows source)%N ->
  starting_index.1 = true -> (n_rows source <= starting_index.2)%N ->
  run = Err IndexOutOfBounds.
Proof.
  intros HK Hn Hgiven Hstart.
  apply GonzalezClustering_pass_fails; [done | done | done | lia |].
  rewrite gonzalez_pass_allocated by (done || lia).
  rewrite Hgiven, bind_Ok. cbv zeta.
  unfold set_center. rewrite put_ok by (cbn; rewrite length_replicate; lia).
  rewrite bind_Ok.
  unfold n_rows in Hn, Hstart.
  destruct (length (rows source)) as [| n'] eqn:En; [lia |].
  cbn [for_N]. rewrite ?bind_Ok. unfold init_point.
  destruct (N.eqb_spec 0 starting_index.2) as [E | _]; [lia |].
  unfold row.
  destruct (lookup_lt_is_Some_2 (rows source) 0) as [r0 Hr0]; [lia |].
  rewrite (at_Some (rows source) 0%N r0 Hr0), bind_Ok.
  unfold at_. rewrite (proj2 (lookup_ge_None _ _)) by lia. done.
Qed.

(** Every other input runs to the end, whatever the bandwidth and epsilon
    and also when [K] exceeds the number of points. *)
Lemma unchecked_accepted :
  runnable_input source K starting_index ->
  exists c,
    run = Ok c
    /\ m_bandwidth c = bandwidth /\ m_epsilon c = epsilon
    /\ length (m_indices c) = length (rows source)
    /\ Forall (fun k => (0 <= Z.of_N k < K)%Z) (m_indices c)
    /\ length (m_num_points c) = Z.to_nat K
    /\ total (m_num_points c) = n_rows source
    /\ length (m_centers c) = Z.to_nat K
    /\ length (m_radii c) = Z.to_nat K.
Proof.
  intros Hrun.
  destruct (choose_truncation_number_spec limit limit_nonneg
              (Z.of_N (n_cols source)) (Q2R bandwidth) (Q2R epsilon) 0)
    as (m & Hp & _).
  destruct (GonzalezClustering_runs_any limit source K bandwidth epsilon
              starting_index rd Hrun _ Hp)
    as (g & np & cc & _ & Hinv & Hcounted & Hrun').
  eexists. split; [exact Hrun' |].
  cbn [m_indices m_centers m_radii m_num_points m_bandwidth m_epsilon].
  destruct Hinv as [(Hlen & _ & _ & Hpts) _].
  pose proof Hlen as (_ & _ & Lr & _ & _ & _ & Li).
  destruct Hcounted as (L1 & L2 & Htotal & _). cbn [fst snd] in L1, L2, Htotal.
  split; [done |]. split; [done |]. split; [done |]. split.
  { apply Forall_lookup. intros i k Hik.
    assert (in_range source (N.of_nat i)) as Hi.
    { unfold in_range. rewrite Nat2N.id, <- Li. by eapply lookup_lt_Some. }
    destruct (Hpts _ Hi) as (_ & _ & H). unfold idx, sel in H.
    rewrite Nat2N.id, Hik in H. cbn in H. lia. }
  split; [done |]. split; [done |].
  split; [rewrite divide_rows_length; [done | lia] | by rewrite length_map].
Qed.

End UncheckedArguments.

(** C3, as the code has it. Neither constructor checks an argument; what
    happens to an input the specification calls invalid is what the first
    operation it upsets does.
    - A bandwidth [<= 0], an epsilon outside [(0, 1)] and a [K] above the
      number of points upset none: with at least one point, [K >= 1] and a
      starting index, when given, among the points, the constructor returns,
      keeps both numbers, gives every point a cluster in [[0, K)] and counts
      all [N] points.
    - A negative [K] fails in the allocation of the base constructor.
    - [K = 0] fails at [centers(0) = nc], the first element written.
    - No point and no starting index fails at [rd() % N]; no point and a
      starting index fails at [cnext(N - 1) = 0].
    - A starting index past the points fails at [source.row(nc)], after
      [centers(0)] is written. *)
Theorem GonzalezClustering_validates_nothing limit source K bandwidth epsilon
    starting_index rd :
  (0 <= limit)%Z -> mat_wf source ->
  (n_rows source < 2 ^ 61)%N -> (n_cols source < 2 ^ 61)%N ->
  let run :=
    GonzalezClustering limit source K bandwidth epsilon starting_index rd in
  ((1 <= K < 2 ^ 61)%Z -> (0 < n_rows source)%N ->
   (starting_index.1 = true -> (starting_index.2 < n_rows source)%N) ->
   exists c,
     run = Ok c
     /\ m_bandwidth c = bandwidth /\ m_epsilon c = epsilon
     /\ length (m_indices c) = length (rows source)
     /\ Forall (fun k => (0 <= Z.of_N k < K)%Z) (m_indices c)
     /\ length (m_num_points c) = Z.to_nat K
     /\ total (m_num_points c) = n_rows source
     /\ length (m_centers c) = Z.to_nat K
     /\ length (m_radii c) = Z.to_nat K)
  /\ ((- 2 ^ 63 <= K < 0)%Z -> run = Err BadAlloc)
  /\ (K = 0%Z -> starting_index.1 = true \/ (0 < n_rows source)%N ->
      run = Err IndexOutOfBounds)
  /\ ((0 <= K < 2 ^ 61)%Z -> n_rows source = 0%N ->
      starting_index.1 = false -> run = Err ModuloByZero)
  /\ ((1 <= K < 2 ^ 61)%Z -> n_rows source = 0%N ->
      starting_index.1 = true -> run = Err IndexOutOfBounds)
  /\ ((1 <= K < 2 ^ 61)%Z -> (0 < n_rows source)%N ->
      starting_index.1 = true -> (n_rows source <= starting_index.2)%N ->
      run = Err IndexOutOfBounds).
Proof.
  intros Hlimit Hwf Hn Hd run.
  split; [| split; [| split; [| split; [| split]]]].
  - intros HK Hpos Hstart. apply unchecked_accepted; try done.
    split; [done |]. split; [done |]. split; [done |]. split; [| done]. lia.
  - by apply unchecked_negative_K.
  - by apply unchecked_zero_K.
  - by apply unchecked_no_points_no_start.
  - by apply unchecked_no_points_start.
  - by apply unchecked_start.
Qed.

Lemma GonzalezClustering_validates_nothing_witness :
  let run := GonzalezClustering 200 (Mat 1 [[0]; [2]]%Q) 5 (-1) 2 (true, 0%N) 0 in
  ((1 <= 5 < 2 ^ 61)%Z -> (0 < n_rows (Mat 1 [[0]; [2]]%Q))%N ->
   ((true, 0%N).1 = true -> ((true, 0%N).2 < n_rows (Mat 1 [[0]; [2]]%Q))%N) ->
   exists c,
     run = Ok c
     /\ m_bandwidth c = (-1)%Q /\ m_epsilon c = 2%Q
     /\ length (m_indices c) = 2%nat
     /\ Forall (fun k => (0 <= Z.of_N k < 5)%Z) (m_indices c)
     /\ length (m_num_points c) = 5%nat
     /\ total (m_num_points c) = 2%N
     /\ length (m_centers c) = 5%nat
     /\ length (m_radii c) = 5%nat)
  /\ ((- 2 ^ 63 <= 5 < 0)%Z -> run = Err BadAlloc)
  /\ (5 = 0 -> (true, 0%N).1 = true \/ (0 < n_rows (Mat 1 [[0]; [2]]%Q))%N ->
      run = Err IndexOutOfBounds)%Z
  /\ ((0 <= 5 < 2 ^ 61)%Z -> n_rows (Mat 1 [[0]; [2]]%Q) = 0%N ->
      (true, 0%N).1 = false -> run = Err ModuloByZero)
  /\ ((1 <= 5 < 2 ^ 61)%Z -> n_rows (Mat 1 [[0]; [2]]%Q) = 0%N ->
      (true, 0%N).1 = true -> run = Err IndexOutOfBounds)
  /\ ((1 <= 5 < 2 ^ 61)%Z -> (0 < n_rows (Mat 1 [[0]; [2]]%Q))%N ->
      (true, 0%N).1 = true -> (n_rows (Mat 1 [[0]; [2]]%Q) <= (true, 0%N).2)%N ->
      run = Err IndexOutOfBounds).
Proof.
  apply (GonzalezClustering_validates_nothing 200 (Mat 1 [[0]; [2]]%Q) 5 (-1) 2
           (true, 0%N) 0); [lia | | done | done].
  split; [repeat constructor | done].
Defined.
